(** * Document discovery and ranking engine: a shallow embedding

    The development follows the Python sources

      - [pkg/http_client.py]      (HTTPClient.make_request),
      - [pkg/html_processor.py]   (HTMLPageProcessor: classifier and crawler),
      - [pkg/reports_ranker.py]   (ReportsRanker),
      - [processors/search_reports.py] (AnnualReportSearcher),

    definition by definition.  A Python [str] is modelled as a [string]
    whose characters are the code points U+0000 to U+00FF (Latin-1): on
    these, [str.lower], [str.strip], the classes [\d] and [\s] and
    matching under [re.IGNORECASE] are what the definitions below say.
    Text with a character from U+0100 on is outside the domain of these
    definitions, with one exception: year extraction, whose pattern [\d]
    and whose [int] accept the decimal digits of every script, is
    modelled a second time on arbitrary Unicode text (module [Unicode]),
    and the two models are shown to agree on Latin-1 text.  Python [int]
    is [Z].  [Optional[T]] is [option T]; Python truthiness of an optional
    string or integer is written out ([truthy], [truthy_int]). *)

From Stdlib Require Import ZArith Ascii String.
From stdpp Require Import gmap strings list sorting.

Local Open Scope Z_scope.

(** ** Python string primitives *)

Module Str.

(** The lower-case form of a character below U+0100: the letters A to Z
    and the upper-case letters U+00C0 to U+00DE (the multiplication sign
    U+00D7 is no letter) move up by 32. *)
Definition lower_char (c : ascii) : ascii :=
  let n := N_of_ascii c in
  if (((65 <=? n) && (n <=? 90))
      || ((192 <=? n) && (n <=? 222) && negb (n =? 215)))%N
  then ascii_of_N (n + 32) else c.

(** [s.lower()] *)
Fixpoint lower (s : string) : string :=
  match s with
  | EmptyString => EmptyString
  | String c s' => String (lower_char c) (lower s')
  end.

(** [s.startswith(p)] *)
Fixpoint startswith (p s : string) : bool :=
  match p with
  | EmptyString => true
  | String a p' =>
      match s with
      | EmptyString => false
      | String b s' => if Ascii.eqb a b then startswith p' s' else false
      end
  end.

(** [kw in s] *)
Fixpoint contains (kw s : string) : bool :=
  startswith kw s ||
  match s with
  | EmptyString => false
  | String _ s' => contains kw s'
  end.

(** [s.endswith(suf)]: some suffix of [s] is [suf]. *)
Fixpoint endswith (suf s : string) : bool :=
  String.eqb suf s ||
  match s with
  | EmptyString => false
  | String _ s' => endswith suf s'
  end.

(** [c in s] for a single character. *)
Fixpoint has_char (c : ascii) (s : string) : bool :=
  match s with
  | EmptyString => false
  | String b s' => Ascii.eqb c b || has_char c s'
  end.

(** [s.split(sep)] for a one-character separator: never the empty list. *)
Fixpoint split (sep : ascii) (s : string) : list string :=
  match s with
  | EmptyString => [EmptyString]
  | String c s' =>
      if Ascii.eqb c sep then EmptyString :: split sep s'
      else match split sep s' with
           | [] => [String c EmptyString]
           | piece :: pieces => String c piece :: pieces
           end
  end.

(** [sep.join(parts)] *)
Fixpoint join (sep : string) (parts : list string) : string :=
  match parts with
  | [] => EmptyString
  | [p] => p
  | p :: ps => p +:+ sep +:+ join sep ps
  end.

(** [s[n:]] *)
Fixpoint slice_from (n : nat) (s : string) : string :=
  match n with
  | O => s
  | S n' => match s with
            | EmptyString => EmptyString
            | String _ s' => slice_from n' s'
            end
  end.

(** [s[:n]] *)
Fixpoint slice_to (n : nat) (s : string) : string :=
  match n with
  | O => EmptyString
  | S n' => match s with
            | EmptyString => EmptyString
            | String c s' => String c (slice_to n' s')
            end
  end.

(** The class [\d]: below U+0100 the decimal digits are 0 to 9. *)
Definition is_digit (c : ascii) : bool :=
  let n := N_of_ascii c in ((48 <=? n) && (n <=? 57))%N.

Definition digit_val (c : ascii) : Z := Z.of_N (N_of_ascii c) - 48.

(** [int(s)] on a string of decimal digits. *)
Definition int (s : string) : Z :=
  fold_left (fun acc c => 10 * acc + digit_val c) (list_ascii_of_string s) 0.

(** The longest prefix of [s] whose characters all satisfy [keep] (a
    greedy character class), and what follows it. *)
Fixpoint span (keep : ascii → bool) (s : string) : string :=
  match s with
  | EmptyString => EmptyString
  | String c s' => if keep c then String c (span keep s') else EmptyString
  end.

Fixpoint after_span (keep : ascii → bool) (s : string) : string :=
  match s with
  | EmptyString => EmptyString
  | String c s' => if keep c then after_span keep s' else s
  end.

(** Python truthiness of an optional string: [None] and [''] are falsy. *)
Definition truthy (o : option string) : bool :=
  match o with
  | Some EmptyString => false
  | Some _ => true
  | None => false
  end.

(** Python truthiness of an optional integer: the value, unless it is
    [None] or [0]. *)
Definition truthy_int (o : option Z) : option Z :=
  match o with
  | Some 0 => None
  | Some n => Some n
  | None => None
  end.

(** [o.lower() if o else ""] *)
Definition lower_or_empty (o : option string) : string :=
  match o with
  | Some s => lower s
  | None => EmptyString
  end.

End Str.

(** ** [pkg/models.py] *)

Module models.

Record ExtractedDocument := mkDoc {
  url : string;
  title : string;
  content : string;
  year : option Z
}.

#[global] Instance ExtractedDocument_eq_dec : EqDecision ExtractedDocument.
Proof. solve_decision. Defined.

End models.

Abbreviation ExtractedDocument := models.ExtractedDocument.
Abbreviation mkDoc := models.mkDoc.

(** A [bs4] anchor tag, as far as the processor looks at it: its [href] and
    [title] attributes (either may be absent) and [get_text(strip=True)]. *)
Record Link := mkLink {
  link_href : option string;
  link_text : string;
  link_title : option string
}.

(** ** [pkg/html_processor.py]: the link classifier *)

Module Classifier.
Import Str.

Definition _get_quarterly_keywords : list string :=
  [ "q1"; "q2"; "q3"; "q4";
    "h1"; "h2"; "h3"; "h4";
    "quarterly"; "quarter"; "half yearly";
    "half year"; "half-yearly"; "half-year"; "half" ].

Definition _get_annual_keywords : list string :=
  [ "annual"; "yearly"; "year-end"; "annual-report"; "annual_report"; "financial-report";
    "financial statements"; "consolidated"; "statements"; "integrated";
    "balance sheet"; "income statement"; "cash flow"; "profit and loss";
    "p&l"; "accounts"; "financial report"; "balance"; "income"; "cash";
    "profit"; "loss"; "sheet"; "flow"; "report"; "financial" ].

(** [_is_quarter_report(link, url)]: the loop returns [True] at the first
    keyword found in the lower-cased link text or URL. *)
Definition _is_quarter_report (link : option Link) (url : option string) : bool :=
  let link_text := match link with
                   | Some l => lower (link_text l)
                   | None => EmptyString
                   end in
  let url_lower := lower_or_empty url in
  existsb (fun keyword => contains keyword link_text || contains keyword url_lower)
          _get_quarterly_keywords.

(** [_is_annual_report(text, url, filename, link)] *)
Definition _is_annual_report
    (text url filename : option string) (link : option Link) : bool :=
  (* a link object overrides [text] and supplies a missing [url] *)
  let text := match link with
              | Some l => Some (link_text l)
              | None => text
              end in
  let url := match link, url with
             | Some l, None => Some (default EmptyString (link_href l))
             | _, _ => url
             end in
  if _is_quarter_report link url then false
  else if truthy filename
          && existsb (fun keyword => contains keyword (lower_or_empty filename))
                     _get_quarterly_keywords
  then false
  else
    let all_text :=
      (if truthy text then [lower_or_empty text] else [])
      ++ (if truthy url then [lower_or_empty url] else [])
      ++ (if truthy filename then [lower_or_empty filename] else []) in
    if truthy filename
       && negb (endswith ".pdf" (lower_or_empty filename)
                || endswith ".xlsx" (lower_or_empty filename))
    then false
    else if truthy url && negb (truthy filename)
            && negb (endswith ".pdf" (lower_or_empty url)
                     || endswith ".xlsx" (lower_or_empty url))
    then false
    else
      existsb (fun text_part =>
                 existsb (fun keyword => contains keyword text_part)
                         _get_annual_keywords)
              all_text.

(** The regular expression [20\d{2}] tried at the head of [text]. *)
Definition match_20dd (text : string) : option string :=
  match text with
  | String c1 (String c2 (String d1 (String d2 _))) =>
      if Ascii.eqb c1 "2" && Ascii.eqb c2 "0" && is_digit d1 && is_digit d2
      then Some (String c1 (String c2 (String d1 (String d2 EmptyString))))
      else None
  | _ => None
  end.

(** [re.findall(r'(20\d{2})', text)]: matches are taken leftmost first and
    do not overlap; [skip] counts the characters of the previous match
    that are still to be passed over. *)
Fixpoint findall_20dd_from (skip : nat) (text : string) : list string :=
  match text with
  | EmptyString => []
  | String _ rest =>
      match skip with
      | S k => findall_20dd_from k rest
      | O =>
          match match_20dd text with
          | Some m => m :: findall_20dd_from 3 rest
          | None => findall_20dd_from 0 rest
          end
      end
  end.

Definition findall_20dd (text : string) : list string := findall_20dd_from 0 text.

(** [_extract_year_from_text(text)] *)
Definition _extract_year_from_text (text : string) : option Z :=
  let year_matches := findall_20dd text in
  match year_matches with
  | [] => None
  | _ =>
      let valid_years :=
        map int (filter (fun y => 2000 <= int y <= 2099) year_matches) in
      match valid_years with
      | [] => None
      | first :: others =>
          if decide (1 < length valid_years)%nat
          then last valid_years
          else Some first
      end
  end.

Definition _extract_year_from_filename (filename : string) : option Z :=
  _extract_year_from_text filename.

(** [a or b] on optional integers. *)
Definition or_year (a b : option Z) : option Z :=
  match truthy_int a with
  | Some _ => a
  | None => b
  end.

(** [_extract_year_from_link(link, url)] *)
Definition _extract_year_from_link (link : Link) (url : string) : option Z :=
  let year := _extract_year_from_text (link_text link) in
  match truthy_int year with
  | Some _ => year
  | None => _extract_year_from_text url
  end.

End Classifier.

(** ** [pkg/reports_ranker.py] *)

Module ReportsRanker.
Import Str.

Definition priority_keywords : list string :=
  [ "form 20f"; "20-f"; "20f"; "form20f";
    "annual report"; "annual"; "yearly";
    "financial report"; "consolidated";
    "statements"; "accounts" ].

Definition quarterly_keywords : list string :=
  [ "q1"; "q2"; "q3"; "q4"; "quarterly"; "quarter" ].

(** [for i, keyword in enumerate(self.priority_keywords): ... break]:
    only the first keyword found contributes. *)
Fixpoint priority_loop (keywords : list string) (i : nat)
    (title url : string) (score : Z) : Z :=
  match keywords with
  | [] => score
  | keyword :: rest =>
      if contains keyword title || contains keyword url
      then score + (Z.of_nat (length priority_keywords) - Z.of_nat i) * 10
      else priority_loop rest (S i) title url score
  end.

(** [for keyword in quarterly_keywords: ... score -= 100]: every keyword
    found in the title or in the URL costs 100, once. *)
Fixpoint quarterly_loop (keywords : list string)
    (title url : string) (score : Z) : Z :=
  match keywords with
  | [] => score
  | keyword :: rest =>
      quarterly_loop rest title url
        (if contains keyword title || contains keyword url
         then score - 100 else score)
  end.

(** [_calculate_report_score(report)] *)
Definition _calculate_report_score (report : ExtractedDocument) : Z :=
  let title := lower (models.title report) in
  let url := lower (models.url report) in
  let score := 0 in
  let score := if endswith ".xlsx" url then score + 200
               else if endswith ".pdf" url then score + 100
               else score in
  let score := priority_loop priority_keywords 0 title url score in
  let score := if contains "form" title && contains "20" title
               then score + 50 else score in
  let score := if contains "annual" title then score + 30 else score in
  let score := if contains "consolidated" title then score + 20 else score in
  let score := if contains "financial" title then score + 15 else score in
  let score := if contains "statements" title then score + 10 else score in
  let score := if contains "transparency" title || contains "disclosure" title
               then score - 25 else score in
  quarterly_loop quarterly_keywords title url score.

(** [list.sort(key=lambda x: x[0], reverse=True)]: a stable sort,
    descending by key.  [insert_desc x l] puts [x], which comes from an
    earlier position than every element of [l], in front of the first
    element whose key is not greater. *)
Fixpoint insert_desc (x : Z * ExtractedDocument)
    (l : list (Z * ExtractedDocument)) : list (Z * ExtractedDocument) :=
  match l with
  | [] => [x]
  | y :: l' => if fst x <? fst y then y :: insert_desc x l' else x :: y :: l'
  end.

Fixpoint sort_desc (l : list (Z * ExtractedDocument))
    : list (Z * ExtractedDocument) :=
  match l with
  | [] => []
  | x :: l' => insert_desc x (sort_desc l')
  end.

(** [_rank_reports_for_year(year_reports)] *)
Definition _rank_reports_for_year (year_reports : list ExtractedDocument)
    : list (Z * ExtractedDocument) :=
  match year_reports with
  | [] => []
  | _ =>
      let scored_reports :=
        map (fun report => (_calculate_report_score report, report)) year_reports in
      sort_desc scored_reports
  end.

(** The grouping loop of [rank_reports_for_company]: one report. *)
Definition group_report (reports_by_year : gmap Z (list ExtractedDocument))
    (report : ExtractedDocument) : gmap Z (list ExtractedDocument) :=
  match truthy_int (models.year report) with
  | Some year =>
      <[year := default [] (reports_by_year !! year) ++ [report]]> reports_by_year
  | None => reports_by_year
  end.

(** [rank_reports_for_company(ticker, reports)] *)
Definition rank_reports_for_company (ticker : string)
    (reports : list ExtractedDocument) : gmap Z (list (Z * ExtractedDocument)) :=
  match reports with
  | [] => ∅
  | _ =>
      let reports_by_year := foldl group_report ∅ reports in
      _rank_reports_for_year <$> reports_by_year
  end.

Record YearSelection := mkYearSelection {
  ys_year : Z;
  best : list ExtractedDocument;
  secondary : list ExtractedDocument
}.

Record Selection := mkSelection {
  years_covered : list Z;
  reports : list YearSelection
}.

(** The body of the loop of [select_best_reports] for one year; [None]
    is the [continue] taken for an empty ranking. *)
Definition select_year (year : Z)
    (ranked_year_reports : list (Z * ExtractedDocument)) : option YearSelection :=
  match ranked_year_reports with
  | [] => None
  | _ =>
      let best :=
        if decide (1 <= length ranked_year_reports)%nat
        then match ranked_year_reports !! 0%nat with
             | Some (_, best_report) => [best_report]
             | None => []
             end
        else [] in
      let secondary :=
        if decide (2 <= length ranked_year_reports)%nat
        then match ranked_year_reports !! 1%nat with
             | Some (_, secondary_report) => [secondary_report]
             | None => []
             end
        else [] in
      let secondary :=
        if decide (3 <= length ranked_year_reports)%nat
        then match ranked_year_reports !! 2%nat with
             | Some (_, secondary_report2) => secondary ++ [secondary_report2]
             | None => secondary
             end
        else secondary in
      Some (mkYearSelection year best secondary)
  end.

(** [sorted(ranked_reports.keys())] *)
Definition sorted_keys (ranked_reports : gmap Z (list (Z * ExtractedDocument)))
    : list Z :=
  merge_sort Z.le (elements (dom ranked_reports)).

(** [select_best_reports(ranked_reports)] *)
Definition select_best_reports
    (ranked_reports : gmap Z (list (Z * ExtractedDocument))) : Selection :=
  let years_covered := sorted_keys ranked_reports in
  let reports :=
    omap (fun year => select_year year (default [] (ranked_reports !! year)))
         years_covered in
  mkSelection years_covered reports.

(** [process_company_reports(ticker, reports)] *)
Definition process_company_reports (ticker : string)
    (reports : list ExtractedDocument) : Selection :=
  let ranked_reports := rank_reports_for_company ticker reports in
  select_best_reports ranked_reports.

End ReportsRanker.

(** ** [pkg/http_client.py] *)

Module HTTPClient.

(** What the crawler reads of a [requests.Response]: three headers
    ([headers.get(name, '')], so [""] when absent) and the anchors that
    [BeautifulSoup(response.content)] yields, in document order. *)
Record Response := mkResponse {
  content_disposition : string;
  content_description : string;
  content_type : string;
  anchors : list Link
}.

(** The ways [session.get(url); raise_for_status()] can end. *)
Inductive Outcome :=
| Returned (response : Response)
| TransientFailure   (* ConnectionError, Timeout, ChunkedEncodingError, ReadTimeout *)
| RequestFailure     (* any other RequestException, HTTPError included *)
| OtherException.    (* an exception that [make_request] does not catch *)

(** Observable actions, kept as a log: a call of [make_request] that
    goes to the network, one GET of the session, one [time.sleep]. *)
Inductive Event :=
| Fetch (url : string)
| Get (url : string)
| Sleep (delay : Z).

#[global] Instance Event_eq_dec : EqDecision Event.
Proof. solve_decision. Defined.

(** The client: its set of problematic URLs, the number of GETs issued
    so far (the network is asked with it, so that its answers may change
    over time) and the log. *)
Record Client := mkClient {
  problematic_urls : gset string;
  clock : nat;
  log : list Event
}.

Inductive Result :=
| Resp (response : Response)   (* [return response] *)
| NoResponse                   (* [return None] *)
| Raised.                      (* an exception leaves [make_request] *)

Definition record (e : Event) (c : Client) : Client :=
  mkClient (problematic_urls c) (clock c) (log c ++ [e]).

Definition tick (c : Client) : Client :=
  mkClient (problematic_urls c) (S (clock c)) (log c).

Definition mark_problematic (url : string) (c : Client) : Client :=
  mkClient ({[url]} ∪ problematic_urls c) (clock c) (log c).

Definition max_retries : nat := 3.
Definition base_delay : Z := 1.

Section Network.
(** [net n url]: how the [n]-th GET of the run ends when it asks for [url]. *)
Variable net : nat → string → Outcome.

(** [for attempt in range(max_retries): ...] *)
Fixpoint attempt_loop (attempts : list nat) (url : string) (c : Client)
    : Result * Client :=
  match attempts with
  | [] => (NoResponse, c)
  | attempt :: rest =>
      let outcome := net (clock c) url in
      let c := tick (record (Get url) c) in
      match outcome with
      | Returned response => (Resp response, c)
      | TransientFailure =>
          if decide (attempt < max_retries - 1)%nat
          then
            let delay := base_delay * 2 ^ Z.of_nat attempt in
            attempt_loop rest url (record (Sleep delay) c)
          else (NoResponse, mark_problematic url c)
      | RequestFailure => (NoResponse, mark_problematic url c)
      | OtherException => (Raised, c)
      end
  end.

(** [make_request(url)] *)
Definition make_request (url : string) (c : Client) : Result * Client :=
  if decide (url ∈ problematic_urls c) then (NoResponse, c)
  else attempt_loop (seq 0 max_retries) url (record (Fetch url) c).

End Network.

(** Projections of the log. *)
Definition gets (url : string) (events : list Event) : nat :=
  length (filter (λ e, e = Get url) events).

Definition fetches (url : string) (events : list Event) : nat :=
  length (filter (λ e, e = Fetch url) events).

Definition sleeps (events : list Event) : list Z :=
  omap (λ e, match e with Sleep d => Some d | _ => None end) events.

Definition all_gets (events : list Event) : list string :=
  omap (λ e, match e with Get u => Some u | _ => None end) events.

End HTTPClient.

(** ** [pkg/html_processor.py]: the crawler *)

Module HTMLPageProcessor.
Import Str Classifier HTTPClient.

(** What the crawler calls but does not define: the network behind the
    session and the functions of [urllib.parse].  [None] stands for a
    raised [ValueError]. *)
Record Environment := mkEnv {
  net : nat → string → Outcome;
  urljoin : string → string → option string;
  urlparse_netloc : string → option string;
  urlparse_path : string → option string;
  unquote : string → string
}.

(** The fields of the processor that change during a crawl.  [processed]
    is not in the source: it lists, in order, the URLs handed to
    [_process_url_from_queue]. *)
Record Processor := mkProcessor {
  http_client : Client;
  url_queue : list (string * nat);
  visited_urls : gset string;
  found_documents : list ExtractedDocument;
  max_depth : nat;
  base_domain : option string;
  processed : list string
}.

Definition ignore_paths : list string :=
  [ "/careers"; "/contact"; "/contact-us"; "/about"; "/news"; "/press";
    "/media"; "/blog"; "/support"; "/help"; "/faq"; "/terms"; "/privacy";
    "/legal"; "/cookies"; "/sitemap"; "/search"; "/login"; "/register";
    "/account"; "/profile"; "/settings"; "/cart"; "/checkout"; "/shop";
    "/store"; "/products"; "/services"; "/solutions"; "/technology";
    "/innovation"; "/research"; "/development"; "/sustainability";
    "/environment"; "/social"; "/governance"; "/esg"; "/community";
    "/foundation"; "/charity"; "/donate"; "/volunteer"; "/events";
    "/webinar"; "/conference"; "/training"; "/education"; "/university";
    "/partnership"; "/alliance"; "/network"; "/membership"; "/awards";
    "/recognition"; "/testimonials"; "/case-study"; "/success-story";
    "/gallery"; "/photos"; "/videos"; "/podcast"; "/webcast"; "/live";
    "/stream"; "/broadcast"; "/tv"; "/radio"; "/magazine"; "/newsletter";
    "/subscription"; "/rss"; "/feed"; "/api/auth"; "/api/user"; "/api/login";
    "/developer"; "/docs";
    "/documentation"; "/guide"; "/tutorial"; "/manual"; "/handbook";
    "/whitepaper"; "/ebook"; "/brochure"; "/catalog"; "/portfolio";
    "/showcase"; "/demo"; "/trial"; "/free"; "/premium"; "/pro";
    "/enterprise"; "/business"; "/corporate"; "/institutional" ].

Definition social_domains : list string :=
  [ "facebook.com"; "fb.com"; "instagram.com"; "twitter.com"; "x.com";
    "linkedin.com"; "youtube.com"; "youtu.be"; "tiktok.com"; "snapchat.com";
    "pinterest.com"; "reddit.com"; "telegram.org"; "whatsapp.com";
    "wechat.com"; "weibo.com"; "vk.com"; "tumblr.com"; "flickr.com"; "vimeo.com" ].

Definition social_keywords : list string :=
  [ "facebook"; "instagram"; "twitter"; "linkedin"; "youtube";
    "follow us"; "like us"; "share"; "social media"; "connect with us" ].

(** [_should_skip_url(url)] *)
Definition _should_skip_url (url : string) : bool :=
  let url_lower := lower url in
  existsb (λ ignore_path, contains ignore_path url_lower) ignore_paths.

(** [_is_social_media_link(href, link_text)] *)
Definition _is_social_media_link (href link_text : string) : bool :=
  let href_lower := lower href in
  let text_lower := lower link_text in
  existsb (λ domain, contains domain href_lower) social_domains
  || existsb (λ keyword, contains keyword text_lower) social_keywords.

(** The class [\s], which is also what [str.strip()] removes: below
    U+0100 these are the characters U+0009 to U+000D, U+001C to U+0020,
    the next-line character U+0085 and the no-break space U+00A0. *)
Definition is_space (c : ascii) : bool :=
  let n := N_of_ascii c in
  (((9 <=? n) && (n <=? 13)) || ((28 <=? n) && (n <=? 32))
   || (n =? 133) || (n =? 160))%N.

Definition is_quote (c : ascii) : bool :=
  Ascii.eqb c "034" || Ascii.eqb c "039".

(** [filename\*?=] tried at the head of [s], case-insensitively; the
    result is what follows the match.  Below U+0100 the only characters
    that [re.IGNORECASE] lets the letters of [filename] match are their
    own two cases. *)
Definition match_filename_eq (s : string) : option string :=
  if startswith "filename" (lower s)
  then
    let rest := slice_from 8 s in
    let rest := if startswith "*=" rest then slice_from 1 rest else rest in
    if startswith "=" rest then Some (slice_from 1 rest) else None
  else None.

(** [filename\*?=["\']?([^"\';\s]+)] tried at the head of [s]: group 1. *)
Definition match_pattern1 (s : string) : option string :=
  match match_filename_eq s with
  | Some rest =>
      let rest := match rest with
                  | String c rest' => if is_quote c then rest' else rest
                  | EmptyString => rest
                  end in
      match span (λ c, negb (is_quote c || Ascii.eqb c ";" || is_space c)) rest with
      | EmptyString => None
      | group => Some group
      end
  | None => None
  end.

(** [filename\*?=([^;\s]+)] tried at the head of [s]: group 1. *)
Definition match_pattern2 (s : string) : option string :=
  match match_filename_eq s with
  | Some rest =>
      match span (λ c, negb (Ascii.eqb c ";" || is_space c)) rest with
      | EmptyString => None
      | group => Some group
      end
  | None => None
  end.

(** [re.search(pattern, s)]: the first position where the pattern matches. *)
Fixpoint re_search (match_here : string → option string) (s : string) : option string :=
  match match_here s with
  | Some group => Some group
  | None => match s with
            | EmptyString => None
            | String _ s' => re_search match_here s'
            end
  end.

(** [s.lstrip(chars)], [s.rstrip(chars)], [s.strip(chars)] for a class. *)
Fixpoint lstrip (strip : ascii → bool) (s : string) : string :=
  match s with
  | EmptyString => EmptyString
  | String c s' => if strip c then lstrip strip s' else s
  end.

Fixpoint rstrip (strip : ascii → bool) (s : string) : string :=
  match s with
  | EmptyString => EmptyString
  | String c s' =>
      match rstrip strip s' with
      | EmptyString => if strip c then EmptyString else String c EmptyString
      | kept => String c kept
      end
  end.

Definition strip (chars : ascii → bool) (s : string) : string :=
  rstrip chars (lstrip chars s).

(** [_extract_filename_from_disposition(disposition)] *)
Definition _extract_filename_from_disposition (disposition : string) : option string :=
  let finish (group : string) := strip is_quote (strip is_space group) in
  match re_search match_pattern1 disposition with
  | Some group => Some (finish group)
  | None =>
      match re_search match_pattern2 disposition with
      | Some group => Some (finish group)
      | None => None
      end
  end.

(** [l[-1]] of a list of strings that [split] returned. *)
Definition last_piece (pieces : list string) : string :=
  default EmptyString (last pieces).

(** [re.compile(r'\.pdf$', re.IGNORECASE).search(href)], and the same
    for [.xlsx]: [$] also matches before a final newline. *)
Definition href_has_extension (ext : string) (href : string) : bool :=
  endswith ext (lower href)
  || endswith (ext +:+ String "010" EmptyString) (lower href).

(** The body of [_extract_base_domain] once [urlparse] has given the
    netloc. *)
Definition base_domain_of_netloc (netloc : string) : string :=
  let domain := lower netloc in
  let domain := if has_char ":" domain
                then default EmptyString (head (split ":" domain))
                else domain in
  let parts := split "." domain in
  if decide (2 <= length parts)%nat
  then join "." (drop (length parts - 2) parts)
  else domain.

Section WithEnvironment.
Variable env : Environment.

(** [_extract_filename_from_url(url)]; the outer [None] is an exception
    of [urlparse]. *)
Definition _extract_filename_from_url (url : string) : option (option string) :=
  match urlparse_path env url with
  | None => None
  | Some parsed_path =>
      let path := unquote env parsed_path in
      let filename := last_piece (split "/" path) in
      if has_char "." filename && (3 <? String.length filename)%nat
      then Some (Some filename)
      else Some None
  end.

(** [_extract_base_domain(url)]; [None] is an exception of [urlparse]. *)
Definition _extract_base_domain (url : string) : option string :=
  base_domain_of_netloc <$> urlparse_netloc env url.

(** [_is_same_domain(url)] *)
Definition _is_same_domain (base_domain : option string) (url : string) : bool :=
  if negb (truthy base_domain) then true
  else
    match _extract_base_domain url with
    | Some url_domain => bool_decide (Some url_domain = base_domain)
    | None => false
    end.

(** *** Stateful code: state passing with exceptions

    A computation takes the processor and returns the processor it
    leaves behind together with its result; [None] means it raised.
    What was changed before the exception stays changed. *)
Definition Crawl (A : Type) : Type := Processor → Processor * option A.

#[local] Instance Crawl_ret : MRet Crawl := λ A x p, (p, Some x).
#[local] Instance Crawl_bind : MBind Crawl := λ A B f m p,
  match m p with
  | (p', Some x) => f x p'
  | (p', None) => (p', None)
  end.

Definition raise {A} : Crawl A := λ p, (p, None).

Definition lift {A} (o : option A) : Crawl A :=
  match o with
  | Some x => mret x
  | None => raise
  end.

Definition get_state : Crawl Processor := λ p, (p, Some p).

Definition modify (f : Processor → Processor) : Crawl unit := λ p, (f p, Some tt).

(** [try: m except Exception: pass] *)
Definition try_except (m : Crawl unit) : Processor → Processor := λ p, (m p).1.

Fixpoint for_each {A} (body : A → Crawl unit) (l : list A) : Crawl unit :=
  match l with
  | [] => mret tt
  | x :: l' => body x ;; for_each body l'
  end.

Definition set_client (c : Client) (p : Processor) : Processor :=
  mkProcessor c (url_queue p) (visited_urls p) (found_documents p)
              (max_depth p) (base_domain p) (processed p).

Definition append_document (doc : ExtractedDocument) (p : Processor) : Processor :=
  mkProcessor (http_client p) (url_queue p) (visited_urls p)
              (found_documents p ++ [doc])
              (max_depth p) (base_domain p) (processed p).

Definition enqueue (item : string * nat) (p : Processor) : Processor :=
  mkProcessor (http_client p) (url_queue p ++ [item]) (visited_urls p)
              (found_documents p)
              (max_depth p) (base_domain p) (processed p).

(** [self.http_client.make_request(url)]; the result [None] is the
    falsy response. *)
Definition request (url : string) : Crawl (option Response) := λ p,
  match make_request (net env) url (http_client p) with
  | (Resp response, c) => (set_client c p, Some (Some response))
  | (NoResponse, c) => (set_client c p, Some None)
  | (Raised, c) => (set_client c p, None)
  end.

(** One round of the loop over [Content-Disposition] and
    [Content-Description] in [_check_headers_for_documents]. *)
Definition check_header (url header_value : string) : Crawl unit :=
  if truthy (Some header_value) then
    match _extract_filename_from_disposition header_value with
    | Some filename =>
        if truthy (Some filename)
           && _is_annual_report None None (Some filename) None
        then
          let year := _extract_year_from_filename filename in
          modify (append_document (mkDoc url filename EmptyString year))
        else mret tt
    | None => mret tt
    end
  else mret tt.

(** The [try] block of [_check_headers_for_documents(url)]. *)
Definition check_headers_body (url : string) : Crawl unit :=
  response ← request url;
  match response with
  | None => mret tt
  | Some response =>
      for_each (check_header url)
               [content_disposition response; content_description response];;
      let content_type := lower (content_type response) in
      if contains "pdf" content_type || contains "excel" content_type
         || contains "spreadsheet" content_type
      then
        from_url ← lift (_extract_filename_from_url url);
        let filename := match from_url with
                        | Some filename => filename
                        | None => last_piece (split "/" url)
                        end in
        if _is_annual_report None (Some url) (Some filename) None
        then
          let year := or_year (_extract_year_from_filename filename)
                              (_extract_year_from_text url) in
          modify (append_document (mkDoc url filename EmptyString year))
        else mret tt
      else mret tt
  end.

(** [_check_headers_for_documents(url)] *)
Definition _check_headers_for_documents (url : string) : Processor → Processor :=
  try_except (check_headers_body url).

(** [_process_document_link(link, base_url, file_type)] *)
Definition _process_document_link (link : Link) (base_url file_type : string)
    : Crawl (option ExtractedDocument) :=
  if negb (truthy (link_href link)) then mret None
  else
    full_url ← lift (urljoin env base_url (default EmptyString (link_href link)));
    p ← get_state;
    if existsb (λ doc, String.eqb (models.url doc) full_url) (found_documents p)
    then mret None
    else
      let year := _extract_year_from_link link full_url in
      if _is_quarter_report (Some link) (Some full_url) then mret None
      else if _is_annual_report None (Some full_url) None (Some link)
      then
        let title := if truthy (Some (link_text link)) then link_text link
                     else default EmptyString (link_title link) in
        let title := if endswith (lower file_type) (lower title)
                     then slice_to (String.length title - String.length file_type) title
                     else title in
        mret (Some (mkDoc full_url title EmptyString year))
      else mret None.

Definition process_links (links : list Link) (base_url file_type : string)
    : Crawl unit :=
  for_each (λ link,
              doc ← _process_document_link link base_url file_type;
              match doc with
              | Some doc => modify (append_document doc)
              | None => mret tt
              end)
           links.

Definition has_href_extension (ext : string) (link : Link) : bool :=
  match link_href link with
  | Some href => href_has_extension ext href
  | None => false
  end.

(** [_find_direct_documents(base_url, soup)] *)
Definition _find_direct_documents (base_url : string) (soup : list Link)
    : Crawl unit :=
  let pdf_links := filter (λ link, has_href_extension ".pdf" link = true) soup in
  let xlsx_links := filter (λ link, has_href_extension ".xlsx" link = true) soup in
  process_links pdf_links base_url "PDF";;
  process_links xlsx_links base_url "XLSX".

(** The body of the loop of [_find_and_queue_links]. *)
Definition queue_link (base_url : string) (next_depth : nat) (link : Link)
    : Crawl unit :=
  let href := default EmptyString (link_href link) in
  let link_text := link_text link in
  if negb (truthy (Some href)) || negb (truthy (Some link_text)) then mret tt
  else if existsb (λ scheme, startswith scheme (lower href))
                  ["mailto:"; "tel:"; "javascript:"; "#"]
  then mret tt
  else if _is_social_media_link href link_text then mret tt
  else
    link_url ← lift (urljoin env base_url href);
    p ← get_state;
    if negb (_is_same_domain (base_domain p) link_url) then mret tt
    else if _should_skip_url link_url then mret tt
    else if bool_decide (link_url ∈ visited_urls p) then mret tt
    else if existsb (λ item, String.eqb item.1 link_url) (url_queue p) then mret tt
    else modify (enqueue (link_url, next_depth)).

(** [_find_and_queue_links(base_url, soup, current_depth)] *)
Definition _find_and_queue_links (base_url : string) (soup : list Link)
    (current_depth : nat) : Crawl unit :=
  let all_links := filter (λ link, is_Some (link_href link)) soup in
  let next_depth := S current_depth in
  for_each (queue_link base_url next_depth) all_links.

(** [_process_url_from_queue(url, current_depth)] *)
Definition _process_url_from_queue (url : string) (current_depth : nat)
    : Processor → Processor :=
  try_except (
    response ← request url;
    match response with
    | None => mret tt
    | Some response =>
        let soup := anchors response in
        modify (_check_headers_for_documents url);;
        _find_direct_documents url soup;;
        p ← get_state;
        if decide (current_depth < max_depth p)%nat
        then _find_and_queue_links url soup current_depth
        else mret tt
    end).

(** One round of [while self.url_queue: ...]; [None] when the queue is
    empty and the loop ends. *)
Definition crawl_step (p : Processor) : option Processor :=
  match url_queue p with
  | [] => None
  | (current_url, current_depth) :: rest =>
      let p := mkProcessor (http_client p) rest (visited_urls p)
                           (found_documents p) (max_depth p) (base_domain p)
                           (processed p) in
      if decide (current_url ∈ visited_urls p) then Some p
      else
        let p := mkProcessor (http_client p) (url_queue p) (visited_urls p)
                             (found_documents p) (max_depth p) (base_domain p)
                             (processed p ++ [current_url]) in
        let p := _process_url_from_queue current_url current_depth p in
        Some (mkProcessor (http_client p) (url_queue p)
                          ({[current_url]} ∪ visited_urls p)
                          (found_documents p) (max_depth p) (base_domain p)
                          (processed p))
  end.

(** The state after at most [n] rounds of the loop. *)
Fixpoint crawl_rounds (n : nat) (p : Processor) : Processor :=
  match n with
  | O => p
  | S n' => match crawl_step p with
            | Some p' => crawl_rounds n' p'
            | None => p
            end
  end.

(** The loop, run to its end; [None] when [fuel] rounds do not empty
    the queue. *)
Fixpoint crawl_loop (fuel : nat) (p : Processor) : option Processor :=
  match crawl_step p with
  | None => Some p
  | Some p' => match fuel with
               | O => None
               | S fuel' => crawl_loop fuel' p'
               end
  end.

(** The start of [find_annual_reports(reports_url)]: the three
    [clear()] calls, the base domain and the first queue entry.  [None]
    is an exception of [_extract_base_domain]. *)
Definition start_crawl (reports_url : string) (p : Processor) : option Processor :=
  match _extract_base_domain reports_url with
  | None => None
  | Some domain =>
      Some (mkProcessor (http_client p) [(reports_url, 0%nat)] ∅ []
                        (max_depth p) (Some domain) [])
  end.

(** [find_annual_reports(reports_url)]: the documents returned; the
    outer [None] means that [fuel] rounds were not enough. *)
Definition find_annual_reports (fuel : nat) (reports_url : string) (p : Processor)
    : option (list ExtractedDocument) :=
  match start_crawl reports_url p with
  | None => Some []
  | Some p0 => found_documents <$> crawl_loop fuel p0
  end.

End WithEnvironment.

(** [HTMLPageProcessor()] around a given client. *)
Definition new_processor (c : Client) : Processor :=
  mkProcessor c [] ∅ [] 2 None [].

End HTMLPageProcessor.

(** ** [processors/search_reports.py] *)

Module AnnualReportSearcher.
Import Str.


(** [doc.year and self.min_year <= doc.year < current_year] *)
Definition in_year_boundary (min_year current_year : Z)
    (doc : ExtractedDocument) : bool :=
  match truthy_int (models.year doc) with
  | Some year => (min_year <=? year) && (year <? current_year)
  | None => false
  end.

(** [_filter_documents_by_year(documents)] *)
Definition _filter_documents_by_year (min_year current_year : Z)
    (documents : list ExtractedDocument) : list ExtractedDocument :=
  filter (λ doc, in_year_boundary min_year current_year doc = true) documents.

(** [search_company_reports(company)], given the documents that
    [find_annual_reports] returned. *)
Definition search_company_reports (min_year current_year : Z)
    (all_documents : list ExtractedDocument) : list ExtractedDocument :=
  _filter_documents_by_year min_year current_year all_documents.

(** The body of the loop of [search_all_companies]: the selection stored
    for one company. *)
Definition company_selection (ticker : string)
    (reports : list ExtractedDocument) : ReportsRanker.Selection :=
  match reports with
  | [] => ReportsRanker.mkSelection [] []
  | _ => ReportsRanker.process_company_reports ticker reports
  end.

(** Discovery output to selection, for one company. *)
Definition select_for_company (min_year current_year : Z) (ticker : string)
    (all_documents : list ExtractedDocument) : ReportsRanker.Selection :=
  company_selection ticker
    (search_company_reports min_year current_year all_documents).

End AnnualReportSearcher.

(** ** Specification-side notions *)

Module Spec.
Import Str Classifier.

(** The year that the pattern [20\d{2}] reads at offset [i] of [text]. *)
Definition year_at (text : string) (i : nat) : option Z :=
  int <$> match_20dd (slice_from i text).

(** The offsets of the matches that a left-to-right scan without
    overlaps reports from offset [from] on: each match is the first one
    at or after the end of the previous one. *)
Inductive scan_offsets (text : string) : nat → list nat → Prop :=
| scan_end from :
    (∀ j, (from ≤ j)%nat → year_at text j = None) →
    scan_offsets text from []
| scan_match from i rest :
    (from ≤ i)%nat →
    is_Some (year_at text i) →
    (∀ j, (from ≤ j < i)%nat → year_at text j = None) →
    scan_offsets text (i + 4) rest →
    scan_offsets text from (i :: rest).

(** A quarterly marker occurs, whatever the case, in [s]. *)
Definition has_quarterly_marker (s : string) : Prop :=
  ∃ keyword, keyword ∈ _get_quarterly_keywords ∧ contains keyword (lower s) = true.

(** A quarterly marker occurs in the link text, in the URL (the one
    given, else the link's [href]) or in the file name. *)
Definition marker_in_inputs (url filename : option string) (link : option Link)
    : Prop :=
  (∃ l, link = Some l ∧ has_quarterly_marker (link_text l))
  ∨ (∃ u, url = Some u ∧ has_quarterly_marker u)
  ∨ (∃ l h, link = Some l ∧ url = None ∧ link_href l = Some h
            ∧ has_quarterly_marker h)
  ∨ (∃ f, filename = Some f ∧ has_quarterly_marker f).

(** The registrable domain of a host, in the words of the
    specification: its last two dot-separated labels. *)
Definition registrable_domain (host : string) : string :=
  let labels := split "." host in
  if decide (2 <= length labels)%nat
  then join "." (drop (length labels - 2) labels)
  else host.

(** A netloc of the shape [host] or [host:port]: no user information and
    no bracketed address. *)
Definition plain_authority (netloc : string) : Prop :=
  has_char "@" netloc = false ∧ has_char "[" netloc = false.

(** The parts of the score. *)
Definition file_type_bonus (url : string) : Z :=
  if endswith ".xlsx" url then 200
  else if endswith ".pdf" url then 100
  else 0.

Definition priority_bonus (title url : string) : Z :=
  ReportsRanker.priority_loop ReportsRanker.priority_keywords 0 title url 0.

Definition indicator_bonus (title : string) : Z :=
  (if contains "form" title && contains "20" title then 50 else 0)
  + (if contains "annual" title then 30 else 0)
  + (if contains "consolidated" title then 20 else 0)
  + (if contains "financial" title then 15 else 0)
  + (if contains "statements" title then 10 else 0)
  + (if contains "transparency" title || contains "disclosure" title then -25 else 0).

Definition quarterly_penalty (title url : string) : Z :=
  ReportsRanker.quarterly_loop ReportsRanker.quarterly_keywords title url 0.

(** Every keyword the scorer looks for in a title, "quarterly" and
    "quarter" apart. *)
Definition other_title_keywords : list string :=
  ReportsRanker.priority_keywords
  ++ [ "form"; "20"; "annual"; "consolidated"; "financial"; "statements";
       "transparency"; "disclosure"; "q1"; "q2"; "q3"; "q4" ].

(** Two lower-cased titles answer every other keyword test alike. *)
Definition same_other_signals (title1 title2 : string) : Prop :=
  Forall (λ keyword, contains keyword title1 = contains keyword title2)
         other_title_keywords.

(** The candidates of one year, in discovery order. *)
Definition candidates_of_year (year : Z) (reports : list ExtractedDocument)
    : list ExtractedDocument :=
  filter (λ report, truthy_int (models.year report) = Some year) reports.

(** A candidate with its score. *)
Definition scored (report : ExtractedDocument) : Z * ExtractedDocument :=
  (ReportsRanker._calculate_report_score report, report).

(** Descending by score. *)
Definition score_desc (a b : Z * ExtractedDocument) : Prop := b.1 ≤ a.1.

(** [l'] keeps, among the entries of any one score, the order they have
    in [l]. *)
Definition keeps_order_of_ties (l l' : list (Z * ExtractedDocument)) : Prop :=
  ∀ v : Z, filter (λ x, x.1 = v) l' = filter (λ x, x.1 = v) l.

(** The selection entry of a year that has candidates: the head of the
    year's ranking and the next two. *)
Definition entry_of (reports : list ExtractedDocument) (year : Z)
    : ReportsRanker.YearSelection :=
  let ranked := ReportsRanker._rank_reports_for_year (candidates_of_year year reports) in
  ReportsRanker.mkYearSelection year
    (snd <$> take 1 ranked) (snd <$> take 2 (drop 1 ranked)).

End Spec.

(** ** A model of [urllib.parse] for the scenarios

    Modelled on CPython's [urlsplit], [urlparse], [unquote] and [urljoin]
    for URLs of the shape [scheme://netloc/path;params?query#fragment]
    without square brackets in the netloc and without escapes from [%80]
    on: a bracketed host is further checked to be an IP address, and such
    escapes are decoded as UTF-8, neither of which is modelled.  The
    general results below hold for every environment; this one fixes the
    URLs of the examples, none of which has a bracket or an escape. *)

Module urllib.
Import Str.

(** [_WHATWG_C0_CONTROL_OR_SPACE] *)
Definition is_c0_control_or_space (c : ascii) : bool := (N_of_ascii c <=? 32)%N.

(** [_UNSAFE_URL_BYTES_TO_REMOVE]: tab, carriage return and newline. *)
Definition is_unsafe (c : ascii) : bool :=
  let n := N_of_ascii c in ((n =? 9) || (n =? 13) || (n =? 10))%N.

(** [s.replace(b, "")] for every [b] of a class. *)
Fixpoint remove (unwanted : ascii → bool) (s : string) : string :=
  match s with
  | EmptyString => EmptyString
  | String c s' => if unwanted c then remove unwanted s' else String c (remove unwanted s')
  end.

(** The opening of [urlsplit]: leading control characters and blanks are
    stripped, then tabs and line ends are removed throughout. *)
Definition sanitize (url : string) : string :=
  remove is_unsafe (HTMLPageProcessor.lstrip is_c0_control_or_space url).

Definition is_alpha (c : ascii) : bool :=
  let n := N_of_ascii c in
  (((65 <=? n) && (n <=? 90)) || ((97 <=? n) && (n <=? 122)))%N.

(** [scheme_chars] *)
Definition is_scheme_char (c : ascii) : bool :=
  is_alpha c || is_digit c || Ascii.eqb c "+" || Ascii.eqb c "-" || Ascii.eqb c ".".

(** The characters before the first [:] of [s] and what follows it, when
    those characters are all scheme characters. *)
Fixpoint scheme_prefix (s : string) : option (string * string) :=
  match s with
  | EmptyString => None
  | String c s' =>
      if Ascii.eqb c ":" then Some (EmptyString, s')
      else if is_scheme_char c
      then match scheme_prefix s' with
           | Some (scheme, rest) => Some (String c scheme, rest)
           | None => None
           end
      else None
  end.

(** The first step of [urlsplit]: the scheme, lower-cased, and the rest. *)
Definition split_scheme (url : string) : string * string :=
  match url with
  | EmptyString => (EmptyString, EmptyString)
  | String c _ =>
      if is_alpha c
      then match scheme_prefix url with
           | Some (scheme, rest) => (lower scheme, rest)
           | None => (EmptyString, url)
           end
      else (EmptyString, url)
  end.

Definition is_netloc_char (c : ascii) : bool :=
  negb (Ascii.eqb c "/" || Ascii.eqb c "?" || Ascii.eqb c "#").

(** [_splitnetloc(url, 2)] after the test [url[:2] == '//']. *)
Definition split_netloc (rest : string) : string * string :=
  if startswith "//" rest
  then (span is_netloc_char (slice_from 2 rest),
        after_span is_netloc_char (slice_from 2 rest))
  else (EmptyString, rest).

(** [ValueError("Invalid IPv6 URL")] *)
Definition bad_brackets (netloc : string) : bool :=
  xorb (has_char "[" netloc) (has_char "]" netloc).

(** [urlparse(url).netloc] *)
Definition netloc (url : string) : option string :=
  let url := sanitize url in
  let netloc := (split_netloc (split_scheme url).2).1 in
  if bad_brackets netloc then None else Some netloc.

(** [scheme in uses_params] *)
Definition uses_params : list string :=
  [ ""; "ftp"; "hdl"; "prospero"; "http"; "imap"; "https"; "shttp"; "rtsp";
    "rtspu"; "sip"; "sips"; "mms"; "sftp"; "tel" ].

(** The path part of [_splitparams]: the last segment is cut at its first [;]. *)
Fixpoint cut_params (segments : list string) : list string :=
  match segments with
  | [] => []
  | [segment] => [span (λ c, negb (Ascii.eqb c ";")) segment]
  | segment :: rest => segment :: cut_params rest
  end.

(** [urlparse(url).path] *)
Definition path (url : string) : option string :=
  let url := sanitize url in
  let scheme := (split_scheme url).1 in
  let netloc := (split_netloc (split_scheme url).2).1 in
  let rest := (split_netloc (split_scheme url).2).2 in
  if bad_brackets netloc then None
  else
    let rest := span (λ c, negb (Ascii.eqb c "#")) rest in
    let rest := span (λ c, negb (Ascii.eqb c "?")) rest in
    if existsb (String.eqb scheme) uses_params && has_char ";" rest
    then Some (join "/" (cut_params (split "/" rest)))
    else Some rest.

Definition is_hex (c : ascii) : bool :=
  let n := N_of_ascii c in
  (((48 <=? n) && (n <=? 57)) || ((65 <=? n) && (n <=? 70))
   || ((97 <=? n) && (n <=? 102)))%N.

Definition hex_val (c : ascii) : N :=
  let n := N_of_ascii c in
  (if n <=? 57 then n - 48 else if n <=? 70 then n - 55 else n - 87)%N.

(** [unquote(s)] for escapes up to [%7F]: every [%hh] becomes the
    character of that code; [skip] counts the characters of an escape
    still to be passed over. *)
Fixpoint unquote_from (skip : nat) (s : string) : string :=
  match s with
  | EmptyString => EmptyString
  | String c s' =>
      match skip with
      | S k => unquote_from k s'
      | O =>
          match s' with
          | String h1 (String h2 _) =>
              if Ascii.eqb c "%" && is_hex h1 && is_hex h2
              then String (ascii_of_N (16 * hex_val h1 + hex_val h2))
                          (unquote_from 2 s')
              else String c (unquote_from 0 s')
          | _ => String c (unquote_from 0 s')
          end
      end
  end.

Definition unquote (s : string) : string := unquote_from 0 s.

(** [urljoin(base, href)] for an [href] that is an absolute URL in normal
    form: the [href] itself.  The scenarios have no other links. *)
Definition urljoin (base href : string) : option string := Some href.

(** The environment of a scenario: the given network and this library. *)
Definition environment (net : nat → string → HTTPClient.Outcome)
    : HTMLPageProcessor.Environment :=
  HTMLPageProcessor.mkEnv net urljoin netloc path unquote.

(** [urlparse(url).hostname] of a netloc: what follows the last [@], up to
    the first [:], lower-cased; for a bracketed host, what is between the
    brackets. *)
Fixpoint after_last_at (netloc : string) : string :=
  match netloc with
  | EmptyString => EmptyString
  | String c rest =>
      if has_char "@" rest then after_last_at rest
      else if Ascii.eqb c "@" then rest
      else netloc
  end.

Definition hostname (netloc : string) : string :=
  let hostinfo := after_last_at netloc in
  if has_char "[" hostinfo
  then lower (span (λ c, negb (Ascii.eqb c "]"))
                   (slice_from 1 (after_span (λ c, negb (Ascii.eqb c "[")) hostinfo)))
  else lower (span (λ c, negb (Ascii.eqb c ":")) hostinfo).

End urllib.

(** ** Scenarios *)

Module Scenario.
Import HTTPClient HTMLPageProcessor.

Definition html (links : list Link) : Outcome :=
  Returned (mkResponse "" "" "text/html; charset=utf-8" links).

Definition pdf (disposition : string) : Outcome :=
  Returned (mkResponse disposition "" "application/pdf" []).

Definition fresh : Processor := new_processor (mkClient ∅ 0 []).

(** A crawl from a fresh processor, run for at most [fuel] rounds after
    the first. *)
Definition crawl (net : nat → string → Outcome) (seed : string) (fuel : nat)
    : option Processor :=
  start_crawl (urllib.environment net) seed fresh
  ≫= crawl_loop (urllib.environment net) fuel.

(** A page without links. *)
Definition lonely_net (n : nat) (url : string) : Outcome :=
  if String.eqb url "https://a.example.com/investors" then html []
  else RequestFailure.

(** A page that links to a PDF of the same site. *)
Definition report_url : string := "https://a.example.com/ir/Annual_Report_2022.pdf".

Definition report_net (n : nat) (url : string) : Outcome :=
  if String.eqb url "https://a.example.com/investors"
  then html [mkLink (Some report_url) "Annual Report 2022" None]
  else if String.eqb url report_url then pdf ""
  else RequestFailure.

(** A PDF served with its file name in [Content-Disposition]. *)
Definition attachment_net (n : nat) (url : string) : Outcome :=
  if String.eqb url report_url
  then pdf "attachment; filename=Annual_Report_2022.pdf"
  else RequestFailure.

(** A page with links to another host of the company, to a foreign site,
    and to a foreign site behind user information that looks like the
    company's domain. *)
Definition seed_url : string := "https://a.example.com/x".
Definition sister_url : string := "https://investors.example.com/y".
Definition foreign_url : string := "https://evil.com/landing".
Definition disguised_url : string := "https://example.com:x@evil.com/y".

Definition domains_net (n : nat) (url : string) : Outcome :=
  if String.eqb url seed_url
  then html [mkLink (Some sister_url) "Investor relations" None;
             mkLink (Some foreign_url) "Partner" None;
             mkLink (Some disguised_url) "Financial calendar" None]
  else html [].

(** The queue once the seed page has been processed. *)
Definition queue_after_seed (net : nat → string → Outcome) (seed : string)
    : list (string * nat) :=
  default [] (url_queue
                <$> (start_crawl (urllib.environment net) seed fresh
                     ≫= crawl_step (urllib.environment net))).

End Scenario.

(** ** Notions for reasoning about the crawl *)

Module CrawlLogic.
Import HTTPClient HTMLPageProcessor.

(** An event caused by a request for [url]. *)
Definition about (url : string) (e : Event) : Prop :=
  e = Fetch url ∨ e = Get url ∨ ∃ delay, e = Sleep delay.

(** [p'] comes from [p] without any use of the client: the queue and the
    documents have grown at the end, the queue only by entries that pass
    the same-domain check and satisfy [ok], and nothing else has changed. *)
Definition quiet (env : Environment) (ok : string * nat → Prop)
    (p p' : Processor) : Prop :=
  http_client p' = http_client p
  ∧ visited_urls p' = visited_urls p
  ∧ processed p' = processed p
  ∧ max_depth p' = max_depth p
  ∧ base_domain p' = base_domain p
  ∧ (∃ new, url_queue p' = url_queue p ++ new
            ∧ Forall (λ item, _is_same_domain env (base_domain p) item.1 = true
                              ∧ ok item) new)
  ∧ (∃ docs, found_documents p' = found_documents p ++ docs).

(** How far a queue entry is from the depth bound. *)
Definition height (max_depth : nat) (item : string * nat) : nat :=
  (max_depth - item.2)%nat.

(** The loop started in [p] comes to its end. *)
Definition finishes (env : Environment) (p : Processor) : Prop :=
  ∃ fuel, is_Some (crawl_loop env fuel p).

(** A URL the crawl may touch: the seed, or one that passes the
    same-domain check. *)
Definition in_scope (env : Environment) (seed : string) (domain : option string)
    (u : string) : Prop :=
  u = seed ∨ _is_same_domain env domain u = true.

(** What holds of every state of a crawl that started at [seed] with the
    log [log0]: no URL was processed twice, the processed URLs are the
    visited ones, the events since the start concern processed URLs only
    with at most two fetches and six GETs each, and the queue and the
    processed URLs are in scope. *)
Record crawl_inv (env : Environment) (seed : string) (log0 : list Event)
    (p : Processor) : Prop := mkInv {
  inv_nodup : NoDup (processed p);
  inv_visited : ∀ u, u ∈ visited_urls p ↔ u ∈ processed p;
  inv_log : ∃ events,
      log (http_client p) = log0 ++ events
      ∧ (∀ u, (fetches u events ≤ 2)%nat ∧ (gets u events ≤ 6)%nat)
      ∧ (∀ e, e ∈ events → ∃ u, u ∈ processed p ∧ about u e);
  inv_queue : ∀ item, item ∈ url_queue p →
                      in_scope env seed (base_domain p) item.1;
  inv_processed : ∀ u, u ∈ processed p → in_scope env seed (base_domain p) u
}.

End CrawlLogic.

(** ** More of the same files *)

(** *** A Python [dict] with string keys

    The keys are kept in insertion order, and assigning to a key that is
    there keeps its place. *)

Module Dict.

Definition dict (V : Type) : Type := list (string * V).

(** [d[k] = v] *)
Fixpoint set {V} (k : string) (v : V) (d : dict V) : dict V :=
  match d with
  | [] => [(k, v)]
  | (k', v') :: d' =>
      if String.eqb k' k then (k, v) :: d' else (k', v') :: set k v d'
  end.

(** [d.get(k)] *)
Fixpoint get {V} (k : string) (d : dict V) : option V :=
  match d with
  | [] => None
  | (k', v') :: d' => if String.eqb k' k then Some v' else get k d'
  end.

(** [list(d.keys())] *)
Definition keys {V} (d : dict V) : list string := d.*1.

End Dict.

(** *** [pkg/reports_ranker.py]: [create_selection_summary] *)

Module SelectionSummary.
Import ReportsRanker.

(** [{"title": report.title, "url": report.url}] *)
Record ReportRef := mkReportRef {
  ref_title : string;
  ref_url : string
}.

(** [{"year": ..., "best": [...], "secondary": [...]}] *)
Record YearData := mkYearData {
  yd_year : Z;
  yd_best : list ReportRef;
  yd_secondary : list ReportRef
}.

Record CompanyData := mkCompanyData {
  cd_ticker : string;
  cd_years_covered : list Z;
  cd_total_best_reports : Z;
  cd_total_secondary_reports : Z;
  cd_reports : list YearData
}.

Record DiscoveryInfo := mkDiscoveryInfo {
  total_companies : Z;
  total_best_reports : Z;
  total_secondary_reports : Z;
  description : string
}.

Record Summary := mkSummary {
  discovery_info : DiscoveryInfo;
  companies : Dict.dict CompanyData
}.

(** [sum(len(year_data['best']) for year_data in reports)] *)
Definition total_best (reports : list YearSelection) : Z :=
  foldl (λ acc year_data, acc + Z.of_nat (length (best year_data))) 0 reports.

(** [sum(len(year_data['secondary']) for year_data in reports)] *)
Definition total_secondary (reports : list YearSelection) : Z :=
  foldl (λ acc year_data, acc + Z.of_nat (length (secondary year_data))) 0 reports.

Definition report_ref (report : ExtractedDocument) : ReportRef :=
  mkReportRef (models.title report) (models.url report).

(** The entry appended to [company_data["reports"]] for one year. *)
Definition year_data_of (year_data : YearSelection) : YearData :=
  mkYearData (ys_year year_data)
             (report_ref <$> best year_data)
             (report_ref <$> secondary year_data).

(** [company_data] at the end of a round of the loop. *)
Definition company_data_of (ticker : string) (selection : Selection) : CompanyData :=
  mkCompanyData ticker (years_covered selection)
                (total_best (reports selection))
                (total_secondary (reports selection))
                (foldl (λ acc year_data, acc ++ [year_data_of year_data])
                       [] (reports selection)).

(** One round of [for ticker, selection in all_selections.items()]. *)
Definition summary_step (summary : Summary) (item : string * Selection) : Summary :=
  let ticker := item.1 in
  let selection := item.2 in
  let info := discovery_info summary in
  mkSummary
    (mkDiscoveryInfo (total_companies info)
                     (total_best_reports info + total_best (reports selection))
                     (total_secondary_reports info
                      + total_secondary (reports selection))
                     (description info))
    (Dict.set ticker (company_data_of ticker selection) (companies summary)).

(** [create_selection_summary(all_selections)] *)
Definition create_selection_summary (all_selections : Dict.dict Selection) : Summary :=
  foldl summary_step
        (mkSummary
           (mkDiscoveryInfo
              (Z.of_nat (length all_selections)) 0 0
              "Best and secondary annual report selection prioritizing FORM 20F, organized by year")
           [])
        all_selections.

End SelectionSummary.

(** *** [processors/process_reports.py]: the reader of the summary *)

Module ReportProcessor.
Import SelectionSummary.

(** [{'year': ..., 'url': ..., 'title': ...}] *)
Record BestReport := mkBestReport {
  br_year : Z;
  br_url : string;
  br_title : string
}.

(** [find_best_reports_for_company(ticker, company_data)] *)
Definition find_best_reports_for_company (ticker : string)
    (company_data : CompanyData) : list BestReport :=
  match cd_reports company_data with
  | [] => []
  | reports =>
      foldl (λ best_reports year_data,
               match yd_best year_data with
               | best_report :: _ =>
                   best_reports
                   ++ [mkBestReport (yd_year year_data)
                                    (ref_url best_report) (ref_title best_report)]
               | [] => best_reports
               end)
            [] reports
  end.

End ReportProcessor.

(** *** [processors/search_reports.py]: all companies, on one processor *)

Module SearchRun.
Import HTTPClient HTMLPageProcessor AnnualReportSearcher.

(** [Company] of [pkg/models.py] *)
Record Company := mkCompany {
  name : string;
  ticker : string;
  reports_link : string
}.

(** The processor after the three [clear()] calls that open
    [find_annual_reports]. *)
Definition cleared (p : Processor) : Processor :=
  mkProcessor (http_client p) [] ∅ [] (max_depth p) (base_domain p) [].

(** [find_annual_reports(reports_url)] with the processor it leaves
    behind; [None] when [fuel] rounds were not enough. *)
Definition find_annual_reports_run (env : Environment) (fuel : nat)
    (reports_url : string) (p : Processor)
    : option (list ExtractedDocument * Processor) :=
  match start_crawl env reports_url p with
  | None => Some ([], cleared p)
  | Some p0 => (λ p', (found_documents p', p')) <$> crawl_loop env fuel p0
  end.

(** [search_company_reports(company)], run on the processor. *)
Definition search_company_reports_run (env : Environment) (fuel : nat)
    (min_year current_year : Z) (company : Company) (p : Processor)
    : option (list ExtractedDocument * Processor) :=
  match find_annual_reports_run env fuel (reports_link company) p with
  | Some (all_documents, p') =>
      Some (_filter_documents_by_year min_year current_year all_documents, p')
  | None => None
  end.

(** The loop of [search_all_companies(companies)], from the selections
    gathered so far. *)
Fixpoint search_loop (env : Environment) (fuel : nat) (min_year current_year : Z)
    (companies : list Company) (all_selections : Dict.dict ReportsRanker.Selection)
    (p : Processor) : option (Dict.dict ReportsRanker.Selection * Processor) :=
  match companies with
  | [] => Some (all_selections, p)
  | company :: rest =>
      match search_company_reports_run env fuel min_year current_year company p with
      | Some (reports, p') =>
          search_loop env fuel min_year current_year rest
            (Dict.set (ticker company) (company_selection (ticker company) reports)
                      all_selections)
            p'
      | None => None
      end
  end.

(** [search_all_companies(companies)] *)
Definition search_all_companies (env : Environment) (fuel : nat)
    (min_year current_year : Z) (companies : list Company) (p : Processor)
    : option (Dict.dict ReportsRanker.Selection * Processor) :=
  search_loop env fuel min_year current_year companies [] p.

End SearchRun.

(** *** Notions for the further properties *)

Module ClientLogic.
Import HTTPClient.

(** The client after the calls [make_request(url)] for the [urls], in
    this order. *)
Definition requests (net : nat → string → Outcome) (urls : list string)
    (c : Client) : Client :=
  foldl (λ c url, (make_request net url c).2) c urls.

End ClientLogic.

Module SearchLogic.

(** Selections as the loop over the companies gathers them: under
    pairwise distinct tickers, each made of some list of documents by
    the year filter and the ranker. *)
Definition made_for (min_year current_year : Z)
    (selections : Dict.dict ReportsRanker.Selection) : Prop :=
  NoDup (Dict.keys selections)
  ∧ ∀ t selection,
      Dict.get t selections = Some selection →
      ∃ all_documents,
        selection = AnnualReportSearcher.select_for_company min_year current_year t
                      all_documents.

End SearchLogic.

Module StrLogic.

(** Every character of [s] satisfies [keep]. *)
Fixpoint all_chars (keep : ascii → bool) (s : string) : bool :=
  match s with
  | EmptyString => true
  | String c s' => keep c && all_chars keep s'
  end.

(** [s[0]] and [s[-1]], when there are such. *)
Definition first_char (s : string) : option ascii :=
  match s with
  | EmptyString => None
  | String c _ => Some c
  end.

Fixpoint last_char (s : string) : option ascii :=
  match s with
  | EmptyString => None
  | String c EmptyString => Some c
  | String _ s' => last_char s'
  end.

(** The class [[^;\s]]. *)
Definition is_value_char (c : ascii) : bool :=
  negb (Ascii.eqb c ";" || HTMLPageProcessor.is_space c).

End StrLogic.

Module CrawlShape.
Import Str Classifier HTTPClient HTMLPageProcessor.

(** A document as the crawler records it: no content, and a year, if
    any, that the pattern [20dd] can give. *)
Definition recorded (doc : ExtractedDocument) : Prop :=
  models.content doc = EmptyString
  ∧ match models.year doc with
    | Some y => 2000 ≤ y ≤ 2099
    | None => True
    end.

(** A document as the header check records it for the page at [url]:
    under the URL of the page itself, without content, with a title that
    ends in .pdf or .xlsx and has no quarterly keyword, in any case. *)
Definition header_document (url : string) (doc : ExtractedDocument) : Prop :=
  models.url doc = url
  ∧ models.content doc = EmptyString
  ∧ endswith ".pdf" (lower (models.title doc))
    || endswith ".xlsx" (lower (models.title doc)) = true
  ∧ ∀ keyword, keyword ∈ _get_quarterly_keywords →
               contains keyword (lower (models.title doc)) = false.

(** A URL that has passed the checks of the link loop: it is not
    ignored for its path and it is of the base domain. *)
Definition passed (env : Environment) (p : Processor) (item : string * nat)
    : Prop :=
  _should_skip_url item.1 = false
  ∧ _is_same_domain env (base_domain p) item.1 = true.

(** An entry that the link loop has queued: it has passed the checks
    and its depth is within the bound. *)
Definition followed (env : Environment) (p : Processor) (item : string * nat)
    : Prop :=
  (1 ≤ item.2 ≤ max_depth p)%nat ∧ passed env p item.

(** [p'] comes from [p] by steps of the crawler that leave the visited
    set, the depth bound and the base domain alone: the queue has grown
    at its end, without repeating a URL, by entries that have passed the
    checks and satisfy [ok], and the documents by recorded ones. *)
Record grows (env : Environment) (ok : string * nat → Prop)
    (p p' : Processor) : Prop := mkGrows {
  grows_visited : visited_urls p' = visited_urls p;
  grows_processed : processed p' = processed p;
  grows_max_depth : max_depth p' = max_depth p;
  grows_base_domain : base_domain p' = base_domain p;
  grows_queue : ∃ new, url_queue p' = url_queue p ++ new
                       ∧ Forall (λ item, passed env p item ∧ ok item) new;
  grows_nodup : NoDup (url_queue p).*1 → NoDup (url_queue p').*1;
  grows_documents : ∃ docs, found_documents p' = found_documents p ++ docs
                            ∧ Forall recorded docs
}.

(** What holds of every state of a crawl that started at [seed]. *)
Record shape (env : Environment) (seed : string) (p : Processor) : Prop := mkShape {
  shape_queue : ∀ item, item ∈ url_queue p →
                        item = (seed, 0%nat) ∨ followed env p item;
  shape_nodup : NoDup (url_queue p).*1;
  shape_processed : ∀ u, u ∈ processed p →
                         u = seed ∨ _should_skip_url u = false;
  shape_documents : Forall recorded (found_documents p)
}.

End CrawlShape.

(** ** Year extraction on Unicode text

    The pattern [20\d{2}] and [int] are the two places of the classifier
    where Python looks at the character database: [\d] matches the decimal
    digits of every script, and [int] reads them by their digit values.
    Here a text is the list of its code points, whatever they are, and the
    database is the function [decimal]: it gives a decimal digit its
    value and [None] to every other code point. *)

Module Unicode.

(** What is used of the character database: a digit value is one of 0
    to 9, and below U+0100 the decimal digits are the characters 0 to 9
    with their values. *)
Definition database (decimal : N → option Z) : Prop :=
  (∀ c v, decimal c = Some v → 0 ≤ v ≤ 9)
  ∧ (∀ c, (c < 256)%N →
          decimal c = if ((48 <=? c) && (c <=? 57))%N
                      then Some (Z.of_N c - 48) else None).

(** The class [\d]. *)
Definition is_decimal (decimal : N → option Z) (c : N) : bool :=
  match decimal c with
  | Some _ => true
  | None => false
  end.

(** [int(s)] on a string of decimal digits. *)
Definition int (decimal : N → option Z) (s : list N) : Z :=
  fold_left (λ acc c, 10 * acc + default 0 (decimal c)) s 0.

(** The regular expression [20\d{2}] tried at the head of [text]. *)
Definition match_20dd (decimal : N → option Z) (text : list N)
    : option (list N) :=
  match text with
  | c1 :: c2 :: d1 :: d2 :: _ =>
      if ((c1 =? 50) && (c2 =? 48))%N && is_decimal decimal d1 && is_decimal decimal d2
      then Some [c1; c2; d1; d2]
      else None
  | _ => None
  end.

(** [re.findall(r'(20\d{2})', text)]: matches are taken leftmost first and
    do not overlap; [skip] counts the characters of the previous match
    that are still to be passed over. *)
Fixpoint findall_20dd_from (decimal : N → option Z) (skip : nat) (text : list N)
    : list (list N) :=
  match text with
  | [] => []
  | _ :: rest =>
      match skip with
      | S k => findall_20dd_from decimal k rest
      | O =>
          match match_20dd decimal text with
          | Some m => m :: findall_20dd_from decimal 3 rest
          | None => findall_20dd_from decimal 0 rest
          end
      end
  end.

Definition findall_20dd (decimal : N → option Z) (text : list N)
    : list (list N) :=
  findall_20dd_from decimal 0 text.

(** [_extract_year_from_text(text)] *)
Definition _extract_year_from_text (decimal : N → option Z) (text : list N)
    : option Z :=
  let year_matches := findall_20dd decimal text in
  match year_matches with
  | [] => None
  | _ =>
      let valid_years :=
        map (int decimal)
            (filter (λ y, 2000 <= int decimal y <= 2099) year_matches) in
      match valid_years with
      | [] => None
      | first :: others =>
          if decide (1 < length valid_years)%nat
          then last valid_years
          else Some first
      end
  end.

(** The year that the pattern [20\d{2}] reads at offset [i] of [text]: the
    token of four digits there, when it lies between 2000 and 2099. *)
Definition year_at (decimal : N → option Z) (text : list N) (i : nat)
    : option Z :=
  int decimal <$> match_20dd decimal (drop i text).

(** The offsets of the matches that a left-to-right scan without
    overlaps reports from offset [from] on: each match is the first one
    at or after the end of the previous one. *)
Inductive scan_offsets (decimal : N → option Z) (text : list N)
    : nat → list nat → Prop :=
| scan_end from :
    (∀ j, (from ≤ j)%nat → year_at decimal text j = None) →
    scan_offsets decimal text from []
| scan_match from i rest :
    (from ≤ i)%nat →
    is_Some (year_at decimal text i) →
    (∀ j, (from ≤ j < i)%nat → year_at decimal text j = None) →
    scan_offsets decimal text (i + 4) rest →
    scan_offsets decimal text from (i :: rest).

(** The code points of a text below U+0100. *)
Definition codes (s : string) : list N :=
  N_of_ascii <$> list_ascii_of_string s.

(** A database with the digits 0 to 9 and the Arabic-Indic digits U+0660
    to U+0669. *)
Definition two_scripts (c : N) : option Z :=
  if ((48 <=? c) && (c <=? 57))%N then Some (Z.of_N c - 48)
  else if ((1632 <=? c) && (c <=? 1641))%N then Some (Z.of_N c - 1632)
  else None.

End Unicode.

(** * Properties *)

(** ** Strings *)

#[local] Arguments String.append !_ _ / : simpl nomatch.

Section StrFacts.
Import Str.

Lemma startswith_app (p s : string) : startswith p (p +:+ s) = true.
Proof.
  induction p as [|a p IH]; simpl; [done|].
  by rewrite Ascii.eqb_refl.
Qed.

Lemma startswith_spec (p s : string) :
  startswith p s = true ↔ ∃ t, s = p +:+ t.
Proof.
  split.
  - revert s. induction p as [|a p IH]; intros s H.
    + by exists s.
    + destruct s as [|b s]; simpl in H; [done|].
      destruct (Ascii.eqb_spec a b) as [->|]; [|done].
      destruct (IH _ H) as [t ->]. by exists t.
  - intros [t ->]. apply startswith_app.
Qed.

Lemma startswith_contains (kw s : string) :
  startswith kw s = true → contains kw s = true.
Proof. intros H. destruct s; simpl; by rewrite H. Qed.

Lemma contains_spec (kw s : string) :
  contains kw s = true ↔ ∃ a b, s = a +:+ kw +:+ b.
Proof.
  split.
  - induction s as [|c s IH]; simpl; intros H.
    + rewrite orb_false_r in H. apply startswith_spec in H as [t ->].
      by exists EmptyString, t.
    + apply orb_true_iff in H as [H|H].
      * apply startswith_spec in H as [t ->]. by exists EmptyString, t.
      * destruct (IH H) as (a & b & ->). by exists (String c a), b.
  - intros (a & b & ->). induction a as [|c a IH]; simpl.
    + apply startswith_contains, startswith_app.
    + rewrite IH. apply orb_true_r.
Qed.

Lemma lower_app (a b : string) : lower (a +:+ b) = lower a +:+ lower b.
Proof. induction a as [|c a IH]; simpl; [done|]. by rewrite IH. Qed.

End StrFacts.

Section StrSlices.
Import Str.

Lemma length_app_s (a b : string) :
  String.length (a +:+ b) = (String.length a + String.length b)%nat.
Proof. induction a as [|c a IH]; simpl; [done|]. by rewrite IH. Qed.

Lemma app_assoc_s (a b c : string) : (a +:+ b) +:+ c = a +:+ b +:+ c.
Proof. induction a as [|x a IH]; simpl; [done|]. by rewrite IH. Qed.

Lemma app_nil_r_s (a : string) : a +:+ EmptyString = a.
Proof. induction a as [|x a IH]; simpl; [done|]. by rewrite IH. Qed.

Lemma slice_from_app (pre t : string) :
  slice_from (String.length pre) (pre +:+ t) = t.
Proof. induction pre as [|c pre IH]; simpl; done. Qed.

Lemma slice_from_ge (n : nat) (s : string) :
  (String.length s ≤ n)%nat → slice_from n s = EmptyString.
Proof.
  revert s. induction n as [|n IH]; intros [|c s]; simpl; intros H;
    try done; try lia.
  apply IH. lia.
Qed.

End StrSlices.

(** ** Year extraction *)

#[local] Arguments Classifier.match_20dd : simpl never.

Section YearFacts.
Import Str Classifier Spec.

Lemma digit_val_range (c : ascii) : is_digit c = true → 0 ≤ digit_val c ≤ 9.
Proof.
  unfold is_digit, digit_val. intros H.
  apply andb_true_iff in H as [H1 H2].
  apply N.leb_le in H1, H2. lia.
Qed.

Lemma match_20dd_range (text m : string) :
  match_20dd text = Some m → 2000 ≤ int m ≤ 2099.
Proof.
  unfold match_20dd.
  destruct text as [|c1 [|c2 [|d1 [|d2 rest]]]]; simpl; try done.
  destruct (Ascii.eqb_spec c1 "2") as [->|]; [|done].
  destruct (Ascii.eqb_spec c2 "0") as [->|]; [|done]. simpl.
  destruct (is_digit d1) eqn:E1; [|done].
  destruct (is_digit d2) eqn:E2; [|done]. simpl.
  intros [= <-]. apply digit_val_range in E1, E2.
  unfold int. simpl. change (digit_val "2") with 2.
  change (digit_val "0") with 0. lia.
Qed.

Lemma findall_20dd_from_range (skip : nat) (text : string) :
  Forall (λ m, 2000 ≤ int m ≤ 2099) (findall_20dd_from skip text).
Proof.
  revert skip. induction text as [|c rest IH]; intros skip; simpl; [constructor|].
  destruct skip as [|k]; [|apply IH].
  destruct (match_20dd (String c rest)) eqn:E; [|apply IH].
  constructor; [by eapply match_20dd_range | apply IH].
Qed.

Lemma year_at_past_end (text : string) (j : nat) :
  (String.length text ≤ j)%nat → year_at text j = None.
Proof. intros H. unfold year_at. by rewrite slice_from_ge. Qed.

Lemma scan_offsets_extend (text : string) (i : nat) (offsets : list nat) :
  year_at text i = None →
  scan_offsets text (S i) offsets → scan_offsets text i offsets.
Proof.
  intros Hi Hs. inversion Hs as [from Hnone|from i0 rest Hle Hsome Hnone Hrest]; subst.
  - apply scan_end. intros j Hj.
    destruct (decide (j = i)) as [->|]; [done|]. apply Hnone. lia.
  - apply scan_match; [lia|done| |done].
    intros j Hj. destruct (decide (j = i)) as [->|]; [done|]. apply Hnone. lia.
Qed.

(** The scan of the source, started inside [whole], finds the matches
    of the specification. *)
Lemma findall_20dd_from_scan (text pre : string) (skip : nat) :
  ∃ offsets,
    scan_offsets (pre +:+ text) (String.length pre + skip) offsets
    ∧ year_at (pre +:+ text) <$> offsets
      = (Some ∘ int) <$> findall_20dd_from skip text.
Proof.
  revert pre skip. induction text as [|c rest IH]; intros pre skip.
  - exists []. split; [|done]. apply scan_end. intros j Hj.
    apply year_at_past_end. rewrite length_app_s. simpl. lia.
  - assert (Hwhole : pre +:+ String c rest
                     = (pre +:+ String c EmptyString) +:+ rest)
      by (by rewrite app_assoc_s).
    assert (Hlen : String.length (pre +:+ String c EmptyString)
                   = S (String.length pre))
      by (rewrite length_app_s; simpl; lia).
    destruct skip as [|k].
    + simpl findall_20dd_from.
      destruct (match_20dd (String c rest)) as [m|] eqn:E.
      * destruct (IH (pre +:+ String c EmptyString) 3%nat) as (offs & Hs & Hm).
        rewrite <- Hwhole, Hlen in Hs. rewrite <- Hwhole in Hm.
        assert (Hy : year_at (pre +:+ String c rest) (String.length pre)
                     = Some (int m))
          by (unfold year_at; by rewrite slice_from_app, E).
        exists (String.length pre :: offs). split.
        -- apply scan_match; [lia|by rewrite Hy|intros j Hj; lia|].
           replace (String.length pre + 4)%nat
             with (S (String.length pre) + 3)%nat by lia. done.
        -- rewrite !fmap_cons, Hy, Hm. done.
      * destruct (IH (pre +:+ String c EmptyString) 0%nat) as (offs & Hs & Hm).
        rewrite <- Hwhole, Hlen in Hs. rewrite <- Hwhole in Hm.
        exists offs. split; [|done].
        rewrite Nat.add_0_r in *. apply scan_offsets_extend; [|done].
        unfold year_at. by rewrite slice_from_app, E.
    + simpl findall_20dd_from.
      destruct (IH (pre +:+ String c EmptyString) k) as (offs & Hs & Hm).
      rewrite <- Hwhole, Hlen in Hs. rewrite <- Hwhole in Hm.
      exists offs. split; [|done].
      replace (String.length pre + S k)%nat
        with (S (String.length pre) + k)%nat by lia. done.
Qed.

Lemma extract_year_is_last (text : string) :
  _extract_year_from_text text = last (int <$> findall_20dd text).
Proof.
  unfold _extract_year_from_text, findall_20dd.
  pose proof (findall_20dd_from_range 0 text) as Hr.
  destruct (findall_20dd_from 0 text) as [|m ms] eqn:E; [done|].
  assert (Hf : filter (λ y, 2000 ≤ int y ≤ 2099) (m :: ms) = m :: ms).
  { clear E. induction Hr as [|x l Hx Hl IHl]; [done|].
    rewrite filter_cons_True by done. by rewrite IHl. }
  rewrite Hf. change (map int (m :: ms)) with (int m :: map int ms).
  case_decide as Hlen; [done|].
  destruct ms; [done|]. simpl in Hlen. lia.
Qed.

End YearFacts.

(** ** Year extraction on Unicode text *)

#[local] Arguments Unicode.match_20dd : simpl never.

Section UnicodeYearFacts.
Import Unicode.
Variable decimal : N → option Z.
Hypothesis Hdb : database decimal.

Lemma decimal_two : decimal 50 = Some 2.
Proof. by rewrite (proj2 Hdb 50%N). Qed.

Lemma decimal_zero : decimal 48 = Some 0.
Proof. by rewrite (proj2 Hdb 48%N). Qed.

Lemma unicode_match_range (text m : list N) :
  match_20dd decimal text = Some m → 2000 ≤ int decimal m ≤ 2099.
Proof.
  unfold match_20dd.
  destruct text as [|c1 [|c2 [|d1 [|d2 rest]]]]; try done.
  destruct (N.eqb_spec c1 50) as [->|]; [|done].
  destruct (N.eqb_spec c2 48) as [->|]; [|done]. cbn [andb].
  unfold is_decimal.
  destruct (decimal d1) as [v1|] eqn:E1; [|done].
  destruct (decimal d2) as [v2|] eqn:E2; [|done]. cbn [andb].
  intros [= <-]. apply (proj1 Hdb) in E1 as H1. apply (proj1 Hdb) in E2 as H2.
  unfold int. cbn [fold_left]. rewrite decimal_two, decimal_zero, E1, E2.
  cbn [default from_option id]. unfold id. lia.
Qed.

Lemma unicode_findall_range (skip : nat) (text : list N) :
  Forall (λ m, 2000 ≤ int decimal m ≤ 2099) (findall_20dd_from decimal skip text).
Proof.
  revert skip. induction text as [|c rest IH]; intros skip; simpl; [constructor|].
  destruct skip as [|k]; [|apply IH].
  destruct (match_20dd decimal (c :: rest)) eqn:E; [|apply IH].
  constructor; [by eapply unicode_match_range | apply IH].
Qed.

Lemma unicode_year_at_past_end (text : list N) (j : nat) :
  (length text ≤ j)%nat → year_at decimal text j = None.
Proof. intros H. unfold year_at. by rewrite drop_ge. Qed.

Lemma unicode_scan_extend (text : list N) (i : nat) (offsets : list nat) :
  year_at decimal text i = None →
  scan_offsets decimal text (S i) offsets → scan_offsets decimal text i offsets.
Proof.
  intros Hi Hs. inversion Hs as [from Hnone|from i0 rest Hle Hsome Hnone Hrest]; subst.
  - apply scan_end. intros j Hj.
    destruct (decide (j = i)) as [->|]; [done|]. apply Hnone. lia.
  - apply scan_match; [lia|done| |done].
    intros j Hj. destruct (decide (j = i)) as [->|]; [done|]. apply Hnone. lia.
Qed.

(** The scan of the source, started inside a text, finds the matches of
    the specification. *)
Lemma unicode_findall_scan (text pre : list N) (skip : nat) :
  ∃ offsets,
    scan_offsets decimal (pre ++ text) (length pre + skip) offsets
    ∧ year_at decimal (pre ++ text) <$> offsets
      = (Some ∘ int decimal) <$> findall_20dd_from decimal skip text.
Proof.
  revert pre skip. induction text as [|c rest IH]; intros pre skip.
  - exists []. split; [|done]. apply scan_end. intros j Hj.
    apply unicode_year_at_past_end. rewrite length_app. simpl. lia.
  - assert (Hwhole : pre ++ c :: rest = (pre ++ [c]) ++ rest)
      by (by rewrite <- app_assoc).
    assert (Hlen : length (pre ++ [c]) = S (length pre))
      by (rewrite length_app; simpl; lia).
    destruct skip as [|k].
    + simpl findall_20dd_from.
      destruct (match_20dd decimal (c :: rest)) as [m|] eqn:E.
      * destruct (IH (pre ++ [c]) 3%nat) as (offs & Hs & Hm).
        rewrite <- Hwhole, Hlen in Hs. rewrite <- Hwhole in Hm.
        assert (Hy : year_at decimal (pre ++ c :: rest) (length pre)
                     = Some (int decimal m))
          by (unfold year_at; by rewrite drop_app_length, E).
        exists (length pre :: offs). split.
        -- apply scan_match; [lia|by rewrite Hy|intros j Hj; lia|].
           replace (length pre + 4)%nat with (S (length pre) + 3)%nat by lia.
           done.
        -- rewrite !fmap_cons, Hy, Hm. done.
      * destruct (IH (pre ++ [c]) 0%nat) as (offs & Hs & Hm).
        rewrite <- Hwhole, Hlen in Hs. rewrite <- Hwhole in Hm.
        exists offs. split; [|done].
        rewrite Nat.add_0_r in *. apply unicode_scan_extend; [|done].
        unfold year_at. by rewrite drop_app_length, E.
    + simpl findall_20dd_from.
      destruct (IH (pre ++ [c]) k) as (offs & Hs & Hm).
      rewrite <- Hwhole, Hlen in Hs. rewrite <- Hwhole in Hm.
      exists offs. split; [|done].
      replace (length pre + S k)%nat with (S (length pre) + k)%nat by lia.
      done.
Qed.

Lemma unicode_year_is_last (text : list N) :
  _extract_year_from_text decimal text
  = last (int decimal <$> findall_20dd decimal text).
Proof.
  unfold _extract_year_from_text, findall_20dd.
  pose proof (unicode_findall_range 0 text) as Hr.
  destruct (findall_20dd_from decimal 0 text) as [|m ms] eqn:E; [done|].
  assert (Hf : filter (λ y, 2000 ≤ int decimal y ≤ 2099) (m :: ms) = m :: ms).
  { clear E. induction Hr as [|x l Hx Hl IHl]; [done|].
    rewrite filter_cons_True by done. by rewrite IHl. }
  rewrite Hf.
  change (map (int decimal) (m :: ms)) with (int decimal m :: map (int decimal) ms).
  case_decide as Hlen; [done|].
  destruct ms; [done|]. simpl in Hlen. lia.
Qed.

Lemma unicode_year_scan (text : list N) :
  ∃ offsets : list nat,
    scan_offsets decimal text 0 offsets
    ∧ year_at decimal text <$> offsets
      = (Some ∘ int decimal) <$> findall_20dd decimal text.
Proof.
  destruct (unicode_findall_scan text [] 0) as (offs & Hs & Hm).
  by exists offs.
Qed.

Lemma unicode_year_of_scan (text : list N) (offsets : list nat) :
  year_at decimal text <$> offsets
  = (Some ∘ int decimal) <$> findall_20dd decimal text →
  _extract_year_from_text decimal text = last offsets ≫= year_at decimal text.
Proof.
  intros Hm. rewrite unicode_year_is_last.
  transitivity (mjoin (last (year_at decimal text <$> offsets))).
  - rewrite Hm, list_fmap_compose, !fmap_last.
    by destruct (last (findall_20dd decimal text)).
  - rewrite fmap_last. by destruct (last offsets).
Qed.

(** On a text below U+0100 the two models read the same. *)
Lemma codes_is_decimal (c : ascii) :
  is_decimal decimal (N_of_ascii c) = Str.is_digit c.
Proof.
  unfold is_decimal, Str.is_digit.
  rewrite (proj2 Hdb (N_of_ascii c)) by apply N_ascii_bounded.
  by destruct ((48 <=? N_of_ascii c) && (N_of_ascii c <=? 57))%N.
Qed.

Lemma codes_match (s : string) :
  match_20dd decimal (codes s) = codes <$> Classifier.match_20dd s.
Proof.
  unfold match_20dd, Classifier.match_20dd, codes.
  destruct s as [|c1 [|c2 [|d1 [|d2 rest]]]]; try done.
  cbn [list_ascii_of_string fmap list_fmap].
  rewrite !codes_is_decimal.
  assert (H1 : (N_of_ascii c1 =? 50)%N = Ascii.eqb c1 "2").
  { destruct (Ascii.eqb_spec c1 "2") as [->|Hn]; [done|].
    apply N.eqb_neq. intros E. apply Hn.
    by rewrite <- (ascii_N_embedding c1), E. }
  assert (H2 : (N_of_ascii c2 =? 48)%N = Ascii.eqb c2 "0").
  { destruct (Ascii.eqb_spec c2 "0") as [->|Hn]; [done|].
    apply N.eqb_neq. intros E. apply Hn.
    by rewrite <- (ascii_N_embedding c2), E. }
  rewrite H1, H2.
  by destruct (Ascii.eqb c1 "2" && Ascii.eqb c2 "0" && Str.is_digit d1
               && Str.is_digit d2).
Qed.

Lemma codes_int (text m : string) :
  Classifier.match_20dd text = Some m → int decimal (codes m) = Str.int m.
Proof.
  unfold Classifier.match_20dd.
  destruct text as [|c1 [|c2 [|d1 [|d2 rest]]]]; try done.
  destruct (Ascii.eqb_spec c1 "2") as [->|]; [|done].
  destruct (Ascii.eqb_spec c2 "0") as [->|]; [|done]. cbn [andb].
  destruct (Str.is_digit d1) eqn:E1; [|done].
  destruct (Str.is_digit d2) eqn:E2; [|done]. cbn [andb].
  intros [= <-]. unfold int, Str.int, codes.
  cbn [list_ascii_of_string fmap list_fmap fold_left].
  assert (Hd : ∀ d, Str.is_digit d = true →
                    default 0 (decimal (N_of_ascii d)) = Str.digit_val d).
  { intros d Ed. rewrite (proj2 Hdb (N_of_ascii d)) by apply N_ascii_bounded.
    unfold Str.is_digit in Ed. by rewrite Ed. }
  by rewrite !Hd.
Qed.

Lemma codes_findall (skip : nat) (s : string) :
  int decimal <$> findall_20dd_from decimal skip (codes s)
  = Str.int <$> Classifier.findall_20dd_from skip s.
Proof.
  revert skip. induction s as [|c rest IH]; intros skip; [done|].
  change (codes (String c rest)) with (N_of_ascii c :: codes rest).
  cbn [findall_20dd_from Classifier.findall_20dd_from].
  destruct skip as [|k]; [|apply IH].
  change (N_of_ascii c :: codes rest) with (codes (String c rest)).
  rewrite codes_match.
  destruct (Classifier.match_20dd (String c rest)) as [m|] eqn:E;
    cbn [fmap option_fmap option_map]; [|apply IH].
  rewrite !fmap_cons, IH. f_equal. by eapply codes_int.
Qed.

Lemma codes_extract_year (s : string) :
  Classifier._extract_year_from_text s
  = _extract_year_from_text decimal (codes s).
Proof.
  rewrite extract_year_is_last, unicode_year_is_last.
  unfold findall_20dd, Classifier.findall_20dd. by rewrite codes_findall.
Qed.

End UnicodeYearFacts.

(** C3.  On every text, whatever its characters, year extraction reads
    every match of the pattern [20dd], a token of four decimal digits with
    a value between 2000 and 2099, that a left-to-right scan without
    overlaps reports, and returns the year of the last reported match; it
    returns none exactly when the pattern matches nowhere in the text.
    On a text below U+0100 this is the year extraction of the classifier
    above.  The three examples of the specification evaluate as stated. *)
Theorem extract_year_last_match :
  (∀ decimal : N → option Z,
     Unicode.database decimal →
     (∀ text : list N,
        (∃ offsets : list nat,
           Unicode.scan_offsets decimal text 0 offsets
           ∧ Unicode._extract_year_from_text decimal text
             = last offsets ≫= Unicode.year_at decimal text)
        ∧ match Unicode._extract_year_from_text decimal text with
          | Some y => 2000 ≤ y ≤ 2099
          | None => ∀ i, Unicode.year_at decimal text i = None
          end
        ∧ ((∀ i, Unicode.year_at decimal text i = None) →
           Unicode._extract_year_from_text decimal text = None))
     ∧ (∀ s : string,
          Classifier._extract_year_from_text s
          = Unicode._extract_year_from_text decimal (Unicode.codes s))
     ∧ Unicode._extract_year_from_text decimal
         (Unicode.codes "20190326-Annual_Report_2018.pdf") = Some 2018
     ∧ Unicode._extract_year_from_text decimal (Unicode.codes "Report.pdf") = None
     ∧ Unicode._extract_year_from_text decimal (Unicode.codes "AR_2021.xlsx")
       = Some 2021)
  ∧ Classifier._extract_year_from_text "20190326-Annual_Report_2018.pdf" = Some 2018
  ∧ Classifier._extract_year_from_text "Report.pdf" = None
  ∧ Classifier._extract_year_from_text "AR_2021.xlsx" = Some 2021.
Proof.
  split; [|done].
  intros decimal Hdb.
  split; [|split; [by apply codes_extract_year|]].
  - intros text.
    destruct (unicode_year_scan decimal text) as (offs & Hs & Hm).
    pose proof (unicode_year_of_scan decimal Hdb text offs Hm) as Hlast.
    split; [by exists offs|]. split.
    + rewrite (unicode_year_is_last decimal Hdb).
      destruct (last (Unicode.int decimal <$> Unicode.findall_20dd decimal text))
        as [y|] eqn:E.
      * apply last_Some_elem_of, list_elem_of_fmap in E as (m & -> & Hin).
        pose proof (unicode_findall_range decimal Hdb 0 text) as Hr.
        rewrite Forall_forall in Hr. by apply Hr.
      * apply last_None in E. apply fmap_nil_inv in E. rewrite E in Hm.
        apply fmap_nil_inv in Hm as ->.
        inversion Hs as [from Hnone|]; subst. intros i. apply Hnone. lia.
    + intros Hnone. rewrite Hlast.
      inversion Hs as [|from i rest _ Hsome]; subst; [done|].
      rewrite Hnone in Hsome. by destruct Hsome.
  - rewrite <- !(codes_extract_year decimal Hdb). done.
Qed.

Lemma extract_year_last_match_witness :
  Unicode.database Unicode.two_scripts
  ∧ Unicode._extract_year_from_text Unicode.two_scripts
      [50; 48; 49; 56; 45; 50; 48; 1633; 1641]%N = Some 2019
  ∧ match Unicode._extract_year_from_text Unicode.two_scripts
            [50; 48; 49; 56; 45; 50; 48; 1633; 1641]%N with
    | Some y => 2000 ≤ y ≤ 2099
    | None => ∀ i, Unicode.year_at Unicode.two_scripts
                     [50; 48; 49; 56; 45; 50; 48; 1633; 1641]%N i = None
    end.
Proof.
  assert (H : Unicode.database Unicode.two_scripts).
  { split.
    - intros c v. unfold Unicode.two_scripts.
      destruct (48 <=? c)%N eqn:E1, (c <=? 57)%N eqn:E2; simpl;
        try (intros [= <-]; apply N.leb_le in E1, E2; lia);
        destruct (1632 <=? c)%N eqn:E3, (c <=? 1641)%N eqn:E4; simpl;
        try done; intros [= <-]; apply N.leb_le in E3, E4; lia.
    - intros c Hc. unfold Unicode.two_scripts.
      destruct ((48 <=? c) && (c <=? 57))%N; [done|].
      destruct (1632 <=? c)%N eqn:E3; [|done].
      apply N.leb_le in E3. lia. }
  split; [exact H|]. split; [reflexivity|].
  exact (proj1 (proj2 (proj1 (proj1 extract_year_last_match Unicode.two_scripts H)
                         [50; 48; 49; 56; 45; 50; 48; 1633; 1641]%N))).
Defined.

(** ** Quarterly rejection *)

Section QuarterlyFacts.
Import Str Classifier Spec.

Lemma existsb_elem_of {A} (f : A → bool) (l : list A) :
  existsb f l = true ↔ ∃ x, x ∈ l ∧ f x = true.
Proof.
  rewrite existsb_exists. split; intros (x & Hx & Hf); exists x;
    (split; [by apply list_elem_of_In|done]).
Qed.

Lemma quarter_report_link (l : Link) (url : option string) :
  has_quarterly_marker (link_text l) → _is_quarter_report (Some l) url = true.
Proof.
  intros (kw & Hkw & Hc). unfold _is_quarter_report.
  apply existsb_elem_of. exists kw. split; [done|]. by rewrite Hc.
Qed.

Lemma quarter_report_url (link : option Link) (u : string) :
  has_quarterly_marker u → _is_quarter_report link (Some u) = true.
Proof.
  intros (kw & Hkw & Hc). unfold _is_quarter_report.
  apply existsb_elem_of. exists kw. split; [done|].
  simpl. rewrite Hc. apply orb_true_r.
Qed.

Lemma marker_nonempty (s : string) : has_quarterly_marker s → s ≠ EmptyString.
Proof.
  intros (kw & Hkw & Hc) ->. simpl in Hc. rewrite orb_false_r in Hc.
  unfold _get_quarterly_keywords in Hkw.
  repeat (apply elem_of_cons in Hkw as [->|Hkw]; [done|]).
  by apply elem_of_nil in Hkw.
Qed.

End QuarterlyFacts.



(** X23.  Whenever a quarterly or interim-period marker occurs, in any
    case, in the text of the link object, in the URL (the one given, else
    the [href] of the link object) or in the file name, the annual-report
    check answers false, whatever annual keywords are there too; a URL
    with both [annual] and [q3] is rejected. *)
Theorem quarterly_marker_rejects :
  (∀ (text url filename : option string) (link : option Link),
     Spec.marker_in_inputs url filename link →
     Classifier._is_annual_report text url filename link = false)
  ∧ Classifier._is_annual_report None
      (Some "https://a.example.com/ir/annual-report-q3-2023.pdf") None None = false
  ∧ Classifier._is_annual_report None
      (Some "https://a.example.com/ir/annual-report-2023.pdf") None None = true.
Proof.
  split; [|done].
  intros text url filename link H. unfold Classifier._is_annual_report.
  destruct H as [(l & -> & Hm)|[(u & -> & Hm)|[(l & h & -> & -> & Hh & Hm)|(f & -> & Hm)]]].
  - by rewrite quarter_report_link.
  - assert (Hq : Classifier._is_quarter_report link (Some u) = true)
      by by apply quarter_report_url.
    destruct link; by rewrite Hq.
  - rewrite Hh. simpl default. by rewrite quarter_report_url.
  - match goal with |- (if ?c then _ else _) = _ => destruct c end; [done|].
    assert (Ht : Str.truthy (Some f) = true).
    { pose proof (marker_nonempty _ Hm). by destruct f. }
    destruct Hm as (kw & Hkw & Hc).
    assert (He : existsb (λ keyword, Str.contains keyword (Str.lower_or_empty (Some f)))
                         Classifier._get_quarterly_keywords = true).
    { apply existsb_elem_of. by exists kw. }
    by rewrite Ht, He.
Qed.

Lemma quarterly_marker_rejects_witness :
  Classifier._is_annual_report (Some "Annual Report")
    (Some "https://a.example.com/Annual.pdf") (Some "Annual_H1.pdf") None = false.
Proof.
  apply (proj1 quarterly_marker_rejects).
  right; right; right. exists "Annual_H1.pdf". split; [reflexivity|].
  exists "h1". split; [|reflexivity].
  unfold Classifier._get_quarterly_keywords.
  do 4 apply list_elem_of_further. apply list_elem_of_here.
Defined.

(** ** The fetcher *)

(** C9, as the code has it.  When every attempt for a URL ends in a
    transient failure, [make_request] issues three GETs in all (the first
    try and two retries), sleeps 1 and then 2 time-units between them,
    marks the URL as problematic and returns nothing; a later request for
    that URL is answered without touching the network.  Whatever the
    network does, one call issues at most three GETs and its sleeps are an
    initial part of 1, 2. *)
Theorem make_request_three_attempts :
  (∀ (net : nat → string → HTTPClient.Outcome) (url : string) (c : HTTPClient.Client),
     url ∉ HTTPClient.problematic_urls c →
     (∀ k, (k < 3)%nat →
           net (HTTPClient.clock c + k)%nat url = HTTPClient.TransientFailure) →
     let c' := HTTPClient.mkClient
                 ({[url]} ∪ HTTPClient.problematic_urls c)
                 (HTTPClient.clock c + 3)
                 (HTTPClient.log c
                  ++ [HTTPClient.Fetch url;
                      HTTPClient.Get url; HTTPClient.Sleep 1;
                      HTTPClient.Get url; HTTPClient.Sleep 2;
                      HTTPClient.Get url]) in
     HTTPClient.make_request net url c = (HTTPClient.NoResponse, c')
     ∧ HTTPClient.make_request net url c' = (HTTPClient.NoResponse, c'))
  ∧ (∀ (net : nat → string → HTTPClient.Outcome) (url : string) (c : HTTPClient.Client),
       ∃ events,
         HTTPClient.log (HTTPClient.make_request net url c).2
         = HTTPClient.log c ++ events
         ∧ (length (HTTPClient.all_gets events) ≤ 3)%nat
         ∧ HTTPClient.sleeps events `prefix_of` [1; 2]).
Proof.
  split.
  - intros net url c Hfresh Htrans c'.
    pose proof (Htrans 0%nat ltac:(lia)) as H0.
    pose proof (Htrans 1%nat ltac:(lia)) as H1.
    pose proof (Htrans 2%nat ltac:(lia)) as H2.
    rewrite Nat.add_0_r in H0.
    replace (HTTPClient.clock c + 1)%nat with (S (HTTPClient.clock c)) in H1 by lia.
    replace (HTTPClient.clock c + 2)%nat with (S (S (HTTPClient.clock c))) in H2 by lia.
    split.
    + unfold HTTPClient.make_request. rewrite decide_False by done.
      simpl. rewrite H0. simpl. rewrite H1. simpl. rewrite H2. simpl.
      unfold HTTPClient.mark_problematic, c'. simpl.
      rewrite <- !app_assoc. simpl. do 2 f_equal. lia.
    + unfold HTTPClient.make_request.
      rewrite decide_True; [done|]. unfold c'. simpl. set_solver.
  - intros net url c. unfold HTTPClient.make_request.
    case_decide.
    { exists []. simpl. rewrite app_nil_r. split; [done|].
      split; [lia|]. apply prefix_nil. }
    simpl.
    destruct (net (HTTPClient.clock c) url); simpl;
      try (eexists; rewrite <- !app_assoc; split; [reflexivity|];
           simpl; split; [lia|apply prefix_nil]).
    destruct (net (S (HTTPClient.clock c)) url); simpl;
      try (eexists; rewrite <- !app_assoc; split; [reflexivity|];
           simpl; split; [lia|by exists [2]]).
    destruct (net (S (S (HTTPClient.clock c))) url); simpl;
      eexists; rewrite <- !app_assoc; (split; [reflexivity|]);
      simpl; (split; [lia|done]).
Qed.

Lemma make_request_three_attempts_witness :
  let net : nat → string → HTTPClient.Outcome := λ _ _, HTTPClient.TransientFailure in
  let url : string := "https://a.example.com/x" in
  HTTPClient.make_request net url (HTTPClient.mkClient ∅ 0 [])
  = (HTTPClient.NoResponse,
     HTTPClient.mkClient ({[url]} ∪ ∅) 3
       [HTTPClient.Fetch url;
        HTTPClient.Get url; HTTPClient.Sleep 1;
        HTTPClient.Get url; HTTPClient.Sleep 2;
        HTTPClient.Get url]).
Proof.
  intros net url.
  refine (proj1 (proj1 make_request_three_attempts net url
                   (HTTPClient.mkClient ∅ 0 []) _ _)).
  - simpl. apply not_elem_of_empty.
  - intros k Hk. reflexivity.
Defined.

(** C9 as stated fails: under transient failures only, the definitive
    failure comes after three GETs, that is after two retries, and the
    only delays are 1 and 2; there is no third retry and no delay of 4. *)
Lemma three_retries_counterexample :
  let net : nat → string → HTTPClient.Outcome := λ _ _, HTTPClient.TransientFailure in
  let url : string := "https://a.example.com/x" in
  let result := HTTPClient.make_request net url (HTTPClient.mkClient ∅ 0 []) in
  result.1 = HTTPClient.NoResponse
  ∧ HTTPClient.all_gets (HTTPClient.log result.2) = [url; url; url]
  ∧ HTTPClient.sleeps (HTTPClient.log result.2) = [1; 2]
  ∧ HTTPClient.sleeps (HTTPClient.log result.2) ≠ [1; 2; 4].
Proof. vm_compute. repeat split. discriminate. Qed.

(** ** Ranking *)

Section SortFacts.
Import ReportsRanker Spec.

Lemma insert_desc_perm x l : insert_desc x l ≡ₚ x :: l.
Proof.
  induction l as [|y l IH]; simpl; [done|].
  case_match; [|done]. rewrite IH. apply Permutation_swap.
Qed.

Lemma sort_desc_perm l : sort_desc l ≡ₚ l.
Proof.
  induction l as [|x l IH]; simpl; [done|].
  by rewrite insert_desc_perm, IH.
Qed.

Lemma insert_desc_sorted x l :
  StronglySorted score_desc l → StronglySorted score_desc (insert_desc x l).
Proof.
  induction 1 as [|y l Hl IH Hy]; simpl.
  - repeat constructor.
  - destruct (Z.ltb_spec (x.1) (y.1)) as [Hlt|Hge].
    + constructor; [done|].
      rewrite insert_desc_perm. constructor; [|done].
      unfold score_desc. lia.
    + constructor; [by constructor|].
      constructor; [done|].
      eapply Forall_impl; [exact Hy|]. unfold score_desc. simpl. intros; lia.
Qed.

Lemma sort_desc_sorted l : StronglySorted score_desc (sort_desc l).
Proof.
  induction l as [|x l IH]; simpl; [constructor|].
  by apply insert_desc_sorted.
Qed.

Lemma insert_desc_ties x l : keeps_order_of_ties (x :: l) (insert_desc x l).
Proof.
  intros v. induction l as [|y l IH]; simpl; [done|].
  destruct (Z.ltb_spec (x.1) (y.1)) as [Hlt|Hge]; [|done].
  rewrite (filter_cons _ y), IH, !(filter_cons _ x), !(filter_cons _ y).
  repeat case_decide; try done; lia.
Qed.

Lemma sort_desc_ties l : keeps_order_of_ties l (sort_desc l).
Proof.
  intros v. induction l as [|x l IH]; simpl; [done|].
  rewrite insert_desc_ties, !(filter_cons _ x), IH. done.
Qed.

(** A stable descending sort has one possible result. *)
Lemma stable_sort_unique l1 l2 :
  StronglySorted score_desc l1 → StronglySorted score_desc l2 →
  (∀ v : Z, filter (λ x, x.1 = v) l1 = filter (λ x, x.1 = v) l2) →
  l1 = l2.
Proof.
  intros H1. revert l2. induction H1 as [|x l1 Hs1 IH Hx]; intros l2 H2 Hf.
  - destruct l2 as [|y l2]; [done|].
    specialize (Hf (y.1)). rewrite filter_cons_True in Hf by done. done.
  - destruct H2 as [|y l2 Hs2 Hy].
    { specialize (Hf (x.1)). rewrite filter_cons_True in Hf by done. done. }
    assert (Hxy : x = y).
    { destruct (decide (x.1 = y.1)) as [E|N].
      - specialize (Hf (x.1)).
        rewrite filter_cons_True in Hf by done.
        rewrite filter_cons_True in Hf by done. congruence.
      - exfalso.
        assert (Hxin : x ∈ l2).
        { pose proof (Hf (x.1)) as Hfx.
          rewrite filter_cons_True in Hfx by done.
          rewrite filter_cons_False in Hfx by congruence.
          assert (Hin : x ∈ filter (λ z, z.1 = x.1) l2)
            by (rewrite <- Hfx; left).
          by apply list_elem_of_filter in Hin as [_ ?]. }
        assert (Hyin : y ∈ l1).
        { pose proof (Hf (y.1)) as Hfy.
          rewrite filter_cons_False in Hfy by done.
          rewrite filter_cons_True in Hfy by done.
          assert (Hin : y ∈ filter (λ z, z.1 = y.1) l1)
            by (rewrite Hfy; left).
          by apply list_elem_of_filter in Hin as [_ ?]. }
        rewrite Forall_forall in Hx, Hy.
        pose proof (Hx _ Hyin) as Ha. pose proof (Hy _ Hxin) as Hb.
        unfold score_desc in Ha, Hb. lia. }
    subst y. f_equal. apply IH; [done|].
    intros v. specialize (Hf v). rewrite !(filter_cons _ x) in Hf.
    case_decide; congruence.
Qed.

(** The head of the ranking is the first entry of maximal score. *)
Lemma sort_desc_head l x t :
  sort_desc l = x :: t →
  ∃ before after,
    l = before ++ x :: after
    ∧ Forall (λ b, b.1 < x.1) before
    ∧ Forall (λ b, b.1 ≤ x.1) after.
Proof.
  revert x t. induction l as [|a l IH]; intros x t; simpl; [done|].
  destruct (sort_desc l) as [|h t'] eqn:E.
  - simpl. intros [= <- <-].
    assert (l = []) as ->.
    { apply Permutation_nil. by rewrite <- (sort_desc_perm l), E. }
    exists [], []. repeat split; constructor.
  - destruct (IH h t' eq_refl) as (before & after & -> & Hb & Ha).
    simpl. destruct (Z.ltb_spec (a.1) (h.1)) as [Hlt|Hge]; intros [= <- <-].
    + exists (a :: before), after. split; [done|]. split; [|done].
      by constructor.
    + exists [], (before ++ h :: after). split; [done|]. split; [constructor|].
      apply Forall_app. split.
      * eapply Forall_impl; [exact Hb|]. simpl. intros; lia.
      * constructor; [done|].
        eapply Forall_impl; [exact Ha|]. simpl. intros; lia.
Qed.

End SortFacts.

Section RankerFacts.
Import ReportsRanker Spec.

Lemma rank_reports_for_year_eq year_reports :
  _rank_reports_for_year year_reports = sort_desc (scored <$> year_reports).
Proof. by destruct year_reports. Qed.

Lemma rank_reports_for_year_length year_reports :
  length (_rank_reports_for_year year_reports) = length year_reports.
Proof.
  rewrite rank_reports_for_year_eq, (Permutation_length (sort_desc_perm _)).
  apply length_fmap.
Qed.

Lemma candidates_of_year_cons y r rs :
  candidates_of_year y (r :: rs)
  = if decide (Str.truthy_int (models.year r) = Some y)
    then r :: candidates_of_year y rs else candidates_of_year y rs.
Proof. unfold candidates_of_year. by rewrite filter_cons. Qed.

(** The grouping loop: what a year maps to after the fold. *)
Lemma foldl_group_lookup reports (m : gmap Z (list ExtractedDocument)) y :
  foldl group_report m reports !! y
  = match m !! y, candidates_of_year y reports with
    | Some l0, l => Some (l0 ++ l)
    | None, [] => None
    | None, l => Some l
    end.
Proof.
  revert m. induction reports as [|r rs IH]; intros m.
  - simpl. destruct (m !! y); [by rewrite app_nil_r|done].
  - simpl foldl. rewrite IH, candidates_of_year_cons. unfold group_report.
    destruct (Str.truthy_int (models.year r)) as [y'|] eqn:E.
    + destruct (decide (y' = y)) as [->|N].
      * rewrite lookup_insert_eq, decide_True by done.
        destruct (m !! y); simpl; [by rewrite <- app_assoc|done].
      * rewrite lookup_insert_ne by done.
        rewrite decide_False by congruence. done.
    + rewrite decide_False by done. done.
Qed.

Lemma rank_reports_lookup ticker reports y :
  rank_reports_for_company ticker reports !! y
  = match candidates_of_year y reports with
    | [] => None
    | group => Some (_rank_reports_for_year group)
    end.
Proof.
  unfold rank_reports_for_company. destruct reports as [|r rs]; [done|].
  rewrite lookup_fmap, foldl_group_lookup, lookup_empty.
  by destruct (candidates_of_year y (r :: rs)).
Qed.

Lemma sorted_keys_elem_of (m : gmap Z (list (Z * ExtractedDocument))) y :
  y ∈ sorted_keys m ↔ is_Some (m !! y).
Proof.
  unfold sorted_keys. rewrite merge_sort_Permutation, elem_of_elements.
  apply elem_of_dom.
Qed.


Lemma sorted_lt_of_le_NoDup (l : list Z) :
  StronglySorted Z.le l → NoDup l → StronglySorted Z.lt l.
Proof.
  induction 1 as [|x l Hs IH Hx]; intros Hnd; [constructor|].
  apply NoDup_cons in Hnd as [Hnin Hnd].
  constructor; [by apply IH|].
  rewrite Forall_forall in Hx |- *. intros z Hz.
  specialize (Hx z Hz). assert (x ≠ z) by (intros ->; done). lia.
Qed.

Lemma sorted_keys_ascending (m : gmap Z (list (Z * ExtractedDocument))) :
  StronglySorted Z.lt (sorted_keys m).
Proof.
  apply sorted_lt_of_le_NoDup.
  - apply StronglySorted_merge_sort; apply _.
  - unfold sorted_keys. rewrite merge_sort_Permutation. apply NoDup_elements.
Qed.

Lemma select_year_nonempty year ranked :
  ranked ≠ [] →
  select_year year ranked
  = Some (mkYearSelection year (snd <$> take 1 ranked)
                               (snd <$> take 2 (drop 1 ranked))).
Proof.
  destruct ranked as [|[s1 a] [|[s2 b] [|[s3 c] rest]]]; [done|..]; intros _;
    unfold select_year; simpl; done.
Qed.

Lemma omap_all_Some {A B} (f : A → option B) (g : A → B) (l : list A) :
  (∀ x, x ∈ l → f x = Some (g x)) → omap f l = g <$> l.
Proof.
  induction l as [|x l IH]; intros H; [done|].
  simpl. rewrite (H x) by left. simpl. f_equal. apply IH.
  intros z Hz. apply H. by right.
Qed.

Lemma process_covered ticker reports y :
  y ∈ years_covered (process_company_reports ticker reports)
  ↔ candidates_of_year y reports ≠ [].
Proof.
  unfold process_company_reports, select_best_reports. simpl.
  rewrite sorted_keys_elem_of, rank_reports_lookup.
  destruct (candidates_of_year y reports); split; intros H; try done.
Qed.

Lemma process_reports_eq ticker reports :
  ReportsRanker.reports (process_company_reports ticker reports)
  = entry_of reports <$> years_covered (process_company_reports ticker reports).
Proof.
  unfold process_company_reports, select_best_reports. simpl.
  apply omap_all_Some. intros y Hy.
  apply sorted_keys_elem_of in Hy. rewrite rank_reports_lookup in Hy |- *.
  destruct (candidates_of_year y reports) as [|r rs] eqn:E; [by destruct Hy|].
  assert (Hne : _rank_reports_for_year (r :: rs) ≠ []).
  { intros Hnil. pose proof (rank_reports_for_year_length (r :: rs)) as Hlen.
    rewrite Hnil in Hlen. done. }
  simpl default. rewrite select_year_nonempty by exact Hne.
  unfold entry_of. by rewrite E.
Qed.

End RankerFacts.

Section SelectionFacts.
Import ReportsRanker Spec.

Lemma snd_scored (l : list ExtractedDocument) : (scored <$> l).*2 = l.
Proof. induction l as [|x l IH]; csimpl; [done|]. by rewrite IH. Qed.

Lemma snd_rank_perm group : (_rank_reports_for_year group).*2 ≡ₚ group.
Proof.
  rewrite rank_reports_for_year_eq, (sort_desc_perm (scored <$> group)).
  by rewrite snd_scored.
Qed.

Lemma take_1_2 {A} (l : list A) : take 1 l ++ take 2 (drop 1 l) = take 3 l.
Proof. by destruct l as [|a [|b [|c l]]]. Qed.

Lemma entry_docs reports y :
  best (entry_of reports y) ++ secondary (entry_of reports y)
  = (take 3 (_rank_reports_for_year (candidates_of_year y reports))).*2.
Proof. unfold entry_of. simpl. by rewrite <- fmap_app, take_1_2. Qed.

Lemma entry_docs_candidates reports y doc :
  doc ∈ best (entry_of reports y) ++ secondary (entry_of reports y) →
  doc ∈ candidates_of_year y reports.
Proof.
  rewrite entry_docs, fmap_take. intros H.
  apply (subseteq_take 3) in H. by rewrite snd_rank_perm in H.
Qed.

Lemma entry_docs_NoDup reports y :
  NoDup (candidates_of_year y reports) →
  NoDup (best (entry_of reports y) ++ secondary (entry_of reports y)).
Proof.
  intros Hnd. rewrite entry_docs, fmap_take.
  eapply sublist_NoDup; [|apply sublist_take].
  by rewrite snd_rank_perm.
Qed.

Lemma selection_is_entry ticker reports selection :
  selection ∈ ReportsRanker.reports (process_company_reports ticker reports) →
  selection = entry_of reports (ys_year selection)
  ∧ candidates_of_year (ys_year selection) reports ≠ [].
Proof.
  rewrite process_reports_eq. intros (y & -> & Hy)%list_elem_of_fmap.
  split; [done|]. by apply process_covered in Hy.
Qed.

Lemma single_year_ranking ticker (y : Z) (A B : ExtractedDocument) :
  Str.truthy_int (models.year A) = Some y →
  Str.truthy_int (models.year B) = Some y →
  rank_reports_for_company ticker [A; B]
  = {[ y := _rank_reports_for_year [A; B] ]}.
Proof.
  intros HA HB. apply map_eq. intros y'.
  rewrite rank_reports_lookup, !candidates_of_year_cons, HA, HB.
  unfold candidates_of_year. rewrite filter_nil.
  destruct (decide (y = y')) as [->|N].
  - rewrite lookup_singleton_eq, !decide_True by done. done.
  - rewrite lookup_singleton_ne by done.
    rewrite !decide_False by congruence. done.
Qed.

End SelectionFacts.

(** C5.  The ranking of a year is the stable descending sort of its scored
    candidates: a permutation, descending by score, with candidates of
    equal score in discovery order, and it is the only list with these
    properties.  Hence the best document of a year is the first discovered
    candidate of maximal score; two candidates [A], [B] of one year with
    equal scores, discovered in this order, give best [A] and secondary
    [B]. *)
Theorem ranking_is_stable :
  (∀ year_reports : list ExtractedDocument,
     let ranked := ReportsRanker._rank_reports_for_year year_reports in
     ranked ≡ₚ Spec.scored <$> year_reports
     ∧ StronglySorted Spec.score_desc ranked
     ∧ Spec.keeps_order_of_ties (Spec.scored <$> year_reports) ranked)
  ∧ (∀ (year_reports : list ExtractedDocument) (ranked' : list (Z * ExtractedDocument)),
       StronglySorted Spec.score_desc ranked' →
       Spec.keeps_order_of_ties (Spec.scored <$> year_reports) ranked' →
       ranked' = ReportsRanker._rank_reports_for_year year_reports)
  ∧ (∀ (ticker : string) (reports : list ExtractedDocument)
       (entry : ReportsRanker.YearSelection),
       entry ∈ ReportsRanker.reports (ReportsRanker.process_company_reports ticker reports) →
       ∃ A before after,
         ReportsRanker.best entry = [A]
         ∧ Spec.candidates_of_year (ReportsRanker.ys_year entry) reports
           = before ++ A :: after
         ∧ Forall (λ B, ReportsRanker._calculate_report_score B
                        < ReportsRanker._calculate_report_score A) before
         ∧ Forall (λ B, ReportsRanker._calculate_report_score B
                        ≤ ReportsRanker._calculate_report_score A) after)
  ∧ (∀ (ticker : string) (y : Z) (A B : ExtractedDocument),
       Str.truthy_int (models.year A) = Some y →
       Str.truthy_int (models.year B) = Some y →
       ReportsRanker._calculate_report_score A
       = ReportsRanker._calculate_report_score B →
       ReportsRanker.process_company_reports ticker [A; B]
       = ReportsRanker.mkSelection [y] [ReportsRanker.mkYearSelection y [A] [B]]).
Proof.
  split; [|split; [|split]].
  - intros year_reports ranked. unfold ranked.
    rewrite rank_reports_for_year_eq.
    split; [apply sort_desc_perm|]. split; [apply sort_desc_sorted|].
    apply sort_desc_ties.
  - intros year_reports ranked' Hs Ht.
    rewrite rank_reports_for_year_eq.
    apply stable_sort_unique; [done|apply sort_desc_sorted|].
    intros v. rewrite (Ht v). symmetry. apply sort_desc_ties.
  - intros ticker reports entry [He Hne]%selection_is_entry.
    set (group := Spec.candidates_of_year (ReportsRanker.ys_year entry) reports) in *.
    destruct (ReportsRanker._rank_reports_for_year group) as [|[s A] t] eqn:E.
    { pose proof (rank_reports_for_year_length group) as Hlen.
      rewrite E in Hlen. destruct group; done. }
    pose proof E as E'. rewrite rank_reports_for_year_eq in E'.
    apply sort_desc_head in E' as (before & after & Hsplit & Hb & Ha).
    assert (Hin : (s, A) ∈ Spec.scored <$> group)
      by (rewrite Hsplit; apply elem_of_app; right; left).
    apply list_elem_of_fmap in Hin as (A' & [= -> <-] & _).
    exists A, before.*2, after.*2. split; [|split; [|split]].
    + rewrite He. unfold Spec.entry_of. fold group. by rewrite E.
    + rewrite <- (snd_scored group), Hsplit, fmap_app. done.
    + assert (Hsub : before ⊆ Spec.scored <$> group)
        by (rewrite Hsplit; intros z Hz; apply elem_of_app; by left).
      apply Forall_fmap, Forall_forall. intros z Hz.
      rewrite Forall_forall in Hb. specialize (Hb z Hz).
      apply Hsub, list_elem_of_fmap in Hz as (d & -> & _). exact Hb.
    + assert (Hsub : after ⊆ Spec.scored <$> group)
        by (rewrite Hsplit; intros z Hz; apply elem_of_app; right; by right).
      apply Forall_fmap, Forall_forall. intros z Hz.
      rewrite Forall_forall in Ha. specialize (Ha z Hz).
      apply Hsub, list_elem_of_fmap in Hz as (d & -> & _). exact Ha.
  - intros ticker y A B HA HB Hscore.
    unfold ReportsRanker.process_company_reports.
    rewrite (single_year_ranking ticker y A B HA HB).
    unfold ReportsRanker.select_best_reports, ReportsRanker.sorted_keys.
    rewrite dom_singleton_L, elements_singleton.
    change (merge_sort Z.le [y]) with [y]. simpl omap.
    rewrite lookup_singleton_eq. simpl default.
    unfold ReportsRanker._rank_reports_for_year. simpl.
    rewrite Hscore, Z.ltb_irrefl. done.
Qed.

Lemma ranking_is_stable_witness :
  let A := mkDoc "https://a.example.com/ir/annual-report-2022.pdf" "Annual Report" ""
                 (Some 2022) in
  let B := mkDoc "https://a.example.com/ir/annual-report-2022-v2.pdf" "Annual Report" ""
                 (Some 2022) in
  ReportsRanker.process_company_reports "ACME" [A; B]
  = ReportsRanker.mkSelection [2022] [ReportsRanker.mkYearSelection 2022 [A] [B]].
Proof.
  intros A B.
  apply (proj2 (proj2 (proj2 ranking_is_stable)) "ACME" 2022 A B);
    reflexivity.
Defined.

(** C6, as the code has it.  The selection has an entry exactly for the
    years whose ranking is not empty.  For a company, the years covered
    are exactly the years that have a candidate, in ascending order, each
    with one entry; the entry holds one best document, the head of the
    year's ranking, and as secondary the next one or two of the ranking,
    in its descending order.  Best and secondary share no document when
    the candidates of the year are pairwise distinct. *)
Theorem selection_per_year :
  (∀ (ranked_reports : gmap Z (list (Z * ExtractedDocument)))
     (entry : ReportsRanker.YearSelection),
     entry ∈ ReportsRanker.reports (ReportsRanker.select_best_reports ranked_reports)
     ↔ ∃ year ranked,
         ranked_reports !! year = Some ranked
         ∧ ranked ≠ []
         ∧ entry = ReportsRanker.mkYearSelection year
                     (take 1 ranked).*2 (take 2 (drop 1 ranked)).*2)
  ∧
  ∀ (ticker : string) (reports : list ExtractedDocument),
    let selection := ReportsRanker.process_company_reports ticker reports in
    (∀ y, y ∈ ReportsRanker.years_covered selection
          ↔ Spec.candidates_of_year y reports ≠ [])
    ∧ StronglySorted Z.lt (ReportsRanker.years_covered selection)
    ∧ ReportsRanker.ys_year <$> ReportsRanker.reports selection
      = ReportsRanker.years_covered selection
    ∧ (∀ entry, entry ∈ ReportsRanker.reports selection →
         let candidates := Spec.candidates_of_year (ReportsRanker.ys_year entry) reports in
         let ranked := ReportsRanker._rank_reports_for_year candidates in
         ∃ top rest,
           ranked = top :: rest
           ∧ ranked ≡ₚ Spec.scored <$> candidates
           ∧ StronglySorted Spec.score_desc ranked
           ∧ ReportsRanker.best entry = [top.2]
           ∧ ReportsRanker.secondary entry = (take 2 rest).*2
           ∧ (NoDup candidates →
              NoDup (ReportsRanker.best entry ++ ReportsRanker.secondary entry))).
Proof.
  split.
  { intros ranked_reports entry.
    unfold ReportsRanker.select_best_reports. cbn [ReportsRanker.reports].
    rewrite list_elem_of_omap. split.
    - intros (year & Hyear & Hsel).
      apply sorted_keys_elem_of in Hyear as [ranked Hranked].
      rewrite Hranked in Hsel. cbn [default] in Hsel.
      exists year, ranked. split; [done|].
      destruct ranked as [|r rs]; [done|]. split; [done|].
      rewrite select_year_nonempty in Hsel by done. by injection Hsel as <-.
    - intros (year & ranked & Hranked & Hne & ->).
      exists year. split; [apply sorted_keys_elem_of; by eexists|].
      rewrite Hranked. cbn [default]. by apply select_year_nonempty. }
  intros ticker reports selection. split; [|split; [|split]].
  - intros y. apply process_covered.
  - apply sorted_keys_ascending.
  - unfold selection. rewrite process_reports_eq, <- list_fmap_compose.
    apply list_fmap_id.
  - intros entry [He Hne]%selection_is_entry candidates ranked.
    fold candidates in He, Hne.
    assert (Hperm : ranked ≡ₚ Spec.scored <$> candidates)
      by (unfold ranked; rewrite rank_reports_for_year_eq; apply sort_desc_perm).
    assert (Hsorted : StronglySorted Spec.score_desc ranked)
      by (unfold ranked; rewrite rank_reports_for_year_eq; apply sort_desc_sorted).
    assert (Hbest : ReportsRanker.best entry = (take 1 ranked).*2)
      by (by rewrite He).
    assert (Hsec : ReportsRanker.secondary entry = (take 2 (drop 1 ranked)).*2)
      by (by rewrite He).
    assert (Hnd : NoDup candidates →
                  NoDup (ReportsRanker.best entry ++ ReportsRanker.secondary entry))
      by (intros Hc; rewrite He; by apply entry_docs_NoDup).
    clearbody ranked. destruct ranked as [|top rest].
    { apply Permutation_nil, fmap_nil_inv in Hperm. done. }
    exists top, rest. done.
Qed.

Lemma selection_per_year_witness :
  let d1 := mkDoc "https://a.example.com/ir/annual-report-2022.pdf" "Annual Report 2022" ""
                  (Some 2022) in
  let d2 := mkDoc "https://a.example.com/ir/annual-report-2022.xlsx" "Annual Report 2022" ""
                  (Some 2022) in
  let entry := ReportsRanker.mkYearSelection 2022 [d2] [d1] in
  NoDup (ReportsRanker.best entry ++ ReportsRanker.secondary entry).
Proof.
  intros d1 d2 entry.
  destruct (proj2 (proj2 (proj2 (proj2 selection_per_year "ACME" [d1; d2]))) entry)
    as (top & rest & _ & _ & _ & _ & _ & Hnd).
  - vm_compute. left.
  - apply Hnd. vm_compute. apply NoDup_cons. split.
    + intros H. apply list_elem_of_singleton in H. discriminate.
    + apply NoDup_singleton.
Defined.

(** C6 as stated fails: the ranker does not remove repeated candidates, so
    a document discovered twice is both the best and a secondary document
    of its year. *)
Lemma best_secondary_overlap_counterexample :
  let d := mkDoc "https://a.example.com/ir/Annual_Report_2022.pdf"
                 "Annual_Report_2022.pdf" "" (Some 2022) in
  ReportsRanker.process_company_reports "ACME" [d; d]
  = ReportsRanker.mkSelection [2022] [ReportsRanker.mkYearSelection 2022 [d] [d]]
  ∧ ¬ (∀ entry,
         entry ∈ ReportsRanker.reports (ReportsRanker.process_company_reports "ACME" [d; d]) →
         ∀ doc, doc ∈ ReportsRanker.best entry → doc ∉ ReportsRanker.secondary entry).
Proof.
  intros d.
  assert (E : ReportsRanker.process_company_reports "ACME" [d; d]
              = ReportsRanker.mkSelection [2022]
                  [ReportsRanker.mkYearSelection 2022 [d] [d]])
    by (vm_compute; reflexivity).
  split; [exact E|]. rewrite E. intros H.
  apply (H (ReportsRanker.mkYearSelection 2022 [d] [d]) ltac:(simpl; left) d);
    simpl; left.
Qed.

Section YearFilterFacts.
Import Str.

Lemma truthy_int_Some (o : option Z) (y : Z) :
  truthy_int o = Some y ↔ o = Some y ∧ y ≠ 0.
Proof.
  destruct o as [z|]; simpl.
  - destruct z; simpl; split.
    + done.
    + intros [[= <-] ?]. done.
    + intros [= <-]. done.
    + intros [[= <-] ?]. done.
    + intros [= <-]. done.
    + intros [[= <-] ?]. done.
  - split; [done|]. intros [? ?]. done.
Qed.

End YearFilterFacts.

(** C10.  The year filter keeps only documents that carry a year, inside
    the window; the ranker groups only documents that carry a year; so
    every document of every selection entry carries the year of its
    entry, and a document without a year is in no entry. *)
Theorem yearless_documents_excluded :
  (∀ (min_year current_year : Z) (documents : list ExtractedDocument)
     (doc : ExtractedDocument),
     doc ∈ AnnualReportSearcher._filter_documents_by_year min_year current_year documents →
     doc ∈ documents
     ∧ ∃ y, models.year doc = Some y ∧ y ≠ 0 ∧ min_year ≤ y < current_year)
  ∧ (∀ (ticker : string) (reports : list ExtractedDocument)
       (entry : ReportsRanker.YearSelection) (doc : ExtractedDocument),
       entry ∈ ReportsRanker.reports (ReportsRanker.process_company_reports ticker reports) →
       doc ∈ ReportsRanker.best entry ++ ReportsRanker.secondary entry →
       doc ∈ reports
       ∧ models.year doc = Some (ReportsRanker.ys_year entry)
       ∧ ReportsRanker.ys_year entry ≠ 0)
  ∧ (∀ (min_year current_year : Z) (ticker : string)
       (all_documents : list ExtractedDocument)
       (entry : ReportsRanker.YearSelection) (doc : ExtractedDocument),
       entry ∈ ReportsRanker.reports
                 (AnnualReportSearcher.select_for_company min_year current_year ticker
                    all_documents) →
       doc ∈ ReportsRanker.best entry ++ ReportsRanker.secondary entry →
       doc ∈ all_documents
       ∧ models.year doc = Some (ReportsRanker.ys_year entry)
       ∧ min_year ≤ ReportsRanker.ys_year entry < current_year).
Proof.
  assert (Hfilter : ∀ (min_year current_year : Z) documents doc,
             doc ∈ AnnualReportSearcher._filter_documents_by_year min_year current_year documents →
             doc ∈ documents
             ∧ ∃ y, models.year doc = Some y ∧ y ≠ 0 ∧ min_year ≤ y < current_year).
  { intros min_year current_year documents doc.
    unfold AnnualReportSearcher._filter_documents_by_year.
    intros [Hk Hin]%list_elem_of_filter. split; [done|].
    unfold AnnualReportSearcher.in_year_boundary in Hk.
    destruct (Str.truthy_int (models.year doc)) as [y|] eqn:E; [|done].
    apply truthy_int_Some in E as [E Hy]. exists y.
    apply andb_true_iff in Hk as [H1 H2].
    apply Z.leb_le in H1. apply Z.ltb_lt in H2. done. }
  assert (Hrank : ∀ ticker reports entry doc,
             entry ∈ ReportsRanker.reports (ReportsRanker.process_company_reports ticker reports) →
             doc ∈ ReportsRanker.best entry ++ ReportsRanker.secondary entry →
             doc ∈ reports
             ∧ models.year doc = Some (ReportsRanker.ys_year entry)
             ∧ ReportsRanker.ys_year entry ≠ 0).
  { intros ticker reports entry doc [He _]%selection_is_entry Hdoc.
    rewrite He in Hdoc. apply entry_docs_candidates in Hdoc.
    unfold Spec.candidates_of_year in Hdoc.
    apply list_elem_of_filter in Hdoc as [Hy Hin].
    apply truthy_int_Some in Hy as [Hy Hnz]. done. }
  split; [exact Hfilter|]. split; [exact Hrank|].
  intros min_year current_year ticker all_documents entry doc He Hdoc.
  unfold AnnualReportSearcher.select_for_company,
    AnnualReportSearcher.company_selection,
    AnnualReportSearcher.search_company_reports in He.
  destruct (AnnualReportSearcher._filter_documents_by_year min_year current_year
              all_documents) as [|r rs] eqn:E.
  { simpl in He. by apply elem_of_nil in He. }
  rewrite <- E in He.
  destruct (Hrank _ _ _ _ He Hdoc) as (Hin & Hy & _).
  destruct (Hfilter _ _ _ _ Hin) as (Hall & y & Hy' & _ & Hw).
  split; [done|]. split; [done|]. congruence.
Qed.

Lemma yearless_documents_excluded_witness :
  let d1 := mkDoc "https://a.example.com/ir/annual-report-2022.pdf" "Annual Report 2022" ""
                  (Some 2022) in
  let d0 := mkDoc "https://a.example.com/ir/annual-report.pdf" "Annual Report" "" None in
  let entry := ReportsRanker.mkYearSelection 2022 [d1] [] in
  d1 ∈ [d1; d0] ∧ models.year d1 = Some 2022 ∧ 2015 ≤ 2022 < 2026.
Proof.
  intros d1 d0 entry.
  apply (proj2 (proj2 yearless_documents_excluded) 2015 2026 "ACME" [d1; d0] entry d1).
  - vm_compute. left.
  - simpl. left.
Defined.

(** ** Scoring *)

Section ScoreFacts.
Import Str ReportsRanker Spec.

Lemma priority_loop_linear keywords i title url score :
  priority_loop keywords i title url score
  = score + priority_loop keywords i title url 0.
Proof.
  revert i. induction keywords as [|k ks IH]; intros i; simpl; [lia|].
  case_match; [lia|apply IH].
Qed.

Lemma quarterly_loop_linear keywords title url score :
  quarterly_loop keywords title url score
  = score + quarterly_loop keywords title url 0.
Proof.
  revert score. induction keywords as [|k ks IH]; intros score; simpl; [lia|].
  rewrite IH. symmetry. rewrite IH. case_match; lia.
Qed.

Lemma if_add (c : bool) (score k : Z) :
  (if c then score + k else score) = score + (if c then k else 0).
Proof. destruct c; lia. Qed.

Lemma if_sub (c : bool) (score k : Z) :
  (if c then score - k else score) = score + (if c then - k else 0).
Proof. destruct c; lia. Qed.

Lemma score_parts (report : ExtractedDocument) :
  _calculate_report_score report
  = file_type_bonus (lower (models.url report))
    + priority_bonus (lower (models.title report)) (lower (models.url report))
    + indicator_bonus (lower (models.title report))
    + quarterly_penalty (lower (models.title report)) (lower (models.url report)).
Proof.
  unfold _calculate_report_score, file_type_bonus, priority_bonus,
    indicator_bonus, quarterly_penalty.
  rewrite quarterly_loop_linear, !if_add, if_sub, priority_loop_linear.
  change (- (25)) with (-25).
  destruct (endswith ".xlsx" (lower (models.url report)));
    [|destruct (endswith ".pdf" (lower (models.url report)))]; lia.
Qed.

Lemma endswith_spec (suf s : string) :
  endswith suf s = true ↔ ∃ a, s = a +:+ suf.
Proof.
  split.
  - induction s as [|c s IH]; simpl; intros H.
    + rewrite orb_false_r in H. apply String.eqb_eq in H as ->.
      by exists EmptyString.
    + apply orb_true_iff in H as [H|H].
      * apply String.eqb_eq in H as ->. by exists EmptyString.
      * destruct (IH H) as [a ->]. by exists (String c a).
  - intros [a ->]. induction a as [|c a IH]; simpl.
    + destruct suf; simpl; [done|].
      by rewrite Ascii.eqb_refl, String.eqb_refl.
    + rewrite IH. apply orb_true_r.
Qed.

Lemma endswith_app_long (suf a s : string) :
  (String.length suf ≤ String.length s)%nat →
  endswith suf (a +:+ s) = endswith suf s.
Proof.
  intros Hlen. induction a as [|c a IH]; simpl; [done|].
  rewrite IH. replace (String.eqb suf (String c (a +:+ s))) with false; [done|].
  symmetry. apply String.eqb_neq. intros ->. simpl in Hlen.
  rewrite length_app_s in Hlen. lia.
Qed.

Lemma startswith_no_sep (sep : ascii) (kw b e : string) :
  has_char sep kw = false →
  startswith kw (b +:+ String sep e) = startswith kw b.
Proof.
  revert b. induction kw as [|a kw IH]; intros b; simpl; [done|].
  intros [Ha Hkw]%orb_false_iff.
  destruct b as [|c b]; simpl.
  - rewrite Ascii.eqb_sym in Ha. by rewrite Ha.
  - case_match; [by apply IH|done].
Qed.

(** A keyword free of the separator occurs in [b.e] only inside [b] or
    inside [e]. *)
Lemma contains_no_sep (sep : ascii) (kw b e : string) :
  has_char sep kw = false →
  contains kw (b +:+ String sep e) = contains kw b || contains kw e.
Proof.
  intros Hsep. induction b as [|c b IH].
  - pose proof (startswith_no_sep sep kw EmptyString e Hsep) as H0.
    simpl in *. rewrite H0. by rewrite orb_false_r.
  - pose proof (startswith_no_sep sep kw (String c b) e Hsep) as H1.
    simpl in *. rewrite IH, H1. by rewrite orb_assoc.
Qed.

Lemma contains_extension (kw b e : string) :
  has_char "." kw = false → contains kw e = false →
  contains kw (b +:+ String "." e) = contains kw b.
Proof.
  intros H1 H2. rewrite contains_no_sep by done. rewrite H2. apply orb_false_r.
Qed.

Lemma contains_trans (k1 k2 s : string) :
  contains k1 k2 = true → contains k2 s = true → contains k1 s = true.
Proof.
  rewrite !contains_spec. intros (a & b & ->) (c & d & ->).
  exists (c +:+ a), (b +:+ d). by rewrite !app_assoc_s.
Qed.

End ScoreFacts.

Section ExtensionFacts.
Import Str ReportsRanker Spec.

Lemma app_snoc_last (a suf s : string) (c : ascii) :
  suf ≠ EmptyString →
  a +:+ suf = s +:+ String c EmptyString →
  ∃ suf', suf = suf' +:+ String c EmptyString.
Proof.
  intros Hne. revert s. induction a as [|x a IH]; intros s; simpl.
  - intros ->. by exists s.
  - destruct s as [|y s]; simpl.
    + intros [= -> H]. destruct a; simpl in H; [by subst|done].
    + intros [= -> H]. by apply (IH s).
Qed.

Lemma not_endswith_xlsx_pdf (b : string) :
  endswith ".xlsx" (b +:+ ".pdf") = false.
Proof.
  destruct (endswith ".xlsx" (b +:+ ".pdf")) eqn:E; [|done].
  apply endswith_spec in E as [a E].
  change ".pdf" with (".pd" +:+ "f") in E. rewrite <- app_assoc_s in E.
  symmetry in E. apply app_snoc_last in E as [suf' Hs]; [|done].
  do 6 (destruct suf' as [|? suf']; simpl in Hs; [discriminate|]).
  discriminate.
Qed.

Lemma file_type_bonus_xlsx (b : string) : file_type_bonus (b +:+ ".xlsx") = 200.
Proof.
  unfold file_type_bonus. by rewrite endswith_app_long by (simpl; lia).
Qed.

Lemma file_type_bonus_pdf (b : string) : file_type_bonus (b +:+ ".pdf") = 100.
Proof.
  unfold file_type_bonus. rewrite not_endswith_xlsx_pdf.
  by rewrite endswith_app_long by (simpl; lia).
Qed.

Lemma priority_loop_extension keywords i (title b e : string) score :
  Forall (λ keyword, contains keyword e = false) keywords →
  Forall (λ keyword, has_char "." keyword = false) keywords →
  priority_loop keywords i title (b +:+ String "." e) score
  = priority_loop keywords i title b score.
Proof.
  revert i. induction keywords as [|k ks IH]; intros i He Hdot; [done|].
  apply Forall_cons in He as [He1 He]. apply Forall_cons in Hdot as [Hd1 Hdot].
  simpl. rewrite contains_extension by done. by rewrite IH.
Qed.

Lemma quarterly_loop_extension keywords (title b e : string) score :
  Forall (λ keyword, contains keyword e = false) keywords →
  Forall (λ keyword, has_char "." keyword = false) keywords →
  quarterly_loop keywords title (b +:+ String "." e) score
  = quarterly_loop keywords title b score.
Proof.
  revert score. induction keywords as [|k ks IH]; intros score He Hdot; [done|].
  apply Forall_cons in He as [He1 He]. apply Forall_cons in Hdot as [Hd1 Hdot].
  simpl. rewrite contains_extension by done. by rewrite IH.
Qed.

Lemma keyword_parts_extension (title b e : string) :
  Forall (λ keyword, contains keyword e = false)
         (priority_keywords ++ quarterly_keywords) →
  priority_bonus title (b +:+ String "." e) = priority_bonus title b
  ∧ quarterly_penalty title (b +:+ String "." e) = quarterly_penalty title b.
Proof.
  intros [Hp Hq]%Forall_app. unfold priority_bonus, quarterly_penalty. split.
  - apply priority_loop_extension; [done|]. repeat constructor.
  - apply quarterly_loop_extension; [done|]. repeat constructor.
Qed.

End ExtensionFacts.

Section QuarterlyTitleFacts.
Import Str ReportsRanker Spec.

Lemma quarterly_title_parts (url title1 title2 : string) :
  contains "quarterly" title2 = true →
  contains "quarterly" title1 = false →
  contains "quarterly" url = false →
  same_other_signals title1 title2 →
  priority_bonus title2 url = priority_bonus title1 url
  ∧ indicator_bonus title2 = indicator_bonus title1
  ∧ quarterly_penalty title2 url
    = quarterly_penalty title1 url - 100
      - (if contains "quarter" title1 || contains "quarter" url then 0 else 100).
Proof.
  intros H2 H1 Hu Hsame.
  assert (Hq2 : contains "quarter" title2 = true)
    by (by apply (contains_trans "quarter" "quarterly")).
  unfold same_other_signals, other_title_keywords, priority_keywords in Hsame.
  simpl app in Hsame.
  repeat match goal with
         | H : Forall _ (_ :: _) |- _ => apply Forall_cons in H as [? H]
         end.
  clear Hsame.
  split; [|split].
  - unfold priority_bonus, priority_keywords. simpl.
    repeat match goal with
           | H : contains ?k title1 = contains ?k title2 |- _ =>
               rewrite <- ?H; clear H
           end.
    done.
  - unfold indicator_bonus.
    repeat match goal with
           | H : contains ?k title1 = contains ?k title2 |- _ =>
               rewrite <- ?H; clear H
           end.
    done.
  - unfold quarterly_penalty, quarterly_keywords. simpl.
    rewrite H1, H2, Hu, Hq2.
    repeat match goal with
           | H : contains ?k title1 = contains ?k title2 |- _ =>
               rewrite <- ?H; clear H
           end.
    simpl.
    destruct (contains "q1" title1 || contains "q1" url),
      (contains "q2" title1 || contains "q2" url),
      (contains "q3" title1 || contains "q3" url),
      (contains "q4" title1 || contains "q4" url),
      (contains "quarter" title1 || contains "quarter" url); lia.
Qed.

(** Putting the word in front of a title changes no other keyword test. *)
Lemma quarterly_prefix_signals (title : string) :
  same_other_signals title ("quarterly " +:+ title).
Proof.
  unfold same_other_signals, other_title_keywords, priority_keywords.
  simpl app. repeat constructor.
Qed.

End QuarterlyTitleFacts.

(** C4, as the code has it.  Of two candidates that differ only in the
    extension of the URL, the one ending in [.xlsx] scores exactly 100
    more than the one ending in [.pdf], in whatever case the extensions
    are written.  Of two candidates with the same
    URL whose titles answer every other keyword test of the scorer alike,
    where one title contains "quarterly" and neither the other title nor
    the URL does, the one with "quarterly" scores at least 100 less; this
    is so in particular when the word is put in front of the title. *)
Theorem score_differences :
  (∀ (base xlsx pdf title content : string) (year : option Z),
     Str.lower xlsx = ".xlsx" →
     Str.lower pdf = ".pdf" →
     ReportsRanker._calculate_report_score (mkDoc (base +:+ xlsx) title content year)
     = ReportsRanker._calculate_report_score (mkDoc (base +:+ pdf) title content year)
       + 100)
  ∧ (∀ (url title1 title2 content : string) (year : option Z),
       Str.contains "quarterly" (Str.lower title2) = true →
       Str.contains "quarterly" (Str.lower title1) = false →
       Str.contains "quarterly" (Str.lower url) = false →
       Spec.same_other_signals (Str.lower title1) (Str.lower title2) →
       ReportsRanker._calculate_report_score (mkDoc url title2 content year)
       ≤ ReportsRanker._calculate_report_score (mkDoc url title1 content year) - 100)
  ∧ (∀ (url title content : string) (year : option Z),
       Str.contains "quarterly" (Str.lower title) = false →
       Str.contains "quarterly" (Str.lower url) = false →
       ReportsRanker._calculate_report_score
         (mkDoc url ("Quarterly " +:+ title) content year)
       ≤ ReportsRanker._calculate_report_score (mkDoc url title content year) - 100).
Proof.
  assert (Hgen : ∀ (url title1 title2 content : string) (year : option Z),
             Str.contains "quarterly" (Str.lower title2) = true →
             Str.contains "quarterly" (Str.lower title1) = false →
             Str.contains "quarterly" (Str.lower url) = false →
             Spec.same_other_signals (Str.lower title1) (Str.lower title2) →
             ReportsRanker._calculate_report_score (mkDoc url title2 content year)
             ≤ ReportsRanker._calculate_report_score (mkDoc url title1 content year)
               - 100).
  { intros url title1 title2 content year H2 H1 Hu Hsame.
    rewrite !score_parts. simpl.
    destruct (quarterly_title_parts _ _ _ H2 H1 Hu Hsame) as (-> & -> & ->).
    case_match; lia. }
  split; [|split; [exact Hgen|]].
  - intros base xlsx pdf title content year Hx Hp. rewrite !score_parts. simpl.
    rewrite !lower_app, Hx, Hp.
    rewrite file_type_bonus_xlsx, file_type_bonus_pdf.
    destruct (keyword_parts_extension (Str.lower title) (Str.lower base) "xlsx")
      as [-> ->]; [repeat constructor|].
    destruct (keyword_parts_extension (Str.lower title) (Str.lower base) "pdf")
      as [-> ->]; [repeat constructor|].
    lia.
  - intros url title content year H1 Hu. apply Hgen; [|done|done|].
    + rewrite lower_app. reflexivity.
    + rewrite lower_app. apply quarterly_prefix_signals.
Qed.

Lemma score_differences_witness :
  ReportsRanker._calculate_report_score
    (mkDoc "https://a.example.com/ir/report-2022.pdf"
           "Quarterly Annual Report 2022" "" (Some 2022))
  ≤ ReportsRanker._calculate_report_score
      (mkDoc "https://a.example.com/ir/report-2022.pdf"
             "Annual Report 2022" "" (Some 2022)) - 100.
Proof.
  apply (proj2 (proj2 score_differences)
           "https://a.example.com/ir/report-2022.pdf" "Annual Report 2022" ""
           (Some 2022)); reflexivity.
Defined.

(** C4 as stated fails in its second half: a quarterly keyword costs 100
    once, whether it is found in the title or in the URL, so when the URL
    already contains "quarterly" the title adds nothing and the two
    candidates score the same. *)
Lemma quarterly_in_url_counterexample :
  let url : string := "https://a.example.com/investors/quarterly/results-2022.pdf" in
  let with_word := mkDoc url "Quarterly Results 2022" "" (Some 2022) in
  let without := mkDoc url "Results 2022" "" (Some 2022) in
  ReportsRanker._calculate_report_score with_word = -100
  ∧ ReportsRanker._calculate_report_score without = -100
  ∧ ¬ (ReportsRanker._calculate_report_score with_word
       ≤ ReportsRanker._calculate_report_score without - 100).
Proof.
  intros url with_word without.
  assert (E1 : ReportsRanker._calculate_report_score with_word = -100)
    by (vm_compute; reflexivity).
  assert (E2 : ReportsRanker._calculate_report_score without = -100)
    by (vm_compute; reflexivity).
  rewrite E1, E2. repeat split. lia.
Qed.

(** ** The crawl *)

#[local] Arguments Str.truthy : simpl never.
#[local] Arguments Str.startswith : simpl never.
#[local] Arguments Str.contains : simpl never.
#[local] Arguments Str.endswith : simpl never.
#[local] Arguments existsb : simpl never.
#[local] Arguments Classifier._is_annual_report : simpl never.
#[local] Arguments Classifier._is_quarter_report : simpl never.
#[local] Arguments Classifier._extract_year_from_text : simpl never.
#[local] Arguments HTMLPageProcessor._is_same_domain : simpl never.
#[local] Arguments HTMLPageProcessor._should_skip_url : simpl never.
#[local] Arguments HTMLPageProcessor._is_social_media_link : simpl never.
#[local] Arguments HTMLPageProcessor._extract_filename_from_disposition : simpl never.
#[local] Arguments HTMLPageProcessor._extract_filename_from_url : simpl never.
#[local] Arguments HTTPClient.make_request : simpl never.

Ltac crawl_unfold :=
  unfold HTMLPageProcessor.lift, HTMLPageProcessor.raise,
    HTMLPageProcessor.get_state, HTMLPageProcessor.modify,
    HTMLPageProcessor.try_except in *;
  unfold mbind, mret, HTMLPageProcessor.Crawl_bind,
    HTMLPageProcessor.Crawl_ret in *.

Ltac crawl_red := cbn [fst snd] in *.

Section CrawlFacts.
Import HTTPClient HTMLPageProcessor CrawlLogic.
Variable env : Environment.

Section Quiet.
Variable ok : string * nat → Prop.

Lemma quiet_refl p : quiet env ok p p.
Proof.
  repeat split; try done.
  - exists []. by rewrite app_nil_r.
  - exists []. by rewrite app_nil_r.
Qed.

Lemma quiet_trans p1 p2 p3 :
  quiet env ok p1 p2 → quiet env ok p2 p3 → quiet env ok p1 p3.
Proof.
  intros (Hc1 & Hv1 & Hp1 & Hm1 & Hb1 & (n1 & Hq1 & Hf1) & (d1 & Hd1))
         (Hc2 & Hv2 & Hp2 & Hm2 & Hb2 & (n2 & Hq2 & Hf2) & (d2 & Hd2)).
  repeat split; try congruence.
  - exists (n1 ++ n2). split; [by rewrite Hq2, Hq1, app_assoc|].
    apply Forall_app. split; [done|]. by rewrite <- Hb1.
  - exists (d1 ++ d2). by rewrite Hd2, Hd1, app_assoc.
Qed.

Lemma quiet_append_document doc p : quiet env ok p (append_document doc p).
Proof.
  repeat split; try done.
  - exists []. by rewrite app_nil_r.
  - by exists [doc].
Qed.

Lemma quiet_enqueue item p :
  _is_same_domain env (base_domain p) item.1 = true → ok item →
  quiet env ok p (enqueue item p).
Proof.
  intros H Hok. repeat split; try done.
  - exists [item]. split; [done|]. by constructor.
  - exists []. by rewrite app_nil_r.
Qed.

Lemma for_each_quiet {A} (body : A → Crawl unit) (l : list A) :
  (∀ x p, quiet env ok p (body x p).1) →
  ∀ p, quiet env ok p (for_each body l p).1.
Proof.
  intros Hbody. induction l as [|x l IH]; intros p; [apply quiet_refl|].
  simpl. crawl_unfold. pose proof (Hbody x p) as Hx.
  destruct (body x p) as [p1 [[]|]]; simpl in *; [|done].
  eapply quiet_trans; [exact Hx|apply IH].
Qed.

Lemma check_header_quiet url header_value p :
  quiet env ok p (check_header url header_value p).1.
Proof.
  unfold check_header. crawl_unfold.
  repeat case_match; simpl; auto using quiet_refl, quiet_append_document.
Qed.

Lemma process_document_link_state link base_url file_type p :
  (_process_document_link env link base_url file_type p).1 = p.
Proof.
  unfold _process_document_link. crawl_unfold.
  repeat case_match; by simplify_eq/=.
Qed.

Lemma process_links_quiet links base_url file_type p :
  quiet env ok p (process_links env links base_url file_type p).1.
Proof.
  unfold process_links. apply for_each_quiet. clear p. intros link p.
  crawl_unfold.
  pose proof (process_document_link_state link base_url file_type p) as Hs.
  destruct (_process_document_link env link base_url file_type p)
    as [p1 [[doc|]|]]; simpl in *; subst p1;
    auto using quiet_refl, quiet_append_document.
Qed.

Lemma find_direct_documents_quiet base_url soup p :
  quiet env ok p (_find_direct_documents env base_url soup p).1.
Proof.
  unfold _find_direct_documents. crawl_unfold.
  match goal with
  | |- context [process_links env ?l base_url "PDF" p] =>
      pose proof (process_links_quiet l base_url "PDF" p) as H1;
      destruct (process_links env l base_url "PDF" p) as [p1 [[]|]]
  end; simpl in *; [|done].
  eapply quiet_trans; [exact H1|apply process_links_quiet].
Qed.

End Quiet.

Lemma quiet_weaken (ok1 ok2 : string * nat → Prop) p p' :
  (∀ item, ok1 item → ok2 item) → quiet env ok1 p p' → quiet env ok2 p p'.
Proof.
  intros Hok (Hc & Hv & Hp & Hm & Hb & (new & Hq & Hf) & Hd).
  repeat split; try done. exists new. split; [done|].
  eapply Forall_impl; [exact Hf|]. intros item [? ?]. auto.
Qed.

Lemma queue_link_quiet base_url next_depth link p :
  quiet env (λ item, item.2 = next_depth) p
        (queue_link env base_url next_depth link p).1.
Proof.
  unfold queue_link. crawl_unfold.
  repeat case_match; simplify_eq/=; auto using quiet_refl.
  apply quiet_enqueue; [|done]. simpl.
  match goal with
  | H : negb ?b = false |- ?b = true => by apply negb_false_iff in H
  end.
Qed.

Lemma find_and_queue_links_quiet base_url soup current_depth p :
  quiet env (λ item, item.2 = S current_depth) p
        (_find_and_queue_links env base_url soup current_depth p).1.
Proof.
  unfold _find_and_queue_links. apply for_each_quiet.
  intros link p'. apply queue_link_quiet.
Qed.

End CrawlFacts.

Section RequestFacts.
Import HTTPClient HTMLPageProcessor CrawlLogic.

Lemma gets_app u l1 l2 : gets u (l1 ++ l2) = (gets u l1 + gets u l2)%nat.
Proof. unfold gets. by rewrite filter_app, length_app. Qed.

Lemma gets_cons_get u l : gets u (Get u :: l) = S (gets u l).
Proof. unfold gets. by rewrite filter_cons_True. Qed.

Lemma gets_cons_other u e l : e ≠ Get u → gets u (e :: l) = gets u l.
Proof. intros H. unfold gets. by rewrite filter_cons_False. Qed.

Lemma gets_none u l : Get u ∉ l → gets u l = 0%nat.
Proof.
  unfold gets. induction l as [|e l IH]; intros H; [done|].
  rewrite filter_cons. case_decide as E.
  - subst e. exfalso. apply H. left.
  - apply IH. intros Hin. apply H. by right.
Qed.

Lemma attempt_loop_log net attempts url c :
  ∃ events,
    log (attempt_loop net attempts url c).2 = log c ++ events
    ∧ Forall (λ e, e = Get url ∨ ∃ delay, e = Sleep delay) events
    ∧ (gets url events ≤ length attempts)%nat.
Proof.
  revert c. induction attempts as [|attempt rest IH]; intros c.
  - exists []. rewrite app_nil_r. repeat split; [constructor|].
    unfold gets. simpl. lia.
  - simpl.
    assert (Hone : ∃ events,
               log (tick (record (Get url) c)) = log c ++ events
               ∧ Forall (λ e, e = Get url ∨ ∃ delay, e = Sleep delay) events
               ∧ (gets url events ≤ S (length rest))%nat).
    { exists [Get url]. split; [done|]. split.
      - constructor; [by left|constructor].
      - rewrite gets_cons_get. unfold gets. simpl. lia. }
    destruct (net (clock c) url); simpl; try exact Hone.
    case_decide; [|exact Hone].
    destruct (IH (record (Sleep (base_delay * 2 ^ Z.of_nat attempt))
                    (tick (record (Get url) c)))) as (events & Hl & Hf & Hg).
    exists (Get url :: Sleep (base_delay * 2 ^ Z.of_nat attempt) :: events).
    split; [|split].
    + rewrite Hl. simpl. by rewrite <- !app_assoc.
    + constructor; [by left|]. constructor; [right; by eexists|done].
    + rewrite gets_cons_get, gets_cons_other by done. lia.
Qed.

Lemma fetches_app u l1 l2 : fetches u (l1 ++ l2) = (fetches u l1 + fetches u l2)%nat.
Proof. unfold fetches. by rewrite filter_app, length_app. Qed.

Lemma fetches_none u l : Fetch u ∉ l → fetches u l = 0%nat.
Proof.
  unfold fetches. induction l as [|e l IH]; intros H; [done|].
  rewrite filter_cons. case_decide as E.
  - subst e. exfalso. apply H. left.
  - apply IH. intros Hin. apply H. by right.
Qed.

Lemma make_request_log net url c :
  ∃ events,
    log (make_request net url c).2 = log c ++ events
    ∧ Forall (about url) events
    ∧ (fetches url events ≤ 1)%nat
    ∧ (gets url events ≤ 3)%nat.
Proof.
  unfold make_request. case_decide.
  - exists []. simpl. rewrite app_nil_r. repeat split; [constructor| |];
      unfold fetches, gets; simpl; lia.
  - destruct (attempt_loop_log net (seq 0 max_retries) url (record (Fetch url) c))
      as (events & Hl & Hf & Hg).
    exists (Fetch url :: events). split; [|split; [|split]].
    + rewrite Hl. simpl. by rewrite <- app_assoc.
    + constructor; [by left|].
      eapply Forall_impl; [exact Hf|]. intros e [->|[d ->]].
      * right; by left.
      * right; right; by eexists.
    + change (Fetch url :: events) with ([Fetch url] ++ events).
      rewrite fetches_app, (fetches_none url events).
      * unfold fetches. rewrite filter_cons_True by done. simpl. lia.
      * intros Hin. rewrite Forall_forall in Hf.
        destruct (Hf _ Hin) as [?|[? ?]]; done.
    + rewrite gets_cons_other by done. rewrite length_seq in Hg. exact Hg.
Qed.

End RequestFacts.

Section ProcessFacts.
Import HTTPClient HTMLPageProcessor CrawlLogic.
Variable env : Environment.

Lemma set_client_twice c1 c2 p : set_client c2 (set_client c1 p) = set_client c2 p.
Proof. done. Qed.

(** The header check: one request, then client-free steps that leave the
    queue alone. *)
Lemma check_headers_effect url p :
  quiet env (λ _, False)
        (set_client (make_request (net env) url (http_client p)).2 p)
        (_check_headers_for_documents env url p).
Proof.
  unfold _check_headers_for_documents, check_headers_body, request.
  crawl_unfold.
  destruct (make_request (net env) url (http_client p)) as [[response| |] c1];
    crawl_red; try apply quiet_refl.
  set (p1 := set_client c1 p).
  match goal with
  | |- context [for_each ?body ?l p1] =>
      pose proof (for_each_quiet env (λ _, False) body l
                    (check_header_quiet env (λ _, False) url) p1) as H1;
      destruct (for_each body l p1) as [p2 [[]|]]
  end; crawl_red; [|done].
  eapply quiet_trans; [exact H1|].
  destruct (Str.contains "pdf" _ || _ || _); crawl_red; [|apply quiet_refl].
  destruct (_extract_filename_from_url env url) as [from_url|]; crawl_red;
    [|apply quiet_refl].
  destruct (Classifier._is_annual_report _ _ _ _); crawl_red;
    auto using quiet_refl, quiet_append_document.
Qed.

(** Processing a URL: one request for the page, and after an answer a
    second request by the header check; the rest leaves the client alone
    and queues, below the depth bound only, entries one level deeper. *)
Lemma process_url_effect url depth p :
  let c1 := (make_request (net env) url (http_client p)).2 in
  let c2 := (make_request (net env) url c1).2 in
  let ok := λ item : string * nat, item.2 = S depth ∧ (depth < max_depth p)%nat in
  quiet env ok (set_client c1 p) (_process_url_from_queue env url depth p)
  ∨ quiet env ok (set_client c2 p) (_process_url_from_queue env url depth p).
Proof.
  intros c1 c2 ok. unfold _process_url_from_queue, request. crawl_unfold.
  subst c1 c2.
  destruct (make_request (net env) url (http_client p)) as [[response| |] c1];
    crawl_red; try (left; apply quiet_refl).
  right.
  pose proof (check_headers_effect url (set_client c1 p)) as H1.
  change (http_client (set_client c1 p)) with c1 in H1.
  rewrite set_client_twice in H1.
  apply (quiet_weaken env _ ok) in H1; [|done].
  set (p2 := _check_headers_for_documents env url (set_client c1 p)) in *.
  pose proof (find_direct_documents_quiet env ok url (anchors response) p2) as H2.
  destruct (_find_direct_documents env url (anchors response) p2) as [p3 [[]|]];
    crawl_red; [|by eapply quiet_trans].
  assert (H12 : quiet env ok (set_client (make_request (net env) url c1).2 p) p3)
    by (by eapply quiet_trans).
  case_decide as Hd.
  - eapply quiet_trans; [exact H12|].
    eapply quiet_weaken; [|apply find_and_queue_links_quiet].
    intros item Hitem. split; [done|].
    destruct H12 as (_ & _ & _ & Hm & _). cbn in Hm. by rewrite <- Hm.
  - crawl_red. done.
Qed.

(** What one processed URL does to the log. *)
Lemma process_url_log url depth p :
  ∃ events,
    log (http_client (_process_url_from_queue env url depth p))
    = log (http_client p) ++ events
    ∧ Forall (about url) events
    ∧ (fetches url events ≤ 2)%nat
    ∧ (gets url events ≤ 6)%nat.
Proof.
  destruct (make_request_log (net env) url (http_client p))
    as (e1 & Hl1 & Ha1 & Hn1 & Hg1).
  destruct (make_request_log (net env) url
              (make_request (net env) url (http_client p)).2)
    as (e2 & Hl2 & Ha2 & Hn2 & Hg2).
  destruct (process_url_effect url depth p) as [Hq|Hq];
    destruct Hq as (Hc & _); rewrite Hc; simpl.
  - exists e1. split; [done|]. split; [done|]. split; lia.
  - exists (e1 ++ e2). split; [by rewrite Hl2, Hl1, app_assoc|].
    split; [by apply Forall_app|]. rewrite fetches_app, gets_app. split; lia.
Qed.

Lemma process_url_frame url depth p :
  let p' := _process_url_from_queue env url depth p in
  visited_urls p' = visited_urls p
  ∧ processed p' = processed p
  ∧ max_depth p' = max_depth p
  ∧ base_domain p' = base_domain p
  ∧ (∃ new, url_queue p' = url_queue p ++ new
            ∧ Forall (λ item, _is_same_domain env (base_domain p) item.1 = true
                              ∧ item.2 = S depth ∧ (depth < max_depth p)%nat) new)
  ∧ (∃ docs, found_documents p' = found_documents p ++ docs).
Proof.
  intros p'. subst p'.
  destruct (process_url_effect url depth p) as [Hq|Hq];
    destruct Hq as (_ & Hv & Hp & Hm & Hb & Hq & Hd); done.
Qed.

End ProcessFacts.

Section InvariantFacts.
Import HTTPClient HTMLPageProcessor CrawlLogic.
Variable env : Environment.

Lemma about_fetch u url : about url (Fetch u) → u = url.
Proof. intros [[= ->]|[?|[? ?]]]; done. Qed.

Lemma about_get u url : about url (Get u) → u = url.
Proof. intros [?|[[= ->]|[? ?]]]; done. Qed.

Lemma start_crawl_inv seed p p0 :
  start_crawl env seed p = Some p0 →
  crawl_inv env seed (log (http_client p)) p0
  ∧ base_domain p0 = _extract_base_domain env seed
  ∧ max_depth p0 = max_depth p.
Proof.
  unfold start_crawl.
  destruct (_extract_base_domain env seed) as [domain|] eqn:E; [|done].
  intros [= <-]. split; [|done]. constructor; simpl.
  - constructor.
  - intros u. split; intros H; [by apply elem_of_empty in H|by apply elem_of_nil in H].
  - exists []. rewrite app_nil_r. split; [done|]. split.
    + intros u. unfold fetches, gets. simpl. lia.
    + intros e H. by apply elem_of_nil in H.
  - intros item Hin. apply list_elem_of_singleton in Hin as ->. by left.
  - intros u H. by apply elem_of_nil in H.
Qed.

Lemma crawl_step_inv seed log0 p p' :
  crawl_step env p = Some p' →
  crawl_inv env seed log0 p →
  crawl_inv env seed log0 p' ∧ base_domain p' = base_domain p.
Proof.
  unfold crawl_step. destruct (url_queue p) as [|[u d] rest] eqn:Eq; [done|].
  cbn [visited_urls]. intros Hstep [Hnd Hvis (events & Hlog & Hcount & Habout) Hq Hp].
  case_decide as Hv.
  - injection Hstep as <-. split; [|done]. constructor; cbn; try done.
    + by exists events.
    + intros item Hin. apply Hq. rewrite Eq. by right.
  - cbv zeta in Hstep. cbn [http_client url_queue visited_urls found_documents
                             max_depth base_domain processed] in Hstep.
    set (p1 := mkProcessor (http_client p) rest (visited_urls p) (found_documents p)
                           (max_depth p) (base_domain p) (processed p ++ [u])) in *.
    destruct (process_url_frame env u d p1)
      as (Hv' & Hp' & Hm' & Hb' & (new & Hq' & Hnew) & _).
    destruct (process_url_log env u d p1) as (ev & Hl' & Hab' & Hn' & Hg').
    set (p2 := _process_url_from_queue env u d p1) in *.
    cbn in Hv', Hp', Hm', Hb', Hq', Hnew, Hl'. clearbody p2.
    injection Hstep as <-.
    assert (Hfresh : u ∉ processed p) by (by rewrite <- Hvis).
    split; [|cbn; exact Hb']. constructor; cbn.
    + rewrite Hp'. apply NoDup_app. split; [done|]. split.
      * intros x Hx Hx'. apply list_elem_of_singleton in Hx' as ->. done.
      * apply NoDup_singleton.
    + intros x. rewrite Hp', Hv', elem_of_union, elem_of_singleton, elem_of_app,
        list_elem_of_singleton, Hvis. tauto.
    + exists (events ++ ev). split; [by rewrite Hl', Hlog, app_assoc|]. split.
      * intros x. rewrite fetches_app, gets_app.
        destruct (decide (x = u)) as [->|Hne].
        -- rewrite (fetches_none u events), (gets_none u events); [lia| |].
           ++ intros Hin. destruct (Habout _ Hin) as (u' & Hu' & Ha).
              apply about_get in Ha as ->. done.
           ++ intros Hin. destruct (Habout _ Hin) as (u' & Hu' & Ha).
              apply about_fetch in Ha as ->. done.
        -- rewrite (fetches_none x ev), (gets_none x ev);
             [specialize (Hcount x); lia| |].
           ++ intros Hin. rewrite Forall_forall in Hab'.
              by apply Hab', about_get in Hin.
           ++ intros Hin. rewrite Forall_forall in Hab'.
              by apply Hab', about_fetch in Hin.
      * intros e [Hin|Hin]%elem_of_app.
        -- destruct (Habout _ Hin) as (u' & Hu' & Ha). exists u'.
           split; [|done]. rewrite Hp'. apply elem_of_app. by left.
        -- exists u. split.
           ++ rewrite Hp'. apply elem_of_app. right. left.
           ++ rewrite Forall_forall in Hab'. by apply Hab'.
    + intros item. rewrite Hq', Hb'. intros [Hin|Hin]%elem_of_app.
      * apply Hq. rewrite Eq. by right.
      * right. rewrite Forall_forall in Hnew. by apply Hnew.
    + intros x. rewrite Hp', Hb'. intros [Hin|Hin]%elem_of_app.
      * by apply Hp.
      * apply list_elem_of_singleton in Hin as ->.
        apply (Hq (u, d)). rewrite Eq. left.
Qed.

Lemma crawl_rounds_inv seed log0 n p :
  crawl_inv env seed log0 p →
  crawl_inv env seed log0 (crawl_rounds env n p)
  ∧ base_domain (crawl_rounds env n p) = base_domain p.
Proof.
  revert p. induction n as [|n IH]; intros p Hinv; [done|].
  simpl. destruct (crawl_step env p) as [p'|] eqn:E; [|done].
  destruct (crawl_step_inv seed log0 p p' E Hinv) as [Hinv' Hb].
  destruct (IH p' Hinv') as [Hinv'' Hb']. split; [done|congruence].
Qed.

(** The loop run to its end passes through the states of [crawl_rounds]. *)
Lemma crawl_loop_rounds fuel p p' :
  crawl_loop env fuel p = Some p' →
  p' = crawl_rounds env (S fuel) p ∧ url_queue p' = [].
Proof.
  revert p. induction fuel as [|fuel IH]; intros p; simpl.
  - destruct (crawl_step env p) as [p1|] eqn:E; [done|].
    intros [= <-]. split; [done|].
    unfold crawl_step in E. destruct (url_queue p) as [|[u d] rest]; [done|].
    by case_decide.
  - destruct (crawl_step env p) as [p1|] eqn:E.
    + intros H. apply IH in H as [-> Hq]. split; [|done].
      simpl. done.
    + intros [= <-]. split; [done|].
      unfold crawl_step in E. destruct (url_queue p) as [|[u d] rest]; [done|].
      by case_decide.
Qed.

End InvariantFacts.

(** ** The crawl comes to an end *)

Section TerminationFacts.
Import HTTPClient HTMLPageProcessor CrawlLogic.
Variable env : Environment.

Lemma crawl_step_queue p p' :
  crawl_step env p = Some p' →
  ∃ u d rest new,
    url_queue p = (u, d) :: rest
    ∧ url_queue p' = rest ++ new
    ∧ max_depth p' = max_depth p
    ∧ Forall (λ item, (height (max_depth p) item < height (max_depth p) (u, d))%nat)
             new.
Proof.
  unfold crawl_step. destruct (url_queue p) as [|[u d] rest] eqn:Eq; [done|].
  cbn [visited_urls]. intros Hstep. exists u, d, rest.
  case_decide as Hv.
  - injection Hstep as <-. exists []. cbn. by rewrite app_nil_r.
  - cbv zeta in Hstep.
    cbn [http_client url_queue visited_urls found_documents max_depth base_domain
         processed] in Hstep.
    set (p1 := mkProcessor (http_client p) rest (visited_urls p) (found_documents p)
                           (max_depth p) (base_domain p) (processed p ++ [u])) in *.
    destruct (process_url_frame env u d p1)
      as (_ & _ & Hm' & _ & (new & Hq' & Hnew) & _).
    set (p2 := _process_url_from_queue env u d p1) in *.
    cbn in Hm', Hq', Hnew. clearbody p2. injection Hstep as <-. cbn.
    exists new. split; [done|]. split; [done|]. split; [done|].
    eapply Forall_impl; [exact Hnew|].
    intros [x dx] (_ & Hdx & Hlt). unfold height. cbn in *. lia.
Qed.

Lemma crawl_step_nonempty p item rest :
  url_queue p = item :: rest → is_Some (crawl_step env p).
Proof.
  intros Hq. unfold crawl_step. rewrite Hq. destruct item as [u d].
  case_decide; by eexists.
Qed.

Lemma finishes_empty p : url_queue p = [] → finishes env p.
Proof.
  intros Hq. exists 0%nat. unfold crawl_loop, crawl_step. rewrite Hq. by eexists.
Qed.

Lemma finishes_step p p' :
  crawl_step env p = Some p' → finishes env p' → finishes env p.
Proof.
  intros Hstep [fuel Hf]. exists (S fuel). simpl. by rewrite Hstep.
Qed.

Lemma filter_none {A} (P : A → Prop) `{!∀ x, Decision (P x)} (l : list A) :
  Forall (λ x, ¬ P x) l ↔ filter P l = [].
Proof.
  split.
  - induction 1 as [|x l Hx Hl IH]; [done|]. by rewrite filter_cons_False.
  - intros Hnil. apply Forall_forall. intros x Hin HP.
    by apply (filter_nil_not_elem_of P l x Hnil HP).
Qed.

Lemma filter_first_split {A} (P : A → Prop) `{!∀ x, Decision (P x)}
    (l : list A) (m : nat) :
  length (filter P l) = S m →
  ∃ pre x post,
    l = pre ++ x :: post ∧ Forall (λ y, ¬ P y) pre ∧ P x
    ∧ length (filter P post) = m.
Proof.
  induction l as [|y l IH]; [done|].
  rewrite filter_cons. case_decide as Hy.
  - cbn. intros [= Hlen]. exists [], y, l. repeat split; [constructor|done|done].
  - intros Hlen. destruct (IH Hlen) as (pre & x & post & -> & Hpre & Hx & Hm).
    exists (y :: pre), x, post. repeat split; [by constructor|done|done].
Qed.

Section Level.
Variable H : nat.
Variable k : nat.
Hypothesis finishes_lower :
  ∀ p, max_depth p = H → Forall (λ item, (height H item < k)%nat) (url_queue p) →
       finishes env p.

Lemma finishes_behind (m : nat) :
  (∀ p, max_depth p = H →
        Forall (λ item, (height H item ≤ k)%nat) (url_queue p) →
        length (filter (λ item, height H item = k) (url_queue p)) = m →
        finishes env p) →
  ∀ pre post u d p,
    max_depth p = H →
    url_queue p = pre ++ (u, d) :: post →
    Forall (λ item, (height H item < k)%nat) pre →
    height H (u, d) = k →
    Forall (λ item, (height H item ≤ k)%nat) post →
    length (filter (λ item, height H item = k) post) = m →
    finishes env p.
Proof.
  intros IHm pre. induction pre as [|x pre IHpre];
    intros post u d p HH Hq Hpre Hu Hpost Hm.
  - destruct (crawl_step_nonempty p _ _ Hq) as [p' Hstep].
    apply (finishes_step p p' Hstep).
    destruct (crawl_step_queue p p' Hstep) as (u' & d' & rest & new & Hq1 & Hq2 & HH' & Hnew).
    rewrite Hq in Hq1. simpl in Hq1. injection Hq1 as <- <- <-.
    rewrite HH, Hu in Hnew.
    apply IHm; [congruence| |].
    + rewrite Hq2. apply Forall_app. split; [done|].
      eapply Forall_impl; [exact Hnew|]. cbn. intros; lia.
    + rewrite Hq2, filter_app, length_app, Hm.
      rewrite (proj1 (filter_none _ new)); [simpl; lia|].
      eapply Forall_impl; [exact Hnew|]. cbn. intros; lia.
  - destruct (crawl_step_nonempty p _ _ Hq) as [p' Hstep].
    apply (finishes_step p p' Hstep).
    destruct (crawl_step_queue p p' Hstep) as (u' & d' & rest & new & Hq1 & Hq2 & HH' & Hnew).
    rewrite Hq in Hq1. simpl in Hq1. destruct x as [ux dx].
    injection Hq1 as <- <- <-.
    apply Forall_cons in Hpre as [Hx Hpre]. rewrite HH in Hnew.
    apply (IHpre (post ++ new) u d p'); [congruence| |done|done| |].
    + rewrite Hq2, <- app_assoc. done.
    + apply Forall_app. split; [done|].
      eapply Forall_impl; [exact Hnew|]. cbn. intros; lia.
    + rewrite filter_app, length_app, Hm.
      rewrite (proj1 (filter_none _ new)); [simpl; lia|].
      eapply Forall_impl; [exact Hnew|]. cbn. intros; lia.
Qed.

Lemma finishes_level (m : nat) :
  ∀ p, max_depth p = H →
       Forall (λ item, (height H item ≤ k)%nat) (url_queue p) →
       length (filter (λ item, height H item = k) (url_queue p)) = m →
       finishes env p.
Proof.
  induction m as [|m IHm]; intros p HH Hall Hm.
  - apply finishes_lower; [done|].
    apply length_zero_iff_nil, filter_none in Hm.
    rewrite Forall_forall in Hall, Hm |- *. intros item Hin.
    specialize (Hall item Hin). specialize (Hm item Hin). cbn in *. lia.
  - destruct (filter_first_split _ _ _ Hm) as (pre & [u d] & post & Hq & Hpre & Hu & Hpost).
    rewrite Hq in Hall. apply Forall_app in Hall as [Hall1 Hall2].
    apply Forall_cons in Hall2 as [_ Hall2].
    apply (finishes_behind m IHm pre post u d p); try done.
    rewrite Forall_forall in Hall1, Hpre |- *. intros item Hin.
    specialize (Hall1 item Hin). specialize (Hpre item Hin). cbn in *. lia.
Qed.

End Level.

Lemma finishes_below (H k : nat) :
  ∀ p, max_depth p = H → Forall (λ item, (height H item < k)%nat) (url_queue p) →
       finishes env p.
Proof.
  induction k as [|k IH]; intros p HH Hall.
  - apply finishes_empty. destruct (url_queue p) as [|item rest]; [done|].
    apply Forall_cons in Hall as [Hitem _]. lia.
  - apply (finishes_level H k IH
             (length (filter (λ item, height H item = k) (url_queue p))) p HH);
      [|done].
    eapply Forall_impl; [exact Hall|]. cbn. intros; lia.
Qed.

(** Whatever the network answers, the loop empties the queue. *)
Lemma crawl_finishes p : finishes env p.
Proof.
  apply (finishes_below (max_depth p) (S (max_depth p))); [done|].
  apply Forall_forall. intros item _. unfold height. lia.
Qed.

End TerminationFacts.

Section DomainFacts.
Import Str HTTPClient HTMLPageProcessor CrawlLogic Spec.

Lemma lower_char_colon (c : ascii) :
  Ascii.eqb (lower_char c) ":" = Ascii.eqb c ":".
Proof. destruct c as [[] [] [] [] [] [] [] []]; reflexivity. Qed.

Lemma has_char_sym (c b : ascii) (s : string) :
  has_char c (String b s) = Ascii.eqb b c || has_char c s.
Proof. simpl. by rewrite Ascii.eqb_sym. Qed.


Lemma span_colon_lower (s : string) :
  span (λ c, negb (Ascii.eqb c ":")) (lower s)
  = lower (span (λ c, negb (Ascii.eqb c ":")) s).
Proof.
  induction s as [|c s IH]; [done|].
  change (lower (String c s)) with (String (lower_char c) (lower s)).
  cbn [span]. rewrite lower_char_colon.
  destruct (Ascii.eqb c ":"); cbn [negb]; [done|].
  change (lower (String c ?t)) with (String (lower_char c) (lower t)).
  by rewrite IH.
Qed.

Lemma head_split (sep : ascii) (s : string) :
  default EmptyString (head (split sep s))
  = span (λ c, negb (Ascii.eqb c sep)) s.
Proof.
  induction s as [|c s IH]; [done|].
  cbn [split span]. destruct (Ascii.eqb c sep); cbn [negb]; [done|].
  destruct (split sep s) as [|piece pieces]; cbn in *; by rewrite <- IH.
Qed.

Lemma span_no_sep (sep : ascii) (s : string) :
  has_char sep s = false → span (λ c, negb (Ascii.eqb c sep)) s = s.
Proof.
  induction s as [|c s IH]; [done|].
  rewrite has_char_sym. intros [H1 H2]%orb_false_iff.
  cbn [span]. rewrite H1. cbn [negb]. by rewrite IH.
Qed.

(** For a netloc [host] or [host:port] the crawler's base domain is the
    registrable domain of the host. *)
Lemma base_domain_refines (netloc : string) :
  plain_authority netloc →
  base_domain_of_netloc netloc = registrable_domain (urllib.hostname netloc).
Proof.
  intros [Hat Hbr].
  assert (Hinfo : urllib.after_last_at netloc = netloc).
  { destruct netloc as [|c rest]; [done|].
    rewrite has_char_sym in Hat. apply orb_false_iff in Hat as [H1 H2].
    cbn [urllib.after_last_at]. by rewrite H2, H1. }
  assert (Hhost : urllib.hostname netloc
                  = lower (span (λ c, negb (Ascii.eqb c ":")) netloc)).
  { unfold urllib.hostname. by rewrite Hinfo, Hbr. }
  rewrite Hhost, <- span_colon_lower.
  unfold base_domain_of_netloc, registrable_domain.
  destruct (has_char ":" (lower netloc)) eqn:E.
  - by rewrite head_split.
  - by rewrite (span_no_sep ":" (lower netloc) E).
Qed.

Lemma same_domain_extract env (domain : option string) (u : string) :
  truthy domain = true →
  _is_same_domain env domain u = true →
  _extract_base_domain env u = domain.
Proof.
  intros Ht. unfold _is_same_domain. rewrite Ht. cbn [negb].
  destruct (_extract_base_domain env u) as [d|]; [|done].
  by intros ?%bool_decide_eq_true.
Qed.

Lemma in_scope_extract env seed (u : string) :
  truthy (_extract_base_domain env seed) = true →
  in_scope env seed (_extract_base_domain env seed) u →
  _extract_base_domain env u = _extract_base_domain env seed.
Proof.
  intros Ht [->|Hs]; [done|]. by apply same_domain_extract.
Qed.

End DomainFacts.

Section DedupFacts.
Import Str HTTPClient HTMLPageProcessor CrawlLogic.
Variable env : Environment.

Lemma for_each_invariant {A} (P : Processor → Prop) (body : A → Crawl unit)
    (l : list A) :
  (∀ x p, P p → P (body x p).1) → ∀ p, P p → P (for_each body l p).1.
Proof.
  intros Hbody. induction l as [|x l IH]; intros p Hp; [done|].
  simpl. crawl_unfold. pose proof (Hbody x p Hp) as Hx.
  destruct (body x p) as [p1 [[]|]]; cbn [fst] in *; [|done].
  by apply IH.
Qed.

Lemma existsb_url_false (full_url : string) (docs : list ExtractedDocument) :
  existsb (λ doc, String.eqb (models.url doc) full_url) docs = false →
  full_url ∉ models.url <$> docs.
Proof.
  intros H Hin. apply list_elem_of_fmap in Hin as (doc & -> & Hdoc).
  assert (existsb (λ d, String.eqb (models.url d) (models.url doc)) docs = true);
    [|congruence].
  apply existsb_elem_of. exists doc. split; [done|]. apply String.eqb_refl.
Qed.

(** A document that the link path returns has a URL that is not yet among
    the found documents. *)
Lemma process_document_link_fresh link base_url file_type p doc :
  (_process_document_link env link base_url file_type p).2 = Some (Some doc) →
  models.url doc ∉ models.url <$> found_documents p.
Proof.
  unfold _process_document_link. crawl_unfold.
  destruct (negb (truthy (link_href link))); [done|].
  destruct (urljoin env base_url (default EmptyString (link_href link)))
    as [full_url|]; [|done].
  destruct (existsb _ (found_documents p)) eqn:E; [done|].
  destruct (Classifier._is_quarter_report _ _); [done|].
  destruct (Classifier._is_annual_report _ _ _ _); [|done].
  cbn [snd]. intros [= <-]. cbn [models.url]. by apply existsb_url_false.
Qed.

Lemma process_links_NoDup links base_url file_type p :
  NoDup (models.url <$> found_documents p) →
  NoDup (models.url <$> found_documents (process_links env links base_url file_type p).1).
Proof.
  unfold process_links. revert p.
  apply (for_each_invariant (λ p, NoDup (models.url <$> found_documents p))).
  intros link p Hnd. crawl_unfold.
  pose proof (process_document_link_state env link base_url file_type p) as Hs.
  pose proof (process_document_link_fresh link base_url file_type p) as Hf.
  destruct (_process_document_link env link base_url file_type p)
    as [p1 [[doc|]|]]; cbn [fst snd] in *; subst p1; try done.
  unfold append_document. cbn [found_documents].
  rewrite fmap_app. apply NoDup_app. split; [done|]. split.
  - intros x Hx Hx'. apply list_elem_of_singleton in Hx' as ->.
    by apply (Hf doc).
  - apply NoDup_singleton.
Qed.

Lemma find_direct_documents_NoDup base_url soup p :
  NoDup (models.url <$> found_documents p) →
  NoDup (models.url <$> found_documents (_find_direct_documents env base_url soup p).1).
Proof.
  intros Hnd. unfold _find_direct_documents. crawl_unfold.
  match goal with
  | |- context [process_links env ?l base_url "PDF" p] =>
      pose proof (process_links_NoDup l base_url "PDF" p Hnd) as H1;
      destruct (process_links env l base_url "PDF" p) as [p1 [[]|]]
  end; cbn [fst] in *; [|done].
  by apply process_links_NoDup.
Qed.

End DedupFacts.

Section CrawlSummary.
Import Str HTTPClient HTMLPageProcessor CrawlLogic.
Variable env : Environment.

Lemma about_event u url : about url (Fetch u) ∨ about url (Get u) → u = url.
Proof. intros [[[= ->]|[?|[? ?]]]|[?|[[= ->]|[? ?]]]]; done. Qed.

(** Every state of a crawl satisfies the invariant. *)
Lemma crawl_reachable seed p p0 n :
  start_crawl env seed p = Some p0 →
  crawl_inv env seed (log (http_client p)) (crawl_rounds env n p0)
  ∧ base_domain (crawl_rounds env n p0) = _extract_base_domain env seed.
Proof.
  intros Hstart. destruct (start_crawl_inv env seed p p0 Hstart) as (Hinv & Hb & _).
  destruct (crawl_rounds_inv env seed _ n p0 Hinv) as [Hinv' Hb'].
  split; [done|congruence].
Qed.

Lemma crawl_events_processed seed p p0 n events u :
  start_crawl env seed p = Some p0 →
  log (http_client (crawl_rounds env n p0)) = log (http_client p) ++ events →
  Fetch u ∈ events ∨ Get u ∈ events →
  u ∈ processed (crawl_rounds env n p0).
Proof.
  intros Hstart Hlog Hin.
  destruct (crawl_reachable seed p p0 n Hstart) as [[_ _ (ev & Hl & _ & Hab) _ _] _].
  rewrite Hl in Hlog. apply app_inv_head in Hlog as ->.
  destruct Hin as [Hin|Hin]; destruct (Hab _ Hin) as (u' & Hu' & Ha).
  - by rewrite (about_event u u' (or_introl Ha)).
  - by rewrite (about_event u u' (or_intror Ha)).
Qed.

(** With a base domain, whatever the crawl has queued, processed or
    requested has the base domain of the seed. *)
Lemma crawl_in_domain seed p p0 n u :
  start_crawl env seed p = Some p0 →
  truthy (base_domain p0) = true →
  u ∈ (url_queue (crawl_rounds env n p0)).*1
  ∨ u ∈ processed (crawl_rounds env n p0)
  ∨ (∃ events,
       log (http_client (crawl_rounds env n p0)) = log (http_client p) ++ events
       ∧ (Fetch u ∈ events ∨ Get u ∈ events)) →
  _extract_base_domain env u = _extract_base_domain env seed.
Proof.
  intros Hstart Ht Hu.
  destruct (start_crawl_inv env seed p p0 Hstart) as (_ & Hb0 & _).
  rewrite Hb0 in Ht.
  destruct (crawl_reachable seed p p0 n Hstart) as [[_ _ _ Hq Hp] Hb].
  rewrite Hb in Hq, Hp.
  apply in_scope_extract; [done|].
  destruct Hu as [Hu|[Hu|(events & Hl & Hu)]].
  - apply list_elem_of_fmap in Hu as (item & -> & Hitem). by apply Hq.
  - by apply Hp.
  - apply Hp. by eapply crawl_events_processed.
Qed.

End CrawlSummary.

(** C1, as the code has it.  In every crawl, whatever the seed, the pages
    and the answers of the network, no URL is handed to the page processor
    twice: a dequeued URL is processed only if it is not in the visited
    set, and it is added to the set right after; the visited URLs are the
    processed ones.  Processing a URL calls the fetcher for it at most
    twice (for the page and, once the page has arrived, again for the
    header check), each call with at most three GETs, and the crawl
    requests nothing but the URLs it processes.  The loop always empties
    the queue and returns the documents found. *)
Theorem each_url_processed_once :
  ∀ (env : HTMLPageProcessor.Environment) (seed : string)
    (p p0 : HTMLPageProcessor.Processor) (n : nat),
    HTMLPageProcessor.start_crawl env seed p = Some p0 →
    let p' := HTMLPageProcessor.crawl_rounds env n p0 in
    NoDup (HTMLPageProcessor.processed p')
    ∧ (∀ u, u ∈ HTMLPageProcessor.visited_urls p'
            ↔ u ∈ HTMLPageProcessor.processed p')
    ∧ (∃ events,
         HTTPClient.log (HTMLPageProcessor.http_client p')
         = HTTPClient.log (HTMLPageProcessor.http_client p) ++ events
         ∧ (∀ u, (HTTPClient.fetches u events ≤ 2)%nat
                 ∧ (HTTPClient.gets u events ≤ 6)%nat)
         ∧ (∀ u, HTTPClient.Fetch u ∈ events ∨ HTTPClient.Get u ∈ events →
                 u ∈ HTMLPageProcessor.processed p'))
    ∧ (∀ u depth rest,
         HTMLPageProcessor.url_queue p' = (u, depth) :: rest →
         ∃ p'', HTMLPageProcessor.crawl_step env p' = Some p''
                ∧ if decide (u ∈ HTMLPageProcessor.visited_urls p')
                  then HTMLPageProcessor.processed p'' = HTMLPageProcessor.processed p'
                       ∧ HTMLPageProcessor.http_client p''
                         = HTMLPageProcessor.http_client p'
                  else HTMLPageProcessor.processed p''
                       = HTMLPageProcessor.processed p' ++ [u]
                       ∧ HTMLPageProcessor.visited_urls p''
                         = {[u]} ∪ HTMLPageProcessor.visited_urls p')
    ∧ (∃ fuel final,
         HTMLPageProcessor.crawl_loop env fuel p0 = Some final
         ∧ final = HTMLPageProcessor.crawl_rounds env (S fuel) p0
         ∧ HTMLPageProcessor.url_queue final = []
         ∧ HTMLPageProcessor.find_annual_reports env fuel seed p
           = Some (HTMLPageProcessor.found_documents final)).
Proof.
  intros env seed p p0 n Hstart p'.
  destruct (crawl_reachable env seed p p0 n Hstart)
    as [[Hnd Hvis (events & Hl & Hc & Hab) _ _] _].
  fold p' in Hnd, Hvis, Hl, Hab.
  split; [done|]. split; [done|]. split; [|split].
  - exists events. split; [done|]. split; [done|].
    intros u Hu. by apply (crawl_events_processed env seed p p0 n events u).
  - intros u depth rest Hq. unfold HTMLPageProcessor.crawl_step. rewrite Hq.
    cbn [HTMLPageProcessor.visited_urls]. case_decide as Hv.
    + eexists. split; [done|]. done.
    + eexists. split; [reflexivity|]. cbn.
      destruct (process_url_frame env u depth
                  (HTMLPageProcessor.mkProcessor
                     (HTMLPageProcessor.http_client p') rest
                     (HTMLPageProcessor.visited_urls p')
                     (HTMLPageProcessor.found_documents p')
                     (HTMLPageProcessor.max_depth p')
                     (HTMLPageProcessor.base_domain p')
                     (HTMLPageProcessor.processed p' ++ [u])))
        as (Hv' & Hp' & _).
      cbn in Hv', Hp'. by rewrite Hv', Hp'.
  - destruct (crawl_finishes env p0) as [fuel [final Hloop]].
    exists fuel, final. split; [done|].
    destruct (crawl_loop_rounds env fuel p0 final Hloop) as [E Hq].
    split; [done|]. split; [done|].
    unfold HTMLPageProcessor.find_annual_reports. by rewrite Hstart, Hloop.
Qed.

Lemma each_url_processed_once_witness :
  let env := urllib.environment Scenario.report_net in
  let p0 := HTMLPageProcessor.mkProcessor (HTTPClient.mkClient ∅ 0 [])
              [("https://a.example.com/investors", 0%nat)] ∅ [] 2
              (Some "example.com") [] in
  NoDup (HTMLPageProcessor.processed (HTMLPageProcessor.crawl_rounds env 3 p0)).
Proof.
  intros env p0.
  exact (proj1 (each_url_processed_once env "https://a.example.com/investors"
                  Scenario.fresh p0 3 eq_refl)).
Defined.

(** C1 as stated fails: a page that arrives is requested a second time by
    the header check, so the only URL of this crawl is fetched over the
    network twice. *)
Lemma page_fetched_twice_counterexample :
  let seed : string := "https://a.example.com/investors" in
  (HTTPClient.log ∘ HTMLPageProcessor.http_client)
    <$> Scenario.crawl Scenario.lonely_net seed 1
  = Some [HTTPClient.Fetch seed; HTTPClient.Get seed;
          HTTPClient.Fetch seed; HTTPClient.Get seed]
  ∧ HTTPClient.gets seed
      [HTTPClient.Fetch seed; HTTPClient.Get seed;
       HTTPClient.Fetch seed; HTTPClient.Get seed] = 2%nat.
Proof. split; vm_compute; reflexivity. Qed.

(** X24.  In a crawl whose seed has a non-empty base domain, every URL
    that is queued, processed or requested has the base domain of the
    seed, as the crawler computes it; for a netloc of the shape host or
    host:port this base domain is the registrable domain of the host, its
    last two labels; so among URLs of that shape only those with the
    registrable domain of the seed are queued.  Without a base domain the
    check lets every link pass.  A crawl whose seed has the netloc
    a.example.com never queues or requests a URL whose netloc is
    evil.com, and https://investors.example.com/y passes the check and is
    queued when the seed page links to it. *)
Theorem crawl_stays_in_domain :
  (∀ (env : HTMLPageProcessor.Environment) (seed : string)
     (p p0 : HTMLPageProcessor.Processor) (n : nat) (u : string),
     HTMLPageProcessor.start_crawl env seed p = Some p0 →
     Str.truthy (HTMLPageProcessor.base_domain p0) = true →
     let p' := HTMLPageProcessor.crawl_rounds env n p0 in
     u ∈ (HTMLPageProcessor.url_queue p').*1
     ∨ u ∈ HTMLPageProcessor.processed p'
     ∨ (∃ events,
          HTTPClient.log (HTMLPageProcessor.http_client p')
          = HTTPClient.log (HTMLPageProcessor.http_client p) ++ events
          ∧ (HTTPClient.Fetch u ∈ events ∨ HTTPClient.Get u ∈ events)) →
     HTMLPageProcessor._extract_base_domain env u
     = HTMLPageProcessor._extract_base_domain env seed)
  ∧ (∀ netloc : string,
       Spec.plain_authority netloc →
       HTMLPageProcessor.base_domain_of_netloc netloc
       = Spec.registrable_domain (urllib.hostname netloc))
  ∧ (∀ (env : HTMLPageProcessor.Environment) (seed : string)
       (p p0 : HTMLPageProcessor.Processor) (n : nat) (u netloc_seed netloc_u : string),
       HTMLPageProcessor.urlparse_netloc env seed = Some netloc_seed →
       HTMLPageProcessor.urlparse_netloc env u = Some netloc_u →
       Spec.plain_authority netloc_seed →
       Spec.plain_authority netloc_u →
       Spec.registrable_domain (urllib.hostname netloc_seed) ≠ EmptyString →
       HTMLPageProcessor.start_crawl env seed p = Some p0 →
       let p' := HTMLPageProcessor.crawl_rounds env n p0 in
       u ∈ (HTMLPageProcessor.url_queue p').*1
       ∨ u ∈ HTMLPageProcessor.processed p'
       ∨ (∃ events,
            HTTPClient.log (HTMLPageProcessor.http_client p')
            = HTTPClient.log (HTMLPageProcessor.http_client p) ++ events
            ∧ (HTTPClient.Fetch u ∈ events ∨ HTTPClient.Get u ∈ events)) →
       Spec.registrable_domain (urllib.hostname netloc_u)
       = Spec.registrable_domain (urllib.hostname netloc_seed))
  ∧ (∀ (env : HTMLPageProcessor.Environment) (u : string),
       HTMLPageProcessor._is_same_domain env None u = true
       ∧ HTMLPageProcessor._is_same_domain env (Some EmptyString) u = true)
  ∧ (∀ (env : HTMLPageProcessor.Environment)
       (p p0 : HTMLPageProcessor.Processor) (n : nat) (seed evil : string),
       HTMLPageProcessor.urlparse_netloc env seed = Some "a.example.com" →
       HTMLPageProcessor.urlparse_netloc env evil = Some "evil.com" →
       HTMLPageProcessor.start_crawl env seed p = Some p0 →
       let p' := HTMLPageProcessor.crawl_rounds env n p0 in
       (evil ∉ (HTMLPageProcessor.url_queue p').*1)
       ∧ (evil ∉ HTMLPageProcessor.processed p')
       ∧ ∀ events,
           HTTPClient.log (HTMLPageProcessor.http_client p')
           = HTTPClient.log (HTMLPageProcessor.http_client p) ++ events →
           (HTTPClient.Fetch evil ∉ events) ∧ (HTTPClient.Get evil ∉ events))
  ∧ HTMLPageProcessor._is_same_domain (urllib.environment Scenario.domains_net)
      (Some "example.com") Scenario.sister_url = true
  ∧ (Scenario.sister_url, 1%nat)
    ∈ Scenario.queue_after_seed Scenario.domains_net Scenario.seed_url
  ∧ (∀ depth, (Scenario.foreign_url, depth)
              ∉ Scenario.queue_after_seed Scenario.domains_net Scenario.seed_url).
Proof.
  split; [|split; [|split; [|split; [|split; [|split; [|split]]]]]].
  - intros env seed p p0 n u Hstart Ht p' Hu.
    by apply (crawl_in_domain env seed p p0 n u).
  - apply base_domain_refines.
  - intros env seed p p0 n u netloc_seed netloc_u Hs Hu Hps Hpu Hne Hstart p' Hin.
    assert (Es : HTMLPageProcessor._extract_base_domain env seed
                 = Some (Spec.registrable_domain (urllib.hostname netloc_seed))).
    { unfold HTMLPageProcessor._extract_base_domain. rewrite Hs.
      simpl. by rewrite base_domain_refines. }
    assert (Eu : HTMLPageProcessor._extract_base_domain env u
                 = Some (Spec.registrable_domain (urllib.hostname netloc_u))).
    { unfold HTMLPageProcessor._extract_base_domain. rewrite Hu.
      simpl. by rewrite base_domain_refines. }
    assert (Ht : Str.truthy (HTMLPageProcessor.base_domain p0) = true).
    { destruct (start_crawl_inv env seed p p0 Hstart) as (_ & -> & _).
      rewrite Es. unfold Str.truthy.
      by destruct (Spec.registrable_domain (urllib.hostname netloc_seed)). }
    pose proof (crawl_in_domain env seed p p0 n u Hstart Ht Hin) as E.
    rewrite Es, Eu in E. by injection E.
  - intros env u. done.
  - intros env p p0 n seed evil Hnseed Hnevil Hstart p'.
    assert (Hseed : HTMLPageProcessor._extract_base_domain env seed
                    = Some "example.com").
    { unfold HTMLPageProcessor._extract_base_domain. rewrite Hnseed.
      vm_compute. reflexivity. }
    assert (Hevil : HTMLPageProcessor._extract_base_domain env evil = Some "evil.com").
    { unfold HTMLPageProcessor._extract_base_domain. rewrite Hnevil.
      vm_compute. reflexivity. }
    assert (Ht : Str.truthy (HTMLPageProcessor.base_domain p0) = true).
    { destruct (start_crawl_inv env _ p p0 Hstart) as (_ & -> & _).
      by rewrite Hseed. }
    assert (Hno : ¬ (evil ∈ (HTMLPageProcessor.url_queue p').*1
                     ∨ evil ∈ HTMLPageProcessor.processed p'
                     ∨ (∃ events,
                          HTTPClient.log (HTMLPageProcessor.http_client p')
                          = HTTPClient.log (HTMLPageProcessor.http_client p) ++ events
                          ∧ (HTTPClient.Fetch evil ∈ events
                             ∨ HTTPClient.Get evil ∈ events)))).
    { intros Hu.
      pose proof (crawl_in_domain env _ p p0 n evil Hstart Ht Hu) as E.
      rewrite Hseed, Hevil in E. discriminate. }
    split; [|split].
    + intros H. apply Hno. by left.
    + intros H. apply Hno. right. by left.
    + intros events Hl. split; intros H; apply Hno; right; right;
        exists events; (split; [done|]); [by left|by right].
  - vm_compute. reflexivity.
  - assert (E : Scenario.queue_after_seed Scenario.domains_net Scenario.seed_url
                = [(Scenario.sister_url, 1%nat); (Scenario.disguised_url, 1%nat)])
      by (vm_compute; reflexivity).
    rewrite E. left.
  - intros depth.
    assert (E : Scenario.queue_after_seed Scenario.domains_net Scenario.seed_url
                = [(Scenario.sister_url, 1%nat); (Scenario.disguised_url, 1%nat)])
      by (vm_compute; reflexivity).
    rewrite E. intros H.
    apply elem_of_cons in H as [H|H]; [discriminate|].
    apply list_elem_of_singleton in H. discriminate.
Qed.

Lemma crawl_stays_in_domain_witness :
  let env := urllib.environment Scenario.domains_net in
  let p0 := HTMLPageProcessor.mkProcessor (HTTPClient.mkClient ∅ 0 [])
              [(Scenario.seed_url, 0%nat)] ∅ [] 2 (Some "example.com") [] in
  HTMLPageProcessor._extract_base_domain env Scenario.sister_url
  = HTMLPageProcessor._extract_base_domain env Scenario.seed_url.
Proof.
  intros env p0.
  refine (proj1 crawl_stays_in_domain env Scenario.seed_url Scenario.fresh p0 1%nat
            Scenario.sister_url eq_refl eq_refl _).
  left. vm_compute. left.
Defined.

(** C8 on the code.  The link path drops a candidate whose URL is already
    among the found documents, but the header path appends without
    looking.  A page links to a PDF of the same site: the link gives a
    first entry, the PDF is then crawled like any other link and its
    [Content-Type] gives a second entry with the same URL.  A PDF served
    with a [Content-Disposition] file name gets two equal entries from a
    single response. *)
Theorem header_path_adds_duplicates :
  HTMLPageProcessor.find_annual_reports (urllib.environment Scenario.report_net) 2
    "https://a.example.com/investors" Scenario.fresh
  = Some [mkDoc Scenario.report_url "Annual Report 2022" "" (Some 2022);
          mkDoc Scenario.report_url "Annual_Report_2022.pdf" "" (Some 2022)]
  ∧ HTMLPageProcessor.find_annual_reports (urllib.environment Scenario.attachment_net) 1
      Scenario.report_url Scenario.fresh
    = Some [mkDoc Scenario.report_url "Annual_Report_2022.pdf" "" (Some 2022);
            mkDoc Scenario.report_url "Annual_Report_2022.pdf" "" (Some 2022)]
  ∧ ¬ NoDup (models.url
               <$> [mkDoc Scenario.report_url "Annual Report 2022" "" (Some 2022);
                    mkDoc Scenario.report_url "Annual_Report_2022.pdf" "" (Some 2022)]).
Proof.
  split; [vm_compute; reflexivity|]. split; [vm_compute; reflexivity|].
  intros H. apply NoDup_cons in H as [H _]. apply H. left.
Qed.

(** * Further properties of the code *)

(** ** The fetcher: its memory of failures *)

Section ClientFacts.
Import HTTPClient ClientLogic.
Variable net : nat → string → Outcome.

Lemma attempt_loop_problematic_mono attempts url c :
  problematic_urls c ⊆ problematic_urls (attempt_loop net attempts url c).2.
Proof.
  revert c. induction attempts as [|attempt rest IH]; intros c; simpl; [done|].
  destruct (net (clock c) url); simpl; try done.
  - case_decide; simpl.
    + etrans; [|apply IH]. done.
    + set_solver.
  - set_solver.
Qed.

Lemma make_request_problematic_mono url c :
  problematic_urls c ⊆ problematic_urls (make_request net url c).2.
Proof.
  unfold make_request. case_decide; [done|].
  etrans; [|apply attempt_loop_problematic_mono]. done.
Qed.

Lemma requests_problematic_mono urls c :
  problematic_urls c ⊆ problematic_urls (requests net urls c).
Proof.
  revert c. induction urls as [|u urls IH]; intros c; [done|].
  simpl. etrans; [apply (make_request_problematic_mono u)|apply IH].
Qed.

Lemma make_request_none_marks url c :
  (make_request net url c).1 = NoResponse →
  url ∈ problematic_urls (make_request net url c).2.
Proof.
  unfold make_request. case_decide; [done|]. simpl.
  destruct (net (clock c) url); simpl; try done; [|set_solver].
  destruct (net (S (clock c)) url); simpl; try done; [|set_solver].
  destruct (net (S (S (clock c))) url); simpl; try done; set_solver.
Qed.

Lemma make_request_skips url c :
  url ∈ problematic_urls c → make_request net url c = (NoResponse, c).
Proof. intros H. unfold make_request. by rewrite decide_True. Qed.

End ClientFacts.

(** X1.  A call of [make_request] that returns nothing leaves its URL in
    the set of problematic URLs, whatever made it fail; the set never
    shrinks; so after such a call, and after any further calls for any
    URLs on the same client, a call for that URL returns nothing at once:
    it neither touches the network nor changes the client. *)
Theorem failed_url_is_not_requested_again :
  ∀ (net net' : nat → string → HTTPClient.Outcome) (url : string)
    (c : HTTPClient.Client) (urls : list string),
    (HTTPClient.make_request net url c).1 = HTTPClient.NoResponse →
    let c1 := (HTTPClient.make_request net url c).2 in
    let c2 := ClientLogic.requests net' urls c1 in
    url ∈ HTTPClient.problematic_urls c1
    ∧ HTTPClient.problematic_urls c ⊆ HTTPClient.problematic_urls c1
    ∧ HTTPClient.make_request net' url c2 = (HTTPClient.NoResponse, c2).
Proof.
  intros net net' url c urls Hnone c1 c2.
  assert (H1 : url ∈ HTTPClient.problematic_urls c1)
    by by apply make_request_none_marks.
  split; [done|]. split; [apply make_request_problematic_mono|].
  apply make_request_skips.
  by apply (requests_problematic_mono net' urls c1).
Qed.

Lemma failed_url_is_not_requested_again_witness :
  let net : nat → string → HTTPClient.Outcome := λ _ _, HTTPClient.RequestFailure in
  let net' : nat → string → HTTPClient.Outcome :=
    λ _ _, HTTPClient.Returned (HTTPClient.mkResponse "" "" "text/html" []) in
  let c1 := (HTTPClient.make_request net "https://a.example.com/x"
               (HTTPClient.mkClient ∅ 0 [])).2 in
  let c2 := ClientLogic.requests net' ["https://a.example.com/y"] c1 in
  HTTPClient.make_request net' "https://a.example.com/x" c2
  = (HTTPClient.NoResponse, c2).
Proof.
  intros net net'.
  exact (proj2 (proj2 (failed_url_is_not_requested_again net net'
                         "https://a.example.com/x" (HTTPClient.mkClient ∅ 0 [])
                         ["https://a.example.com/y"] eq_refl))).
Defined.

(** X2.  For a URL that is not marked as problematic, [make_request]
    returns the response of the first attempt that does not end in a
    transient failure, provided it is one of the first three and it
    returns a response: after [k] transient failures the call has issued
    [k + 1] GETs, slept the first [k] of the delays 1, 2, and it does not
    mark the URL.  Conversely, a call that returns a response had such an
    attempt. *)
Theorem make_request_first_answer :
  (∀ (net : nat → string → HTTPClient.Outcome) (url : string)
     (c : HTTPClient.Client) (k : nat) (response : HTTPClient.Response),
     url ∉ HTTPClient.problematic_urls c →
     (k < 3)%nat →
     (∀ j, (j < k)%nat →
           net (HTTPClient.clock c + j)%nat url = HTTPClient.TransientFailure) →
     net (HTTPClient.clock c + k)%nat url = HTTPClient.Returned response →
     let result := HTTPClient.make_request net url c in
     result.1 = HTTPClient.Resp response
     ∧ HTTPClient.problematic_urls result.2 = HTTPClient.problematic_urls c
     ∧ HTTPClient.clock result.2 = (HTTPClient.clock c + k + 1)%nat
     ∧ ∃ events,
         HTTPClient.log result.2 = HTTPClient.log c ++ HTTPClient.Fetch url :: events
         ∧ HTTPClient.all_gets events = replicate (S k) url
         ∧ HTTPClient.sleeps events = take k [1; 2])
  ∧ (∀ (net : nat → string → HTTPClient.Outcome) (url : string)
       (c : HTTPClient.Client) (response : HTTPClient.Response),
       (HTTPClient.make_request net url c).1 = HTTPClient.Resp response →
       (url ∉ HTTPClient.problematic_urls c)
       ∧ ∃ k, (k < 3)%nat
              ∧ (∀ j, (j < k)%nat →
                      net (HTTPClient.clock c + j)%nat url
                      = HTTPClient.TransientFailure)
              ∧ net (HTTPClient.clock c + k)%nat url
                = HTTPClient.Returned response).
Proof.
  split.
  - intros net url c k response Hfresh Hk Htrans Hret result. subst result.
    unfold HTTPClient.make_request. rewrite decide_False by done.
    destruct k as [|[|[|k]]]; [| | |lia].
    + rewrite Nat.add_0_r in Hret. simpl. rewrite Hret. simpl.
      repeat split; [lia|]. eexists. rewrite <- app_assoc. split; [reflexivity|].
      done.
    + pose proof (Htrans 0%nat ltac:(lia)) as H0. rewrite Nat.add_0_r in H0.
      replace (HTTPClient.clock c + 1)%nat with (S (HTTPClient.clock c)) in Hret by lia.
      simpl. rewrite H0. simpl. rewrite Hret. simpl.
      repeat split; [lia|]. eexists. rewrite <- !app_assoc. split; [reflexivity|].
      done.
    + pose proof (Htrans 0%nat ltac:(lia)) as H0. rewrite Nat.add_0_r in H0.
      pose proof (Htrans 1%nat ltac:(lia)) as H1.
      replace (HTTPClient.clock c + 1)%nat with (S (HTTPClient.clock c)) in H1 by lia.
      replace (HTTPClient.clock c + 2)%nat with (S (S (HTTPClient.clock c))) in Hret by lia.
      simpl. rewrite H0. simpl. rewrite H1. simpl. rewrite Hret. simpl.
      repeat split; [lia|]. eexists. rewrite <- !app_assoc. split; [reflexivity|].
      done.
  - intros net url c response. unfold HTTPClient.make_request.
    case_decide as Hp; [done|]. simpl. intros H. split; [done|].
    destruct (net (HTTPClient.clock c) url) as [r0| | |] eqn:E0; simpl in H; try done.
    { exists 0%nat. rewrite Nat.add_0_r. split; [lia|]. split; [intros j Hj; lia|].
      congruence. }
    destruct (net (S (HTTPClient.clock c)) url) as [r1| | |] eqn:E1; simpl in H; try done.
    { exists 1%nat. split; [lia|]. split.
      - intros j Hj. replace j with 0%nat by lia. by rewrite Nat.add_0_r.
      - replace (HTTPClient.clock c + 1)%nat with (S (HTTPClient.clock c)) by lia.
        congruence. }
    destruct (net (S (S (HTTPClient.clock c))) url) as [r2| | |] eqn:E2; simpl in H; try done.
    exists 2%nat. split; [lia|]. split.
    + intros j Hj. destruct j as [|[|j]]; [by rewrite Nat.add_0_r| |lia].
      by replace (HTTPClient.clock c + 1)%nat with (S (HTTPClient.clock c)) by lia.
    + replace (HTTPClient.clock c + 2)%nat with (S (S (HTTPClient.clock c))) by lia.
      congruence.
Qed.

Lemma make_request_first_answer_witness :
  let page := HTTPClient.mkResponse "" "" "text/html" [] in
  let net : nat → string → HTTPClient.Outcome :=
    λ n _, if decide (n < 2)%nat then HTTPClient.TransientFailure
           else HTTPClient.Returned page in
  (HTTPClient.make_request net "https://a.example.com/x"
     (HTTPClient.mkClient ∅ 0 [])).1 = HTTPClient.Resp page.
Proof.
  intros page net.
  refine (proj1 (proj1 make_request_first_answer net "https://a.example.com/x"
                   (HTTPClient.mkClient ∅ 0 []) 2%nat page _ _ _ _)).
  - simpl. apply not_elem_of_empty.
  - lia.
  - intros j Hj. simpl. unfold net. by rewrite decide_True by lia.
  - reflexivity.
Defined.

(** ** Strings: classes, prefixes and suffixes *)

Section StripFacts.
Import Str StrLogic HTMLPageProcessor.

Lemma all_chars_app keep a b :
  all_chars keep (a +:+ b) = all_chars keep a && all_chars keep b.
Proof. induction a as [|c a IH]; simpl; [done|]. by rewrite IH, andb_assoc. Qed.

Lemma all_chars_impl (keep1 keep2 : ascii → bool) s :
  (∀ c, keep1 c = true → keep2 c = true) →
  all_chars keep1 s = true → all_chars keep2 s = true.
Proof.
  intros Himp. induction s as [|c s IH]; simpl; [done|].
  intros [H1 H2]%andb_true_iff. by rewrite (Himp c H1), IH.
Qed.

Lemma span_all keep s : all_chars keep (span keep s) = true.
Proof.
  induction s as [|c s IH]; simpl; [done|].
  destruct (keep c) eqn:E; simpl; [by rewrite E|done].
Qed.

Lemma span_after keep s : s = span keep s +:+ after_span keep s.
Proof.
  induction s as [|c s IH]; simpl; [done|].
  destruct (keep c); simpl; [by rewrite <- IH|done].
Qed.

Lemma slice_from_suffix n s : ∃ a, s = a +:+ slice_from n s.
Proof.
  revert s. induction n as [|n IH]; intros s; simpl; [by exists EmptyString|].
  destruct s as [|c s]; [by exists EmptyString|].
  destruct (IH s) as [a Ha]. exists (String c a). simpl. by rewrite <- Ha.
Qed.

Lemma lstrip_suffix k s : ∃ a, s = a +:+ lstrip k s.
Proof.
  induction s as [|c s IH]; simpl; [by exists EmptyString|].
  destruct (k c); [|by exists EmptyString].
  destruct IH as [a Ha]. exists (String c a). simpl. by rewrite <- Ha.
Qed.

Lemma lstrip_first k s c : first_char (lstrip k s) = Some c → k c = false.
Proof.
  induction s as [|x s IH]; simpl; [done|].
  destruct (k x) eqn:E; [done|]. simpl. by intros [= <-].
Qed.

Lemma rstrip_prefix k s : ∃ b, s = rstrip k s +:+ b.
Proof.
  induction s as [|c s IH]; simpl; [by exists EmptyString|].
  destruct IH as [b Hb].
  destruct (rstrip k s) as [|x r] eqn:E.
  - destruct (k c); [by exists (String c s)|]. exists s. done.
  - exists b. simpl. by rewrite Hb at 1.
Qed.

Lemma rstrip_last k s c : last_char (rstrip k s) = Some c → k c = false.
Proof.
  induction s as [|x s IH]; simpl; [done|].
  destruct (rstrip k s) as [|y r] eqn:E.
  - destruct (k x) eqn:Ex; simpl; [done|]. by intros [= <-].
  - simpl. simpl in IH. done.
Qed.

Lemma rstrip_first k s c :
  first_char (rstrip k s) = Some c → first_char s = Some c.
Proof.
  destruct (rstrip_prefix k s) as [b Hb]. intros H.
  destruct (rstrip k s) as [|x r]; [done|]. rewrite Hb. done.
Qed.

Lemma strip_ends k s c :
  first_char (strip k s) = Some c ∨ last_char (strip k s) = Some c → k c = false.
Proof.
  unfold strip. intros [H|H].
  - by apply rstrip_first, lstrip_first in H.
  - by apply rstrip_last in H.
Qed.

Lemma strip_part k s : ∃ a b, s = a +:+ strip k s +:+ b.
Proof.
  unfold strip. destruct (lstrip_suffix k s) as [a Ha].
  destruct (rstrip_prefix k (lstrip k s)) as [b Hb].
  exists a, b. by rewrite <- Hb.
Qed.

Lemma all_chars_part keep a s b :
  all_chars keep (a +:+ s +:+ b) = true → all_chars keep s = true.
Proof.
  rewrite !all_chars_app. intros [_ [H _]%andb_true_iff]%andb_true_iff. done.
Qed.

Lemma re_search_suffix match_here s group :
  re_search match_here s = Some group →
  ∃ a t, s = a +:+ t ∧ match_here t = Some group.
Proof.
  induction s as [|c s IH]; simpl.
  - destruct (match_here EmptyString) eqn:E; [|done].
    intros [= <-]. by exists EmptyString, EmptyString.
  - destruct (match_here (String c s)) eqn:E.
    + intros [= <-]. by exists EmptyString, (String c s).
    + intros H. destruct (IH H) as (a & t & -> & Ht). by exists (String c a), t.
Qed.

Lemma re_search_none match_here s :
  (∀ a t, s = a +:+ t → match_here t = None) → re_search match_here s = None.
Proof.
  induction s as [|c s IH]; intros H; simpl.
  - by rewrite (H EmptyString EmptyString).
  - rewrite (H EmptyString (String c s)) by done. apply IH.
    intros a t ->. by apply (H (String c a) t).
Qed.

End StripFacts.

(** ** The file name of a [Content-Disposition] header *)

Section DispositionFacts.
Import Str StrLogic HTMLPageProcessor.

Lemma match_filename_eq_suffix s rest :
  match_filename_eq s = Some rest →
  startswith "filename" (lower s) = true ∧ ∃ a, s = a +:+ rest.
Proof.
  unfold match_filename_eq.
  destruct (startswith "filename" (lower s)) eqn:E; [|done].
  destruct (slice_from_suffix 8 s) as [a Ha].
  set (r := slice_from 8 s) in *. clearbody r.
  destruct (startswith "*=" r) eqn:E1.
  - destruct (slice_from_suffix 1 r) as [a1 Ha1].
    set (r1 := slice_from 1 r) in *. clearbody r1.
    destruct (slice_from_suffix 1 r1) as [a2 Ha2].
    set (r2 := slice_from 1 r1) in *. clearbody r2.
    destruct (startswith "=" r1); [|done]. intros [= <-]. split; [done|].
    exists (a +:+ a1 +:+ a2). rewrite !app_assoc_s. by rewrite <- Ha2, <- Ha1.
  - destruct (slice_from_suffix 1 r) as [a1 Ha1].
    set (r1 := slice_from 1 r) in *. clearbody r1.
    destruct (startswith "=" r); [|done]. intros [= <-]. split; [done|].
    exists (a +:+ a1). rewrite app_assoc_s. by rewrite <- Ha1.
Qed.

Lemma span_part keep s : ∃ b, s = span keep s +:+ b.
Proof. exists (after_span keep s). apply span_after. Qed.

Lemma match_pattern1_group s group :
  match_pattern1 s = Some group →
  startswith "filename" (lower s) = true
  ∧ all_chars is_value_char group = true
  ∧ ∃ a b, s = a +:+ group +:+ b.
Proof.
  unfold match_pattern1.
  destruct (match_filename_eq s) as [rest|] eqn:E; [|done].
  apply match_filename_eq_suffix in E as [Hs [a Ha]].
  set (keep := λ c, negb (is_quote c || Ascii.eqb c ";" || is_space c)).
  assert (Himp : ∀ c, keep c = true → is_value_char c = true).
  { intros c. unfold keep, is_value_char.
    destruct (is_quote c), (Ascii.eqb c ";"), (is_space c); done. }
  assert (Hgen : ∀ a' rest',
             s = a' +:+ rest' →
             match span keep rest' with
             | EmptyString => None
             | group0 => Some group0
             end = Some group →
             startswith "filename" (lower s) = true
             ∧ all_chars is_value_char group = true
             ∧ ∃ a b, s = a +:+ group +:+ b).
  { intros a' rest' Hs' H.
    assert (Hg : span keep rest' = group) by (destruct (span keep rest'); congruence).
    split; [done|]. split.
    - rewrite <- Hg. eapply all_chars_impl; [exact Himp|apply span_all].
    - destruct (span_part keep rest') as [b Hb]. exists a', b.
      by rewrite <- Hg, <- Hb. }
  destruct rest as [|c rest'].
  - apply (Hgen a EmptyString Ha).
  - destruct (is_quote c).
    + apply (Hgen (a +:+ String c EmptyString) rest').
      rewrite app_assoc_s. done.
    + apply (Hgen a (String c rest') Ha).
Qed.

Lemma match_pattern2_group s group :
  match_pattern2 s = Some group →
  startswith "filename" (lower s) = true
  ∧ all_chars is_value_char group = true
  ∧ ∃ a b, s = a +:+ group +:+ b.
Proof.
  unfold match_pattern2.
  destruct (match_filename_eq s) as [rest|] eqn:E; [|done].
  apply match_filename_eq_suffix in E as [Hs [a Ha]].
  intros H.
  set (keep := λ c, negb (Ascii.eqb c ";" || is_space c)) in *.
  assert (Hg : span keep rest = group) by (destruct (span keep rest); congruence).
  split; [done|]. split.
  - rewrite <- Hg. apply span_all.
  - destruct (span_part keep rest) as [b Hb]. exists a, b.
    by rewrite <- Hg, <- Hb.
Qed.

(** What [.strip()] and the stripping of quotes make of a group. *)
Lemma finish_group group :
  let filename := strip is_quote (strip is_space group) in
  all_chars is_value_char group = true →
  all_chars is_value_char filename = true
  ∧ (∀ c, first_char filename = Some c ∨ last_char filename = Some c →
          is_quote c = false)
  ∧ ∃ a b, group = a +:+ filename +:+ b.
Proof.
  intros filename Hall. subst filename.
  destruct (strip_part is_space group) as (a1 & b1 & H1).
  destruct (strip_part is_quote (strip is_space group)) as (a2 & b2 & H2).
  split; [|split].
  - apply (all_chars_part _ a2 _ b2). rewrite <- H2.
    apply (all_chars_part _ a1 _ b1). by rewrite <- H1.
  - intros c. apply strip_ends.
  - exists (a1 +:+ a2), (b2 +:+ b1). rewrite H1 at 1. rewrite H2 at 1.
    by rewrite !app_assoc_s.
Qed.

Lemma disposition_filename disposition filename :
  _extract_filename_from_disposition disposition = Some filename →
  contains "filename" (lower disposition) = true
  ∧ all_chars is_value_char filename = true
  ∧ (∀ c, first_char filename = Some c ∨ last_char filename = Some c →
          is_quote c = false)
  ∧ contains filename disposition = true.
Proof.
  unfold _extract_filename_from_disposition.
  assert (Hgen : ∀ match_here group,
             (∀ s g, match_here s = Some g →
                     startswith "filename" (lower s) = true
                     ∧ all_chars is_value_char g = true
                     ∧ ∃ a b, s = a +:+ g +:+ b) →
             re_search match_here disposition = Some group →
             Some (strip is_quote (strip is_space group)) = Some filename →
             contains "filename" (lower disposition) = true
             ∧ all_chars is_value_char filename = true
             ∧ (∀ c, first_char filename = Some c ∨ last_char filename = Some c →
                     is_quote c = false)
             ∧ contains filename disposition = true).
  { intros match_here group Hm Hs [= <-].
    apply re_search_suffix in Hs as (a & t & -> & Ht).
    apply Hm in Ht as (Hst & Hall & (a1 & b1 & ->)).
    destruct (finish_group group Hall) as (Hall' & Hends & (a2 & b2 & Hg)).
    split; [|split; [done|split; [done|]]].
    - apply startswith_spec in Hst as [t Ht]. apply contains_spec.
      exists (lower a), t. by rewrite lower_app, Ht.
    - apply contains_spec. exists (a +:+ a1 +:+ a2), (b2 +:+ b1).
      rewrite Hg at 1. by rewrite !app_assoc_s. }
  destruct (re_search match_pattern1 disposition) as [g1|] eqn:E1.
  - apply (Hgen match_pattern1 g1); [apply match_pattern1_group|done].
  - destruct (re_search match_pattern2 disposition) as [g2|] eqn:E2; [|done].
    apply (Hgen match_pattern2 g2); [apply match_pattern2_group|done].
Qed.

End DispositionFacts.

(** X3.  Header values reach [_extract_filename_from_disposition] as
    the HTTP library decodes them, as texts of characters below U+0100.
    On such a value, a file name that the function returns is a part of
    the value, has no semicolon and no white space in it (no character
    of the class [\s], which has the next-line character U+0085 and the
    no-break space U+00A0), and neither begins nor ends with a quote; so
    a file name with a blank or a no-break space in it comes back cut
    there.  A value in which the word filename does not occur, in either
    case of its letters, gives no file name. *)
Theorem disposition_filename_shape :
  (∀ disposition filename : string,
     HTMLPageProcessor._extract_filename_from_disposition disposition = Some filename →
     Str.contains filename disposition = true
     ∧ StrLogic.all_chars StrLogic.is_value_char filename = true
     ∧ (∀ c, StrLogic.first_char filename = Some c
             ∨ StrLogic.last_char filename = Some c →
             HTMLPageProcessor.is_quote c = false))
  ∧ (∀ disposition : string,
       Str.contains "filename" (Str.lower disposition) = false →
       HTMLPageProcessor._extract_filename_from_disposition disposition = None)
  ∧ HTMLPageProcessor._extract_filename_from_disposition
      "attachment; filename=Annual Report 2022.pdf; size=1024"
    = Some "Annual"
  ∧ HTMLPageProcessor._extract_filename_from_disposition
      ("attachment; filename=Annual" +:+ String "160" "Report.pdf")
    = Some "Annual"
  ∧ HTMLPageProcessor._extract_filename_from_disposition
      ("attachment; filename=Annual" +:+ String "133" "Report.pdf")
    = Some "Annual".
Proof.
  split; [|split; [|repeat split; vm_compute; reflexivity]].
  - intros disposition filename H.
    apply disposition_filename in H as (_ & Hall & Hends & Hpart). done.
  - intros disposition Hnone.
    destruct (HTMLPageProcessor._extract_filename_from_disposition disposition)
      as [filename|] eqn:E; [|done].
    apply disposition_filename in E as (Hc & _). congruence.
Qed.

Lemma disposition_filename_shape_witness :
  Str.contains "Annual_Report_2022.pdf"
    "attachment; filename=Annual_Report_2022.pdf" = true.
Proof.
  exact (proj1 (proj1 disposition_filename_shape
                  "attachment; filename=Annual_Report_2022.pdf"
                  "Annual_Report_2022.pdf" eq_refl)).
Defined.

(** ** [split] and [join] *)

Section SplitFacts.
Import Str StrLogic.

Lemma split_nonempty sep s : split sep s ≠ [].
Proof.
  destruct s as [|c s]; simpl; [done|].
  destruct (Ascii.eqb c sep); [done|]. by destruct (split sep s).
Qed.

Lemma split_app_sep sep a b :
  split sep (a +:+ String sep b) = split sep a ++ split sep b.
Proof.
  induction a as [|c a IH]; simpl.
  - by rewrite Ascii.eqb_refl.
  - rewrite IH. destruct (Ascii.eqb c sep); [done|].
    pose proof (split_nonempty sep a). by destruct (split sep a).
Qed.

Lemma split_no_sep sep s : has_char sep s = false → split sep s = [s].
Proof.
  induction s as [|c s IH]; simpl; [done|].
  intros [H1 H2]%orb_false_iff. rewrite Ascii.eqb_sym in H1.
  by rewrite H1, IH.
Qed.

Lemma split_pieces_no_sep sep s :
  Forall (λ piece, has_char sep piece = false) (split sep s).
Proof.
  induction s as [|c s IH]; simpl; [by repeat constructor|].
  destruct (Ascii.eqb c sep) eqn:E; [by constructor|].
  pose proof (split_nonempty sep s).
  destruct (split sep s) as [|piece pieces]; [done|].
  apply Forall_cons in IH as [H1 H2]. constructor; [|done].
  simpl. rewrite Ascii.eqb_sym in E. by rewrite E, H1.
Qed.


Lemma split_join sep parts :
  parts ≠ [] →
  Forall (λ piece, has_char sep piece = false) parts →
  split sep (join (String sep EmptyString) parts) = parts.
Proof.
  induction parts as [|p [|q ps] IH]; [done|..]; intros _ Hall.
  - apply Forall_cons in Hall as [Hp _]. simpl. by apply split_no_sep.
  - apply Forall_cons in Hall as [Hp Hall].
    change (join (String sep EmptyString) (p :: q :: ps))
      with (p +:+ String sep (join (String sep EmptyString) (q :: ps))).
    rewrite split_app_sep, (split_no_sep sep p Hp), IH by done. done.
Qed.

Lemma join_split sep s : join (String sep EmptyString) (split sep s) = s.
Proof.
  induction s as [|c s IH]; simpl; [done|].
  destruct (Ascii.eqb_spec c sep) as [->|Hne].
  - pose proof (split_nonempty sep s).
    destruct (split sep s) as [|piece pieces]; [done|].
    change (join (String sep EmptyString) (EmptyString :: piece :: pieces))
      with (String sep (join (String sep EmptyString) (piece :: pieces))).
    by rewrite IH.
  - pose proof (split_nonempty sep s).
    destruct (split sep s) as [|piece [|piece' pieces]]; [done|..].
    + simpl in *. by rewrite IH.
    + change (join (String sep EmptyString) (String c piece :: piece' :: pieces))
        with (String c (join (String sep EmptyString) (piece :: piece' :: pieces))).
      by rewrite IH.
Qed.

Lemma all_chars_split keep sep s :
  all_chars keep s = true →
  Forall (λ piece, all_chars keep piece = true) (split sep s).
Proof.
  induction s as [|c s IH]; simpl; [by repeat constructor|].
  intros [Hc Hs]%andb_true_iff. specialize (IH Hs).
  destruct (Ascii.eqb c sep); [by constructor|].
  pose proof (split_nonempty sep s).
  destruct (split sep s) as [|piece pieces]; [done|].
  apply Forall_cons in IH as [H1 H2]. constructor; [|done].
  simpl. by rewrite Hc, H1.
Qed.

Lemma all_chars_join keep sep parts :
  all_chars keep sep = true →
  Forall (λ piece, all_chars keep piece = true) parts →
  all_chars keep (join sep parts) = true.
Proof.
  intros Hsep. induction parts as [|p [|q ps] IH]; intros Hall; [done|..].
  - by apply Forall_cons in Hall as [Hp _].
  - apply Forall_cons in Hall as [Hp Hall].
    change (join sep (p :: q :: ps)) with (p +:+ sep +:+ join sep (q :: ps)).
    by rewrite !all_chars_app, Hp, Hsep, IH.
Qed.

Lemma has_char_all_chars c s :
  has_char c s = negb (all_chars (λ x, negb (Ascii.eqb x c)) s).
Proof.
  induction s as [|b s IH]; simpl; [done|].
  rewrite IH, (Ascii.eqb_sym c b).
  by destruct (Ascii.eqb b c), (all_chars _ s).
Qed.

Lemma span_app_all keep a b :
  all_chars keep a = true → span keep (a +:+ b) = a +:+ span keep b.
Proof.
  induction a as [|c a IH]; simpl; [done|].
  intros [Hc Ha]%andb_true_iff. by rewrite Hc, IH.
Qed.

Lemma lower_char_idemp c : lower_char (lower_char c) = lower_char c.
Proof. destruct c as [[] [] [] [] [] [] [] []]; reflexivity. Qed.

Lemma lower_fixed s :
  all_chars (λ c, Ascii.eqb (lower_char c) c) s = true ↔ lower s = s.
Proof.
  induction s as [|c s IH]; simpl; [done|].
  rewrite andb_true_iff, IH. split.
  - intros [H1 ->]. apply Ascii.eqb_eq in H1. by rewrite H1.
  - intros [= H1 H2]. rewrite H1, Ascii.eqb_refl. done.
Qed.

Lemma lower_idemp s : lower (lower s) = lower s.
Proof. induction s as [|c s IH]; simpl; [done|]. by rewrite lower_char_idemp, IH. Qed.

End SplitFacts.

(** ** The base domain *)

Section BaseDomainFacts.
Import Str StrLogic HTMLPageProcessor Spec.

Lemma base_domain_host netloc :
  base_domain_of_netloc netloc
  = registrable_domain (span (λ c, negb (Ascii.eqb c ":")) (lower netloc)).
Proof.
  unfold base_domain_of_netloc, registrable_domain.
  destruct (has_char ":" (lower netloc)) eqn:E.
  - by rewrite head_split.
  - by rewrite (span_no_sep ":" (lower netloc) E).
Qed.

Lemma host_shape netloc :
  let host := span (λ c, negb (Ascii.eqb c ":")) (lower netloc) in
  lower host = host ∧ has_char ":" host = false.
Proof.
  intros host. subst host. split.
  - by rewrite span_colon_lower, lower_idemp.
  - by rewrite has_char_all_chars, span_all.
Qed.

Lemma drop_last_two {A} (l : list A) :
  (2 ≤ length l)%nat → ∃ a b, drop (length l - 2) l = [a; b].
Proof.
  intros Hlen. pose proof (length_drop l (length l - 2)) as Hd.
  destruct (drop (length l - 2) l) as [|a [|b [|c r]]]; simpl in Hd; try lia.
  by exists a, b.
Qed.

Lemma registrable_shape host :
  lower host = host → has_char ":" host = false →
  let d := registrable_domain host in
  lower d = d ∧ has_char ":" d = false
  ∧ (length (split "." d) ≤ 2)%nat
  ∧ registrable_domain d = d.
Proof.
  intros Hlow Hcol d.
  destruct (decide (2 ≤ length (split "." host))%nat) as [Hlen|Hlen].
  - destruct (drop_last_two _ Hlen) as (a & b & Hab).
    assert (Hd : d = join "." [a; b]).
    { unfold d, registrable_domain. by rewrite decide_True, Hab. }
    rewrite Hd. clear Hd d.
    assert (Hin : ∀ x, x ∈ [a; b] → x ∈ split "." host).
    { intros x Hx. rewrite <- Hab in Hx. by apply (subseteq_drop _ _ _ Hx). }
    pose proof (split_pieces_no_sep "." host) as Hdot.
    rewrite Forall_forall in Hdot.
    assert (Hparts : Forall (λ piece, has_char "." piece = false) [a; b]).
    { apply Forall_forall. intros x Hx. by apply Hdot, Hin. }
    assert (Hsplit : split "." (join "." [a; b]) = [a; b])
      by by apply (split_join "." [a; b]).
    split; [|split; [|split]].
    + apply lower_fixed. apply all_chars_join; [done|].
      apply Forall_forall. intros x Hx.
      apply lower_fixed in Hlow.
      pose proof (all_chars_split _ "." host Hlow) as Hall.
      rewrite Forall_forall in Hall. by apply Hall, Hin.
    + rewrite has_char_all_chars. apply negb_false_iff.
      apply all_chars_join; [done|]. apply Forall_forall. intros x Hx.
      rewrite has_char_all_chars in Hcol. apply negb_false_iff in Hcol.
      pose proof (all_chars_split _ "." host Hcol) as Hall.
      rewrite Forall_forall in Hall. by apply Hall, Hin.
    + by rewrite Hsplit.
    + unfold registrable_domain. by rewrite Hsplit.
  - assert (Hd : d = host).
    { unfold d, registrable_domain. by rewrite decide_False. }
    rewrite Hd. clear Hd d.
    split; [done|]. split; [done|]. split; [lia|].
    unfold registrable_domain. by rewrite decide_False.
Qed.




End BaseDomainFacts.

(** X4.  The base domain that [_extract_base_domain] computes from a
    netloc is in lower case, has no colon and at most two dot-separated
    labels, and it is its own base domain: computing the base domain of a
    base domain changes nothing. *)
Theorem base_domain_is_canonical :
  ∀ netloc : string,
    let domain := HTMLPageProcessor.base_domain_of_netloc netloc in
    Str.lower domain = domain
    ∧ Str.has_char ":" domain = false
    ∧ (length (Str.split "." domain) ≤ 2)%nat
    ∧ HTMLPageProcessor.base_domain_of_netloc domain = domain.
Proof.
  intros netloc domain. subst domain. rewrite base_domain_host.
  destruct (host_shape netloc) as [Hlow Hcol].
  destruct (registrable_shape _ Hlow Hcol) as (H1 & H2 & H3 & H4).
  split; [done|]. split; [done|]. split; [done|].
  rewrite base_domain_host, H1, (span_no_sep ":" _ H2). done.
Qed.



(** C7 on the code.  [_extract_base_domain] cuts the netloc at its first
    colon, to remove the port, and never removes user information: what
    follows the first colon plays no part, be it a port or the rest of
    the user information with the host behind it.  A page of the company
    links to https://example.com:x@evil.com/y.  The host of this URL is
    evil.com, whose registrable domain is not that of the seed, but the
    check reads example.com from the user information: the link passes,
    is queued, and the crawl requests it. *)
Theorem userinfo_link_leaves_domain :
  (∀ (env : HTMLPageProcessor.Environment) (url d rest : string),
     HTMLPageProcessor.urlparse_netloc env url = Some (d +:+ String ":" rest) →
     Str.has_char ":" d = false →
     HTMLPageProcessor._extract_base_domain env url
     = Some (Spec.registrable_domain (Str.lower d)))
  ∧ urllib.netloc Scenario.disguised_url = Some "example.com:x@evil.com"
  ∧ urllib.hostname "example.com:x@evil.com" = "evil.com"
  ∧ (urllib.hostname <$> urllib.netloc Scenario.seed_url) = Some "a.example.com"
  ∧ Spec.registrable_domain "evil.com" = "evil.com"
  ∧ Spec.registrable_domain "a.example.com" = "example.com"
  ∧ HTMLPageProcessor._extract_base_domain
      (urllib.environment Scenario.domains_net) Scenario.seed_url
    = Some "example.com"
  ∧ HTMLPageProcessor._extract_base_domain
      (urllib.environment Scenario.domains_net) Scenario.disguised_url
    = Some "example.com"
  ∧ HTMLPageProcessor._is_same_domain (urllib.environment Scenario.domains_net)
      (Some "example.com") Scenario.disguised_url = true
  ∧ Scenario.queue_after_seed Scenario.domains_net Scenario.seed_url
    = [(Scenario.sister_url, 1%nat); (Scenario.disguised_url, 1%nat)]
  ∧ (HTMLPageProcessor.processed
       <$> Scenario.crawl Scenario.domains_net Scenario.seed_url 3)
    = Some [Scenario.seed_url; Scenario.sister_url; Scenario.disguised_url]
  ∧ (HTTPClient.gets Scenario.disguised_url ∘ HTTPClient.log
       ∘ HTMLPageProcessor.http_client
       <$> Scenario.crawl Scenario.domains_net Scenario.seed_url 3)
    = Some 2%nat.
Proof.
  split.
  - intros env url d rest Hnetloc Hd.
    unfold HTMLPageProcessor._extract_base_domain. rewrite Hnetloc.
    cbn [fmap option_fmap option_map]. f_equal.
    rewrite base_domain_host, span_colon_lower. do 2 f_equal.
    rewrite span_app_all.
    + cbn [Str.span Ascii.eqb]. simpl. apply app_nil_r_s.
    + rewrite has_char_all_chars in Hd. by apply negb_false_iff in Hd.
  - repeat split; vm_compute; reflexivity.
Qed.

Lemma userinfo_link_leaves_domain_witness :
  HTMLPageProcessor._extract_base_domain
    (urllib.environment Scenario.domains_net) "https://Example.com:pw@evil.com/y"
  = Some (Spec.registrable_domain (Str.lower "Example.com")).
Proof.
  apply (proj1 userinfo_link_leaves_domain
           (urllib.environment Scenario.domains_net)
           "https://Example.com:pw@evil.com/y" "Example.com" "pw@evil.com");
    reflexivity.
Defined.

(** ** The shape of what a crawl queues and records *)

Section YearRange.
Import Str Classifier.

Lemma extract_year_range text y :
  _extract_year_from_text text = Some y → 2000 ≤ y ≤ 2099.
Proof.
  rewrite extract_year_is_last.
  intros (m & -> & Hin)%last_Some_elem_of%list_elem_of_fmap.
  pose proof (findall_20dd_from_range 0 text) as Hr.
  rewrite Forall_forall in Hr. by apply Hr.
Qed.

Lemma extract_year_truthy text :
  truthy_int (_extract_year_from_text text) = _extract_year_from_text text.
Proof.
  destruct (_extract_year_from_text text) as [y|] eqn:E; [|done].
  apply extract_year_range in E. destruct y; simpl; done || lia.
Qed.

Lemma or_year_range a b y :
  (∀ z, a = Some z → 2000 ≤ z ≤ 2099) →
  (∀ z, b = Some z → 2000 ≤ z ≤ 2099) →
  or_year a b = Some y → 2000 ≤ y ≤ 2099.
Proof.
  unfold or_year. intros Ha Hb. destruct (truthy_int a); intros H; auto.
Qed.

Lemma extract_year_from_link_range link url y :
  _extract_year_from_link link url = Some y → 2000 ≤ y ≤ 2099.
Proof.
  unfold _extract_year_from_link.
  destruct (truthy_int (_extract_year_from_text (link_text link)));
    apply extract_year_range.
Qed.

End YearRange.

Section ShapeFacts.
Import Str Classifier HTTPClient HTMLPageProcessor CrawlShape.
Variable env : Environment.

Lemma recorded_doc url title year :
  (∀ y, year = Some y → 2000 ≤ y ≤ 2099) →
  recorded (mkDoc url title EmptyString year).
Proof. intros H. split; [done|]. simpl. destruct year; auto. Qed.

Section Grows.
Variable ok : string * nat → Prop.

Lemma grows_refl p : grows env ok p p.
Proof.
  constructor; try done.
  - exists []. by rewrite app_nil_r.
  - exists []. by rewrite app_nil_r.
Qed.

Lemma grows_trans p1 p2 p3 :
  grows env ok p1 p2 → grows env ok p2 p3 → grows env ok p1 p3.
Proof.
  intros [Hv1 Hp1 Hm1 Hb1 (n1 & Hq1 & Hf1) Hn1 (d1 & Hd1 & Hr1)]
         [Hv2 Hp2 Hm2 Hb2 (n2 & Hq2 & Hf2) Hn2 (d2 & Hd2 & Hr2)].
  constructor; try congruence.
  - exists (n1 ++ n2). split; [by rewrite Hq2, Hq1, app_assoc|].
    apply Forall_app. split; [done|].
    eapply Forall_impl; [exact Hf2|]. intros item [[Hs Hd] Hok].
    split; [|done]. split; [done|]. by rewrite <- Hb1.
  - auto.
  - exists (d1 ++ d2). split; [by rewrite Hd2, Hd1, app_assoc|].
    by apply Forall_app.
Qed.

Lemma grows_set_client c p : grows env ok p (set_client c p).
Proof.
  constructor; try done.
  - exists []. by rewrite app_nil_r.
  - exists []. by rewrite app_nil_r.
Qed.

Lemma grows_append_document doc p :
  recorded doc → grows env ok p (append_document doc p).
Proof.
  intros Hdoc. constructor; try done.
  - exists []. by rewrite app_nil_r.
  - exists [doc]. split; [done|]. by constructor.
Qed.

Lemma grows_enqueue item p :
  passed env p item → ok item → item.1 ∉ (url_queue p).*1 →
  grows env ok p (enqueue item p).
Proof.
  intros Hpass Hok Hnew. constructor; try done.
  - exists [item]. split; [done|]. constructor; [done|constructor].
  - intros Hnd. cbn. rewrite fmap_app. apply NoDup_app. split; [done|]. split.
    + intros x Hx Hx'. apply list_elem_of_singleton in Hx' as ->. done.
    + apply NoDup_singleton.
  - exists []. by rewrite app_nil_r.
Qed.

Lemma for_each_grows {A} (body : A → Crawl unit) (l : list A) :
  (∀ x p, grows env ok p (body x p).1) →
  ∀ p, grows env ok p (for_each body l p).1.
Proof.
  intros Hbody. induction l as [|x l IH]; intros p; [apply grows_refl|].
  simpl. crawl_unfold. pose proof (Hbody x p) as Hx.
  destruct (body x p) as [p1 [[]|]]; simpl in *; [|done].
  eapply grows_trans; [exact Hx|apply IH].
Qed.

Lemma check_header_grows url header_value p :
  grows env ok p (check_header url header_value p).1.
Proof.
  unfold check_header. crawl_unfold.
  repeat case_match; simpl; auto using grows_refl.
  apply grows_append_document, recorded_doc.
  intros y. apply extract_year_range.
Qed.

Lemma process_document_link_recorded link base_url file_type p doc :
  (_process_document_link env link base_url file_type p).2 = Some (Some doc) →
  recorded doc.
Proof.
  unfold _process_document_link. crawl_unfold.
  repeat case_match; simplify_eq/=; try done;
    intros [= <-]; apply recorded_doc; intros y;
    apply extract_year_from_link_range.
Qed.

Lemma process_links_grows links base_url file_type p :
  grows env ok p (process_links env links base_url file_type p).1.
Proof.
  unfold process_links. apply for_each_grows. clear p. intros link p.
  crawl_unfold.
  pose proof (process_document_link_state env link base_url file_type p) as Hs.
  pose proof (process_document_link_recorded link base_url file_type p) as Hr.
  destruct (_process_document_link env link base_url file_type p)
    as [p1 [[doc|]|]]; simpl in *; subst p1;
    auto using grows_refl, grows_append_document.
Qed.

Lemma find_direct_documents_grows base_url soup p :
  grows env ok p (_find_direct_documents env base_url soup p).1.
Proof.
  unfold _find_direct_documents. crawl_unfold.
  match goal with
  | |- context [process_links env ?l base_url "PDF" p] =>
      pose proof (process_links_grows l base_url "PDF" p) as H1;
      destruct (process_links env l base_url "PDF" p) as [p1 [[]|]]
  end; simpl in *; [|done].
  eapply grows_trans; [exact H1|apply process_links_grows].
Qed.

Lemma check_headers_grows url p :
  grows env ok p (_check_headers_for_documents env url p).
Proof.
  unfold _check_headers_for_documents, check_headers_body, request.
  crawl_unfold.
  destruct (make_request (net env) url (http_client p)) as [[response| |] c1];
    crawl_red; try apply grows_set_client.
  eapply grows_trans; [apply (grows_set_client c1)|].
  set (p1 := set_client c1 p).
  match goal with
  | |- context [for_each ?body ?l p1] =>
      pose proof (for_each_grows body l (check_header_grows url) p1) as H1;
      destruct (for_each body l p1) as [p2 [[]|]]
  end; crawl_red; [|done].
  eapply grows_trans; [exact H1|].
  destruct (Str.contains "pdf" _ || _ || _); crawl_red; [|apply grows_refl].
  destruct (_extract_filename_from_url env url) as [from_url|]; crawl_red;
    [|apply grows_refl].
  destruct (Classifier._is_annual_report _ _ _ _); crawl_red;
    [|apply grows_refl].
  apply grows_append_document, recorded_doc. intros y.
  apply or_year_range; intros z; apply extract_year_range.
Qed.

End Grows.

Lemma grows_weaken (ok1 ok2 : string * nat → Prop) p p' :
  (∀ item, ok1 item → ok2 item) → grows env ok1 p p' → grows env ok2 p p'.
Proof.
  intros Hok [Hv Hp Hm Hb (new & Hq & Hf) Hn Hd].
  constructor; try done. exists new. split; [done|].
  eapply Forall_impl; [exact Hf|]. intros item [? ?]. auto.
Qed.

Lemma existsb_queue_false (link_url : string) (queue : list (string * nat)) :
  existsb (λ item, String.eqb item.1 link_url) queue = false →
  link_url ∉ queue.*1.
Proof.
  intros H Hin. apply list_elem_of_fmap in Hin as (item & -> & Hitem).
  assert (existsb (λ i, String.eqb i.1 item.1) queue = true); [|congruence].
  apply existsb_elem_of. exists item. split; [done|]. apply String.eqb_refl.
Qed.

Lemma queue_link_grows base_url next_depth link p :
  grows env (λ item, item.2 = next_depth) p
        (queue_link env base_url next_depth link p).1.
Proof.
  unfold queue_link. crawl_unfold.
  repeat case_match; simplify_eq/=; auto using grows_refl.
  apply grows_enqueue; [|done|].
  - split; simpl; [done|].
    match goal with
    | H : negb ?b = false |- ?b = true => by apply negb_false_iff in H
    end.
  - simpl. by apply existsb_queue_false.
Qed.

Lemma find_and_queue_links_grows base_url soup current_depth p :
  grows env (λ item, item.2 = S current_depth) p
        (_find_and_queue_links env base_url soup current_depth p).1.
Proof.
  unfold _find_and_queue_links. apply for_each_grows.
  intros link p'. apply queue_link_grows.
Qed.

(** Processing a URL: the entries it queues are one level deeper, and
    there are some only below the depth bound. *)
Lemma process_url_grows url depth p :
  grows env (λ item, item.2 = S depth ∧ (depth < max_depth p)%nat) p
        (_process_url_from_queue env url depth p).
Proof.
  set (ok := λ item : string * nat, item.2 = S depth ∧ (depth < max_depth p)%nat).
  unfold _process_url_from_queue, request. crawl_unfold.
  destruct (make_request (net env) url (http_client p)) as [[response| |] c1];
    crawl_red; try apply grows_set_client.
  eapply grows_trans; [apply (grows_set_client ok c1)|].
  pose proof (check_headers_grows ok url (set_client c1 p)) as H1.
  set (p2 := _check_headers_for_documents env url (set_client c1 p)) in *.
  eapply grows_trans; [exact H1|].
  pose proof (find_direct_documents_grows ok url (anchors response) p2) as H2.
  destruct (_find_direct_documents env url (anchors response) p2) as [p3 [[]|]];
    crawl_red; [|done].
  eapply grows_trans; [exact H2|].
  case_decide as Hd; crawl_red; [|apply grows_refl].
  eapply grows_weaken; [|apply find_and_queue_links_grows].
  intros item Hitem. split; [done|].
  destruct H1 as [_ _ Hm1 _ _ _ _]. destruct H2 as [_ _ Hm2 _ _ _ _].
  cbn in Hm1. rewrite Hm2, Hm1 in Hd. done.
Qed.

End ShapeFacts.

Section ShapeInvariant.
Import Str Classifier HTTPClient HTMLPageProcessor CrawlShape.
Variable env : Environment.

Lemma followed_frame p p' item :
  max_depth p' = max_depth p → base_domain p' = base_domain p →
  followed env p item → followed env p' item.
Proof. unfold followed, passed. intros -> ->. done. Qed.

Lemma start_crawl_shape seed p p0 :
  start_crawl env seed p = Some p0 →
  shape env seed p0 ∧ max_depth p0 = max_depth p.
Proof.
  unfold start_crawl.
  destruct (_extract_base_domain env seed) as [domain|]; [|done].
  intros [= <-]. split; [|done]. constructor; simpl.
  - intros item Hin. apply list_elem_of_singleton in Hin as ->. by left.
  - apply NoDup_singleton.
  - intros u H. by apply elem_of_nil in H.
  - constructor.
Qed.

Lemma crawl_step_shape seed p p' :
  crawl_step env p = Some p' →
  shape env seed p →
  shape env seed p' ∧ max_depth p' = max_depth p.
Proof.
  unfold crawl_step. destruct (url_queue p) as [|[u d] rest] eqn:Eq; [done|].
  cbn [visited_urls]. intros Hstep [Hq Hnd Hp Hdocs].
  rewrite Eq in Hnd. cbn in Hnd. apply NoDup_cons in Hnd as [Hu Hnd].
  case_decide as Hv.
  - injection Hstep as <-. split; [|done]. constructor; cbn; try done.
    intros item Hin. destruct (Hq item) as [->|Hf]; [rewrite Eq; by right|by left|].
    by right.
  - cbv zeta in Hstep. cbn [http_client url_queue visited_urls found_documents
                             max_depth base_domain processed] in Hstep.
    set (p1 := mkProcessor (http_client p) rest (visited_urls p) (found_documents p)
                           (max_depth p) (base_domain p) (processed p ++ [u])) in *.
    destruct (process_url_grows env u d p1)
      as [Hv' Hp' Hm' Hb' (new & Hq' & Hnew) Hnd' (docs & Hd' & Hdocs')].
    set (p2 := _process_url_from_queue env u d p1) in *.
    cbn in Hv', Hp', Hm', Hb', Hq', Hnew, Hnd', Hd'. clearbody p2.
    injection Hstep as <-.
    split; [|cbn; exact Hm']. constructor; cbn.
    + intros item. rewrite Hq'. intros [Hin|Hin]%elem_of_app.
      * destruct (Hq item) as [->|Hf]; [rewrite Eq; by right|by left|].
        right. revert Hf. unfold followed, passed. cbn. by rewrite Hm', Hb'.
      * right. rewrite Forall_forall in Hnew.
        destruct (Hnew item Hin) as [[Hs Hd] [Hdepth Hlt]].
        unfold followed, passed. cbn. rewrite Hm', Hb'.
        split; [lia|]. done.
    + by apply Hnd'.
    + intros x. rewrite Hp'. intros [Hin|Hin]%elem_of_app; [by apply Hp|].
      apply list_elem_of_singleton in Hin as ->.
      destruct (Hq (u, d)) as [[= -> ->]|Hf]; [rewrite Eq; by left|by left|].
      right. by destruct Hf as [_ [Hs _]].
    + rewrite Hd'. by apply Forall_app.
Qed.

Lemma crawl_rounds_shape seed n p :
  shape env seed p →
  shape env seed (crawl_rounds env n p)
  ∧ max_depth (crawl_rounds env n p) = max_depth p.
Proof.
  revert p. induction n as [|n IH]; intros p Hs; [done|].
  simpl. destruct (crawl_step env p) as [p'|] eqn:E; [|done].
  destruct (crawl_step_shape seed p p' E Hs) as [Hs' Hm].
  destruct (IH p' Hs') as [Hs'' Hm']. split; [done|congruence].
Qed.

(** Every state of a crawl has the shape. *)
Lemma crawl_shape seed p p0 n :
  start_crawl env seed p = Some p0 →
  shape env seed (crawl_rounds env n p0)
  ∧ max_depth (crawl_rounds env n p0) = max_depth p.
Proof.
  intros Hstart. destruct (start_crawl_shape seed p p0 Hstart) as [Hs Hm].
  destruct (crawl_rounds_shape seed n p0 Hs) as [Hs' Hm'].
  split; [done|congruence].
Qed.

End ShapeInvariant.

(** X6.  Apart from the seed, a crawl never queues, processes or requests
    a URL in which one of the ignored paths occurs, in whatever case: the
    link loop drops such a link before it reaches the queue. *)
Theorem crawl_skips_ignored_paths :
  ∀ (env : HTMLPageProcessor.Environment) (seed : string)
    (p p0 : HTMLPageProcessor.Processor) (n : nat) (u : string),
    HTMLPageProcessor.start_crawl env seed p = Some p0 →
    let p' := HTMLPageProcessor.crawl_rounds env n p0 in
    u ∈ (HTMLPageProcessor.url_queue p').*1
    ∨ u ∈ HTMLPageProcessor.processed p'
    ∨ (∃ events,
         HTTPClient.log (HTMLPageProcessor.http_client p')
         = HTTPClient.log (HTMLPageProcessor.http_client p) ++ events
         ∧ (HTTPClient.Fetch u ∈ events ∨ HTTPClient.Get u ∈ events)) →
    u = seed
    ∨ ∀ ignore_path, ignore_path ∈ HTMLPageProcessor.ignore_paths →
                     Str.contains ignore_path (Str.lower u) = false.
Proof.
  intros env seed p p0 n u Hstart p' Hu.
  destruct (crawl_shape env seed p p0 n Hstart) as [[Hq _ Hp _] _].
  assert (Hskip : u = seed ∨ HTMLPageProcessor._should_skip_url u = false).
  { destruct Hu as [Hu|[Hu|(events & Hl & Hu)]].
    - apply list_elem_of_fmap in Hu as (item & -> & Hitem).
      destruct (Hq item Hitem) as [->|[_ [Hs _]]]; [by left|by right].
    - by apply Hp.
    - apply Hp. by eapply crawl_events_processed. }
  destruct Hskip as [->|Hskip]; [by left|]. right.
  intros ignore_path Hin.
  destruct (Str.contains ignore_path (Str.lower u)) eqn:E; [|done].
  assert (HTMLPageProcessor._should_skip_url u = true); [|congruence].
  apply existsb_elem_of. by exists ignore_path.
Qed.

Lemma crawl_skips_ignored_paths_witness :
  let env := urllib.environment Scenario.domains_net in
  let p0 := HTMLPageProcessor.mkProcessor (HTTPClient.mkClient ∅ 0 [])
              [(Scenario.seed_url, 0%nat)] ∅ [] 2 (Some "example.com") [] in
  Scenario.sister_url = Scenario.seed_url
  ∨ ∀ ignore_path, ignore_path ∈ HTMLPageProcessor.ignore_paths →
                   Str.contains ignore_path (Str.lower Scenario.sister_url) = false.
Proof.
  intros env p0.
  refine (crawl_skips_ignored_paths env Scenario.seed_url Scenario.fresh p0 1%nat
            Scenario.sister_url eq_refl _).
  left. vm_compute. left.
Defined.

(** X7.  The depth bound of a crawl does not change, and every entry of
    the queue has a depth within it; only the seed has depth 0.  A page
    taken from the queue at the depth bound, or beyond, has none of its
    links queued. *)
Theorem crawl_depth_is_bounded :
  (∀ (env : HTMLPageProcessor.Environment) (seed : string)
     (p p0 : HTMLPageProcessor.Processor) (n : nat),
     HTMLPageProcessor.start_crawl env seed p = Some p0 →
     let p' := HTMLPageProcessor.crawl_rounds env n p0 in
     HTMLPageProcessor.max_depth p' = HTMLPageProcessor.max_depth p
     ∧ ∀ u depth, (u, depth) ∈ HTMLPageProcessor.url_queue p' →
                  (depth ≤ HTMLPageProcessor.max_depth p)%nat
                  ∧ (depth = 0%nat → u = seed))
  ∧ (∀ (env : HTMLPageProcessor.Environment) (url : string) (depth : nat)
       (p : HTMLPageProcessor.Processor),
       (HTMLPageProcessor.max_depth p ≤ depth)%nat →
       HTMLPageProcessor.url_queue
         (HTMLPageProcessor._process_url_from_queue env url depth p)
       = HTMLPageProcessor.url_queue p).
Proof.
  split.
  - intros env seed p p0 n Hstart p'. subst p'.
    destruct (crawl_shape env seed p p0 n Hstart) as [[Hq _ _ _] Hm].
    split; [done|]. intros u depth Hin.
    destruct (Hq _ Hin) as [[= -> ->]|[Hd _]]; [split; [lia|done]|].
    cbn [fst snd] in Hd. rewrite Hm in Hd. split; lia.
  - intros env url depth p Hd.
    destruct (process_url_grows env url depth p) as [_ _ _ _ (new & Hq & Hnew) _ _].
    destruct new as [|item new]; [by rewrite Hq, app_nil_r|].
    apply Forall_cons in Hnew as [[_ [_ Hlt]] _]. lia.
Qed.

Lemma crawl_depth_is_bounded_witness :
  let env := urllib.environment Scenario.domains_net in
  let p0 := HTMLPageProcessor.mkProcessor (HTTPClient.mkClient ∅ 0 [])
              [(Scenario.seed_url, 0%nat)] ∅ [] 2 (Some "example.com") [] in
  HTMLPageProcessor.max_depth (HTMLPageProcessor.crawl_rounds env 2 p0) = 2%nat
  ∧ HTMLPageProcessor.url_queue
      (HTMLPageProcessor._process_url_from_queue env Scenario.seed_url 2 Scenario.fresh)
    = [].
Proof.
  intros env p0. split.
  - exact (proj1 (proj1 crawl_depth_is_bounded env Scenario.seed_url
                    Scenario.fresh p0 2%nat eq_refl)).
  - refine (proj2 crawl_depth_is_bounded env Scenario.seed_url 2%nat
              Scenario.fresh _).
    simpl. lia.
Defined.

(** X8.  At every moment of a crawl the URLs of the queue are pairwise
    distinct: a link is queued only if its URL is not waiting in the
    queue already. *)
Theorem queue_holds_no_url_twice :
  ∀ (env : HTMLPageProcessor.Environment) (seed : string)
    (p p0 : HTMLPageProcessor.Processor) (n : nat),
    HTMLPageProcessor.start_crawl env seed p = Some p0 →
    NoDup (HTMLPageProcessor.url_queue (HTMLPageProcessor.crawl_rounds env n p0)).*1.
Proof.
  intros env seed p p0 n Hstart.
  by destruct (crawl_shape env seed p p0 n Hstart) as [[_ Hnd _ _] _].
Qed.

Lemma queue_holds_no_url_twice_witness :
  let env := urllib.environment Scenario.domains_net in
  let p0 := HTMLPageProcessor.mkProcessor (HTTPClient.mkClient ∅ 0 [])
              [(Scenario.seed_url, 0%nat)] ∅ [] 2 (Some "example.com") [] in
  NoDup (HTMLPageProcessor.url_queue (HTMLPageProcessor.crawl_rounds env 1 p0)).*1.
Proof.
  intros env p0.
  exact (queue_holds_no_url_twice env Scenario.seed_url Scenario.fresh p0 1%nat
           eq_refl).
Defined.

(** X9.  Every document that a crawl records, by whichever path, has an
    empty content and a year that is either absent or between 2000 and
    2099; so the year of a recorded document is never the falsy 0.  This
    holds of the documents at every round and of the list that
    [find_annual_reports] returns. *)
Theorem recorded_documents_shape :
  (∀ (env : HTMLPageProcessor.Environment) (seed : string)
     (p p0 : HTMLPageProcessor.Processor) (n : nat),
     HTMLPageProcessor.start_crawl env seed p = Some p0 →
     Forall CrawlShape.recorded
            (HTMLPageProcessor.found_documents
               (HTMLPageProcessor.crawl_rounds env n p0)))
  ∧ (∀ (env : HTMLPageProcessor.Environment) (fuel : nat) (seed : string)
       (p : HTMLPageProcessor.Processor) (docs : list ExtractedDocument),
       HTMLPageProcessor.find_annual_reports env fuel seed p = Some docs →
       Forall CrawlShape.recorded docs
       ∧ Forall (λ doc, Str.truthy_int (models.year doc) = models.year doc) docs).
Proof.
  assert (Hall : ∀ (env : HTMLPageProcessor.Environment) (seed : string)
                   (p p0 : HTMLPageProcessor.Processor) (n : nat),
             HTMLPageProcessor.start_crawl env seed p = Some p0 →
             Forall CrawlShape.recorded
                    (HTMLPageProcessor.found_documents
                       (HTMLPageProcessor.crawl_rounds env n p0))).
  { intros env seed p p0 n Hstart.
    by destruct (crawl_shape env seed p p0 n Hstart) as [[_ _ _ Hd] _]. }
  split; [exact Hall|].
  intros env fuel seed p docs. unfold HTMLPageProcessor.find_annual_reports.
  assert (Hrec : Forall CrawlShape.recorded docs →
                 Forall CrawlShape.recorded docs
                 ∧ Forall (λ doc, Str.truthy_int (models.year doc) = models.year doc)
                          docs).
  { intros H. split; [done|]. eapply Forall_impl; [exact H|].
    intros doc [_ Hy]. destruct (models.year doc) as [[| |]|]; simpl in *;
      done || lia. }
  destruct (HTMLPageProcessor.start_crawl env seed p) as [p0|] eqn:Hstart.
  - destruct (HTMLPageProcessor.crawl_loop env fuel p0) as [p'|] eqn:Hloop; [|done].
    intros [= <-]. apply Hrec.
    apply crawl_loop_rounds in Hloop as [-> _]. by eapply Hall.
  - intros [= <-]. by apply Hrec.
Qed.

Lemma recorded_documents_shape_witness :
  Forall CrawlShape.recorded
    [mkDoc Scenario.report_url "Annual Report 2022" "" (Some 2022);
     mkDoc Scenario.report_url "Annual_Report_2022.pdf" "" (Some 2022)].
Proof.
  refine (proj1 (proj2 recorded_documents_shape
                   (urllib.environment Scenario.report_net) 2%nat
                   "https://a.example.com/investors" Scenario.fresh
                   [mkDoc Scenario.report_url "Annual Report 2022" "" (Some 2022);
                    mkDoc Scenario.report_url "Annual_Report_2022.pdf" "" (Some 2022)]
                   _)).
  vm_compute. reflexivity.
Defined.

(** ** The annual-report check *)

Section AnnualFacts.
Import Str Classifier.

Lemma truthy_Some s : truthy (Some s) = true ↔ s ≠ EmptyString.
Proof. by destruct s. Qed.

Lemma truthy_lower o : truthy o = true → ∃ s, o = Some s ∧ s ≠ EmptyString.
Proof. destruct o as [[|c s]|]; try done. intros _. by exists (String c s). Qed.

(** The check after its first lines, on the text and the URL that it
    goes on with. *)
Lemma is_annual_report_true (text url filename : option string) (link : option Link) :
  (match link, url with Some _, None => False | _, _ => True end) →
  _is_annual_report text url filename link = true →
  let text' := match link with Some l => Some (link_text l) | None => text end in
  _is_quarter_report link url = false
  ∧ (∀ f, filename = Some f → f ≠ EmptyString →
          (endswith ".pdf" (lower f) || endswith ".xlsx" (lower f) = true)
          ∧ ∀ keyword, keyword ∈ _get_quarterly_keywords →
                       contains keyword (lower f) = false)
  ∧ (∀ u, url = Some u → u ≠ EmptyString → truthy filename = false →
          endswith ".pdf" (lower u) || endswith ".xlsx" (lower u) = true)
  ∧ ∃ source keyword,
      source ≠ EmptyString
      ∧ (text' = Some source ∨ url = Some source ∨ filename = Some source)
      ∧ keyword ∈ _get_annual_keywords
      ∧ contains keyword (lower source) = true.
Proof.
  intros Hurl. unfold _is_annual_report.
  set (text' := match link with Some l => Some (link_text l) | None => text end).
  assert (Eurl : match link, url with
                 | Some l, None => Some (default EmptyString (link_href l))
                 | _, _ => url
                 end = url) by (by destruct link, url).
  rewrite Eurl. clear Eurl Hurl.
  destruct (_is_quarter_report link url); [done|].
  destruct (truthy filename && existsb _ _get_quarterly_keywords) eqn:Eq; [done|].
  destruct (truthy filename && negb _) eqn:Ef; [done|].
  destruct (truthy url && negb (truthy filename) && negb _) eqn:Eu; [done|].
  intros H. cbv zeta. split; [done|]. split; [|split].
  - intros f -> Hf. apply truthy_Some in Hf. rewrite Hf in Eq, Ef.
    cbn [andb lower_or_empty] in Eq, Ef. apply negb_false_iff in Ef.
    split; [done|]. intros keyword Hin.
    destruct (contains keyword (lower f)) eqn:E; [|done].
    assert (existsb (λ keyword, contains keyword (lower f))
                    _get_quarterly_keywords = true); [|congruence].
    apply existsb_elem_of. by exists keyword.
  - intros u -> Hu Hf. apply truthy_Some in Hu. rewrite Hu, Hf in Eu.
    cbn [andb negb lower_or_empty] in Eu. by apply negb_false_iff in Eu.
  - apply existsb_elem_of in H as (text_part & Hpart & H).
    apply existsb_elem_of in H as (keyword & Hkw & Hc).
    assert (Hsrc : ∀ o, text_part ∈ (if truthy o then [lower_or_empty o] else []) →
                        ∃ s, o = Some s ∧ s ≠ EmptyString ∧ text_part = lower s).
    { intros o Ho. destruct (truthy o) eqn:Et; [|by apply elem_of_nil in Ho].
      apply truthy_lower in Et as (s & -> & Hs).
      apply list_elem_of_singleton in Ho. by exists s. }
    apply elem_of_app in Hpart as [Hp|Hp]; [|apply elem_of_app in Hp as [Hp|Hp]];
      apply Hsrc in Hp as (s & Hs & Hne & ->); exists s, keyword; auto 6.
Qed.

Lemma is_annual_report_nothing (text url filename : option string) :
  truthy text = false → truthy url = false → truthy filename = false →
  _is_annual_report text url filename None = false.
Proof.
  intros Ht Hu Hf. unfold _is_annual_report. rewrite Ht, Hu, Hf.
  by destruct (_is_quarter_report None url).
Qed.

End AnnualFacts.

(** X10.  When [_is_annual_report], called without a link object,
    answers true, then a file name that was given ends in .pdf or .xlsx,
    in any case; without a file name a URL that was given does; and an
    annual keyword occurs, in any case, in the text, the URL or the file
    name.  With no text, URL and file name it answers false.  A text
    alone needs no extension, while a URL without one is rejected
    whatever words it has. *)
Theorem annual_check_wants_extension_and_keyword :
  (∀ text url filename : option string,
     Classifier._is_annual_report text url filename None = true →
     (∀ f, filename = Some f → f ≠ EmptyString →
           Str.endswith ".pdf" (Str.lower f) || Str.endswith ".xlsx" (Str.lower f)
           = true)
     ∧ (∀ u, url = Some u → u ≠ EmptyString → Str.truthy filename = false →
             Str.endswith ".pdf" (Str.lower u) || Str.endswith ".xlsx" (Str.lower u)
             = true)
     ∧ ∃ source keyword,
         source ≠ EmptyString
         ∧ (text = Some source ∨ url = Some source ∨ filename = Some source)
         ∧ keyword ∈ Classifier._get_annual_keywords
         ∧ Str.contains keyword (Str.lower source) = true)
  ∧ (∀ text url filename : option string,
       Str.truthy text = false → Str.truthy url = false →
       Str.truthy filename = false →
       Classifier._is_annual_report text url filename None = false)
  ∧ Classifier._is_annual_report (Some "Annual Report 2022") None None None = true
  ∧ Classifier._is_annual_report None
      (Some "https://a.example.com/download/annual-report-2022") None None = false.
Proof.
  split; [|split; [|split; vm_compute; reflexivity]].
  - intros text url filename H.
    destruct (is_annual_report_true text url filename None I H)
      as (_ & Hf & Hu & Hk).
    split; [|split; [done|done]].
    intros f Hfile Hne. by destruct (Hf f Hfile Hne).
  - apply is_annual_report_nothing.
Qed.

Lemma annual_check_wants_extension_and_keyword_witness :
  ∃ source keyword,
    source ≠ EmptyString
    ∧ (None = Some source
       ∨ Some "https://a.example.com/ir/Integrated_2021.XLSX" = Some source
       ∨ None = Some source)
    ∧ keyword ∈ Classifier._get_annual_keywords
    ∧ Str.contains keyword (Str.lower source) = true.
Proof.
  exact (proj2 (proj2 (proj1 annual_check_wants_extension_and_keyword None
                         (Some "https://a.example.com/ir/Integrated_2021.XLSX")
                         None eq_refl))).
Defined.

(** X11.  A document that [_process_document_link] returns comes from a
    link with a non-empty [href]; its URL is the joined URL, not yet among
    the documents found, without a quarterly marker and, unless empty,
    ending in .pdf or .xlsx in any case; the link text has no quarterly
    marker either, and an annual keyword occurs in the link text or in the
    URL; its year is the one of the link text, else of the URL; its
    content is empty.  The call itself changes nothing in the
    processor. *)
Theorem document_link_postcondition :
  ∀ (env : HTMLPageProcessor.Environment) (link : Link)
    (base_url file_type : string) (p : HTMLPageProcessor.Processor)
    (doc : ExtractedDocument),
    (HTMLPageProcessor._process_document_link env link base_url file_type p).2
    = Some (Some doc) →
    (HTMLPageProcessor._process_document_link env link base_url file_type p).1 = p
    ∧ (∃ href, link_href link = Some href ∧ href ≠ EmptyString
               ∧ HTMLPageProcessor.urljoin env base_url href
                 = Some (models.url doc))
    ∧ (models.url doc ∉ models.url <$> HTMLPageProcessor.found_documents p)
    ∧ (∀ keyword, keyword ∈ Classifier._get_quarterly_keywords →
                  Str.contains keyword (Str.lower (link_text link)) = false
                  ∧ Str.contains keyword (Str.lower (models.url doc)) = false)
    ∧ (models.url doc ≠ EmptyString →
       Str.endswith ".pdf" (Str.lower (models.url doc))
       || Str.endswith ".xlsx" (Str.lower (models.url doc)) = true)
    ∧ (∃ keyword, keyword ∈ Classifier._get_annual_keywords
                  ∧ (Str.contains keyword (Str.lower (link_text link)) = true
                     ∨ Str.contains keyword (Str.lower (models.url doc)) = true))
    ∧ models.year doc = Classifier._extract_year_from_link link (models.url doc)
    ∧ models.content doc = EmptyString.
Proof.
  intros env link base_url file_type p doc H.
  split; [apply process_document_link_state|].
  pose proof (process_document_link_fresh env link base_url file_type p doc H)
    as Hfresh.
  revert H. unfold HTMLPageProcessor._process_document_link. crawl_unfold.
  destruct (negb (Str.truthy (link_href link))) eqn:Eh; [done|].
  destruct (HTMLPageProcessor.urljoin env base_url
              (default EmptyString (link_href link))) as [full_url|] eqn:Ej;
    [|done].
  apply negb_false_iff, truthy_lower in Eh as (href & Eh & Hne).
  rewrite Eh in Ej. cbn [default] in Ej.
  destruct (existsb _ (HTMLPageProcessor.found_documents p)); [done|].
  destruct (Classifier._is_quarter_report (Some link) (Some full_url)) eqn:Eq;
    [done|].
  destruct (Classifier._is_annual_report None (Some full_url) None (Some link))
    eqn:Ea; [|done].
  cbn [snd]. intros [= <-]. cbn [models.url models.year models.content] in *.
  destruct (is_annual_report_true None (Some full_url) None (Some link) I Ea)
    as (_ & _ & Hu & (source & keyword & Hs & Hsrc & Hkw & Hc)).
  split; [by exists href|]. split; [done|]. split; [|split; [|split; [|done]]].
  - intros keyword' Hin.
    unfold Classifier._is_quarter_report in Eq. cbn [Str.lower_or_empty] in Eq.
    destruct (Str.contains keyword' (Str.lower (link_text link))
              || Str.contains keyword' (Str.lower full_url)) eqn:E.
    + assert (existsb (λ keyword,
                         Str.contains keyword (Str.lower (link_text link))
                         || Str.contains keyword (Str.lower full_url))
                      Classifier._get_quarterly_keywords = true); [|congruence].
      apply existsb_elem_of. by exists keyword'.
    + by apply orb_false_iff in E.
  - intros Hu'. by apply Hu.
  - exists keyword. split; [done|].
    destruct Hsrc as [[= <-]|[[= <-]|?]]; [by left|by right|done].
Qed.

Lemma document_link_postcondition_witness :
  let env := urllib.environment Scenario.report_net in
  let link := mkLink (Some Scenario.report_url) "Annual Report 2022" None in
  (HTMLPageProcessor._process_document_link env link
     "https://a.example.com/investors" "PDF" Scenario.fresh).1 = Scenario.fresh.
Proof.
  intros env link.
  exact (proj1 (document_link_postcondition env link
                  "https://a.example.com/investors" "PDF" Scenario.fresh
                  (mkDoc Scenario.report_url "Annual Report 2022" "" (Some 2022))
                  eq_refl)).
Defined.

(** X12.  The link path records no URL twice: when the URLs of the
    documents found so far are pairwise distinct, they still are after
    [_find_direct_documents], whatever links the page has, repeated or
    not; the documents found before stay where they are. *)
Theorem link_path_records_no_url_twice :
  ∀ (env : HTMLPageProcessor.Environment) (base_url : string) (soup : list Link)
    (p : HTMLPageProcessor.Processor),
    NoDup (models.url <$> HTMLPageProcessor.found_documents p) →
    let p' := (HTMLPageProcessor._find_direct_documents env base_url soup p).1 in
    NoDup (models.url <$> HTMLPageProcessor.found_documents p')
    ∧ ∃ docs, HTMLPageProcessor.found_documents p'
              = HTMLPageProcessor.found_documents p ++ docs.
Proof.
  intros env base_url soup p Hnd p'. split.
  - by apply find_direct_documents_NoDup.
  - destruct (find_direct_documents_grows env (λ _, False) base_url soup p)
      as [_ _ _ _ _ _ (docs & Hd & _)].
    by exists docs.
Qed.

Lemma link_path_records_no_url_twice_witness :
  let env := urllib.environment Scenario.report_net in
  let link := mkLink (Some Scenario.report_url) "Annual Report 2022" None in
  NoDup (models.url
           <$> HTMLPageProcessor.found_documents
                 (HTMLPageProcessor._find_direct_documents env
                    "https://a.example.com/investors" [link; link]
                    Scenario.fresh).1).
Proof.
  intros env link.
  refine (proj1 (link_path_records_no_url_twice env
                   "https://a.example.com/investors" [link; link]
                   Scenario.fresh _)).
  simpl. constructor.
Defined.

(** ** The score *)

Section ScoreBounds.
Import Str ReportsRanker Spec.

Lemma priority_loop_bounds keywords i title url :
  (i + length keywords ≤ length priority_keywords)%nat →
  0 ≤ priority_loop keywords i title url 0
    ≤ (Z.of_nat (length priority_keywords) - Z.of_nat i) * 10.
Proof.
  revert i. induction keywords as [|k ks IH]; intros i Hlen; simpl in *; [lia|].
  case_match; [lia|]. specialize (IH (S i) ltac:(lia)). lia.
Qed.

Lemma quarterly_loop_bounds keywords title url :
  - 100 * Z.of_nat (length keywords) ≤ quarterly_loop keywords title url 0 ≤ 0.
Proof.
  induction keywords as [|k ks IH]; simpl; [lia|].
  rewrite quarterly_loop_linear. case_match; lia.
Qed.

Lemma file_type_bonus_bounds url : 0 ≤ file_type_bonus url ≤ 200.
Proof. unfold file_type_bonus. repeat case_match; lia. Qed.

Lemma indicator_bonus_bounds title : -25 ≤ indicator_bonus title ≤ 125.
Proof. unfold indicator_bonus. repeat case_match; lia. Qed.

End ScoreBounds.

(** X13.  The score of a report lies between -625 and 435, and both
    bounds are reached; it is read off the lower-cased title and URL
    alone: neither the case of their letters nor the content or the year
    of the report changes it. *)
Theorem score_range_and_inputs :
  (∀ report : ExtractedDocument,
     -625 ≤ ReportsRanker._calculate_report_score report ≤ 435)
  ∧ (∀ (url title content content' : string) (year year' : option Z),
       ReportsRanker._calculate_report_score (mkDoc url title content year)
       = ReportsRanker._calculate_report_score
           (mkDoc (Str.lower url) (Str.lower title) content' year'))
  ∧ ReportsRanker._calculate_report_score
      (mkDoc "https://a.example.com/ir/2022.xlsx"
             "Form 20F Annual Consolidated Financial Statements" "" (Some 2022))
    = 435
  ∧ ReportsRanker._calculate_report_score
      (mkDoc "https://a.example.com/ir/x"
             "Transparency Q1 Q2 Q3 Q4 Quarterly" "" None)
    = -625.
Proof.
  split; [|split; [|split; vm_compute; reflexivity]].
  - intros report. rewrite score_parts.
    pose proof (file_type_bonus_bounds (Str.lower (models.url report))).
    pose proof (priority_loop_bounds ReportsRanker.priority_keywords 0
                  (Str.lower (models.title report)) (Str.lower (models.url report))
                  ltac:(simpl; lia)) as Hp.
    pose proof (indicator_bonus_bounds (Str.lower (models.title report))).
    pose proof (quarterly_loop_bounds ReportsRanker.quarterly_keywords
                  (Str.lower (models.title report)) (Str.lower (models.url report)))
      as Hq.
    unfold Spec.priority_bonus, Spec.quarterly_penalty.
    simpl length in Hp, Hq. lia.
  - intros url title content content' year year'.
    rewrite !score_parts. cbn [models.url models.title].
    by rewrite !lower_idemp.
Qed.

(** ** The year window *)

Section WindowFacts.
Import Str ReportsRanker AnnualReportSearcher Spec.

Lemma in_year_boundary_spec min_year current_year doc :
  in_year_boundary min_year current_year doc = true
  ↔ ∃ y, models.year doc = Some y ∧ y ≠ 0 ∧ min_year ≤ y < current_year.
Proof.
  unfold in_year_boundary. split.
  - destruct (truthy_int (models.year doc)) as [y|] eqn:E; [|done].
    apply truthy_int_Some in E as [E Hy]. intros [H1 H2]%andb_true_iff.
    apply Z.leb_le in H1. apply Z.ltb_lt in H2. by exists y.
  - intros (y & Hy & Hnz & H1 & H2).
    assert (E : truthy_int (models.year doc) = Some y)
      by by apply truthy_int_Some.
    rewrite E. apply andb_true_iff. split; [by apply Z.leb_le|by apply Z.ltb_lt].
Qed.


Lemma select_for_company_eq min_year current_year ticker all_documents :
  select_for_company min_year current_year ticker all_documents
  = process_company_reports ticker
      (_filter_documents_by_year min_year current_year all_documents).
Proof.
  unfold select_for_company, company_selection, search_company_reports.
  destruct (_filter_documents_by_year min_year current_year all_documents)
    as [|r rs] eqn:E; [|done].
  unfold process_company_reports, rank_reports_for_company, select_best_reports.
  simpl. unfold sorted_keys. rewrite dom_empty_L, elements_empty. done.
Qed.

Lemma covered_in_window min_year current_year ticker all_documents y :
  y ∈ years_covered
        (select_for_company min_year current_year ticker all_documents) →
  min_year ≤ y < current_year ∧ y ≠ 0.
Proof.
  rewrite select_for_company_eq, process_covered. intros Hne.
  destruct (candidates_of_year y _) as [|doc rest] eqn:E; [done|].
  assert (Hin : doc ∈ candidates_of_year y
                  (_filter_documents_by_year min_year current_year all_documents))
    by (rewrite E; left).
  unfold candidates_of_year in Hin.
  apply list_elem_of_filter in Hin as [Hy Hin].
  apply truthy_int_Some in Hy as [Hy Hnz].
  unfold _filter_documents_by_year in Hin.
  apply list_elem_of_filter in Hin as [Hb _].
  apply in_year_boundary_spec in Hb as (y' & Hy' & _ & Hw).
  split; [|done]. congruence.
Qed.

End WindowFacts.





(** ** Dictionaries *)

Section DictFacts.
Import Dict.
Context {V : Type}.

Lemma dict_get_set_eq (k : string) (v : V) (d : dict V) :
  get k (set k v d) = Some v.
Proof.
  induction d as [|[k' v'] d IH]; simpl.
  - by rewrite String.eqb_refl.
  - destruct (String.eqb k' k) eqn:E; simpl.
    + by rewrite String.eqb_refl.
    + by rewrite E.
Qed.

Lemma dict_get_set_ne (k k' : string) (v : V) (d : dict V) :
  k ≠ k' → get k' (set k v d) = get k' d.
Proof.
  intros Hne. induction d as [|[k0 v0] d IH]; simpl.
  - apply String.eqb_neq in Hne. by rewrite Hne.
  - destruct (String.eqb_spec k0 k) as [->|Hk]; simpl.
    + apply String.eqb_neq in Hne. by rewrite Hne.
    + by rewrite IH.
Qed.

Lemma dict_set_fresh (k : string) (v : V) (d : dict V) :
  k ∉ keys d → set k v d = d ++ [(k, v)].
Proof.
  induction d as [|[k' v'] d IH]; simpl; [done|].
  intros Hk. apply not_elem_of_cons in Hk as [Hne Hk].
  destruct (String.eqb_spec k' k) as [->|_]; [done|]. by rewrite IH.
Qed.

Lemma dict_keys_set (k : string) (v : V) (d : dict V) :
  keys (set k v d) = if decide (k ∈ keys d) then keys d else keys d ++ [k].
Proof.
  induction d as [|[k' v'] d IH]; cbn [set keys fmap list_fmap fst].
  - case_decide as Hin; [by apply elem_of_nil in Hin|done].
  - destruct (String.eqb_spec k' k) as [->|Hne]; cbn [fmap list_fmap fst].
    + rewrite decide_True; [done|]. left.
    + unfold keys in IH. cbn [fmap] in IH. rewrite IH. case_decide as Hin.
      * rewrite decide_True; [done|]. by right.
      * rewrite decide_False; [done|].
        intros [?|?]%elem_of_cons; [congruence|done].
Qed.

Lemma dict_keys_set_elem (k k' : string) (v : V) (d : dict V) :
  k' ∈ keys (set k v d) ↔ k' = k ∨ k' ∈ keys d.
Proof.
  rewrite dict_keys_set. case_decide as Hin.
  - split; [by right|]. intros [->|?]; done.
  - rewrite elem_of_app, list_elem_of_singleton. tauto.
Qed.

Lemma dict_keys_set_NoDup (k : string) (v : V) (d : dict V) :
  NoDup (keys d) → NoDup (keys (set k v d)).
Proof.
  intros Hnd. rewrite dict_keys_set. case_decide as Hin; [done|].
  apply NoDup_app. split; [done|]. split; [|apply NoDup_singleton].
  intros x Hx Hx'. apply list_elem_of_singleton in Hx' as ->. done.
Qed.

Lemma dict_get_elem (k : string) (v : V) (d : dict V) :
  NoDup (keys d) → (k, v) ∈ d → get k d = Some v.
Proof.
  induction d as [|[k' v'] d IH]; simpl; intros Hnd Hin.
  - by apply elem_of_nil in Hin.
  - apply NoDup_cons in Hnd as [Hk Hnd].
    apply elem_of_cons in Hin as [[= <- <-]|Hin].
    + by rewrite String.eqb_refl.
    + destruct (String.eqb_spec k' k) as [->|_]; [|by apply IH].
      exfalso. apply Hk. apply list_elem_of_fmap. by exists (k, v).
Qed.

Lemma dict_get_Some (k : string) (v : V) (d : dict V) :
  get k d = Some v → (k, v) ∈ d.
Proof.
  induction d as [|[k' v'] d IH]; simpl; [done|].
  destruct (String.eqb_spec k' k) as [->|_].
  - intros [= <-]. left.
  - intros H. right. by apply IH.
Qed.

End DictFacts.

(** ** The summary and its reader *)

Section SummaryFacts.
Import ReportsRanker SelectionSummary ReportProcessor Spec.

Lemma foldl_count {A B} (f : A → list B) (l : list A) (acc : Z) :
  foldl (λ acc x, acc + Z.of_nat (length (f x))) acc l
  = acc + Z.of_nat (length (l ≫= f)).
Proof.
  revert acc. induction l as [|x l IH]; intros acc; csimpl; [lia|].
  rewrite IH, length_app. lia.
Qed.

Lemma foldl_snoc {A B} (f : A → B) (l : list A) (acc : list B) :
  foldl (λ acc x, acc ++ [f x]) acc l = acc ++ (f <$> l).
Proof.
  revert acc. induction l as [|x l IH]; intros acc; simpl.
  - by rewrite app_nil_r.
  - rewrite IH, <- app_assoc. done.
Qed.

Lemma length_bind_fmap {A B C} (f : A → list B) (g : B → C) (l : list A) :
  length (l ≫= λ x, g <$> f x) = length (l ≫= f).
Proof.
  induction l as [|x l IH]; csimpl; [done|].
  by rewrite !length_app, length_fmap, IH.
Qed.

Lemma company_data_of_eq ticker selection :
  company_data_of ticker selection
  = mkCompanyData ticker (years_covered selection)
      (Z.of_nat (length (reports selection ≫= best)))
      (Z.of_nat (length (reports selection ≫= secondary)))
      (year_data_of <$> reports selection).
Proof.
  unfold company_data_of, total_best, total_secondary.
  by rewrite !foldl_count, foldl_snoc.
Qed.

Lemma company_data_counts ticker selection :
  let cd := company_data_of ticker selection in
  cd_total_best_reports cd = Z.of_nat (length (cd_reports cd ≫= yd_best))
  ∧ cd_total_secondary_reports cd
    = Z.of_nat (length (cd_reports cd ≫= yd_secondary)).
Proof.
  rewrite company_data_of_eq. cbn.
  assert (H : ∀ (f : YearSelection → list ExtractedDocument)
                (g : YearData → list ReportRef) l,
             (∀ ys, g (year_data_of ys) = report_ref <$> f ys) →
             length ((year_data_of <$> l) ≫= g) = length (l ≫= f)).
  { intros f g l Hfg. induction l as [|x l IH]; csimpl; [done|].
    by rewrite !length_app, Hfg, length_fmap, IH. }
  by rewrite (H best yd_best), (H secondary yd_secondary).
Qed.

(** The loop of [create_selection_summary], from any summary. *)
Lemma summary_loop items (summary : Summary) :
  let summary' := foldl summary_step summary items in
  total_companies (discovery_info summary')
  = total_companies (discovery_info summary)
  ∧ description (discovery_info summary') = description (discovery_info summary)
  ∧ total_best_reports (discovery_info summary')
    = total_best_reports (discovery_info summary)
      + Z.of_nat (length (items ≫= λ item, reports item.2 ≫= best))
  ∧ total_secondary_reports (discovery_info summary')
    = total_secondary_reports (discovery_info summary)
      + Z.of_nat (length (items ≫= λ item, reports item.2 ≫= secondary))
  ∧ (NoDup (Dict.keys (companies summary) ++ Dict.keys items) →
     companies summary'
     = companies summary
       ++ ((λ item, (item.1, company_data_of item.1 item.2)) <$> items)).
Proof.
  revert summary. induction items as [|[ticker selection] items IH];
    intros summary; csimpl.
  - split; [done|]. split; [done|]. split; [lia|]. split; [lia|].
    intros _. by rewrite app_nil_r.
  - destruct (IH (summary_step summary (ticker, selection)))
      as (H1 & H2 & H3 & H4 & H5).
    cbn [summary_step discovery_info total_companies description
         total_best_reports total_secondary_reports companies fst snd] in *.
    split; [done|]. split; [done|].
    unfold total_best, total_secondary in *. rewrite !foldl_count in *.
    rewrite !length_app. split; [lia|]. split; [lia|].
    intros Hnd.
    assert (Hfresh : ticker ∉ Dict.keys (companies summary)).
    { apply NoDup_app in Hnd as (_ & Hd & _). intros Hin. apply (Hd _ Hin). left. }
    rewrite H5.
    + rewrite dict_set_fresh by done. by rewrite <- app_assoc.
    + rewrite dict_keys_set, decide_False by done.
      rewrite <- app_assoc. done.
Qed.

Lemma best_loop (reports : list YearData) (acc : list BestReport) :
  foldl (λ best_reports year_data,
           match yd_best year_data with
           | best_report :: _ =>
               best_reports
               ++ [mkBestReport (yd_year year_data)
                                (ref_url best_report) (ref_title best_report)]
           | [] => best_reports
           end) acc reports
  = acc ++ omap (λ year_data,
                   match yd_best year_data with
                   | best_report :: _ =>
                       Some (mkBestReport (yd_year year_data)
                                          (ref_url best_report)
                                          (ref_title best_report))
                   | [] => None
                   end) reports.
Proof.
  revert acc. induction reports as [|yd l IH]; intros acc; simpl.
  - by rewrite app_nil_r.
  - rewrite IH. destruct (yd_best yd); [done|]. by rewrite <- app_assoc.
Qed.

Lemma find_best_reports_eq ticker company_data :
  find_best_reports_for_company ticker company_data
  = omap (λ year_data,
            match yd_best year_data with
            | best_report :: _ =>
                Some (mkBestReport (yd_year year_data)
                                   (ref_url best_report) (ref_title best_report))
            | [] => None
            end) (cd_reports company_data).
Proof.
  unfold find_best_reports_for_company.
  destruct (cd_reports company_data) as [|yd l] eqn:E; [done|].
  by rewrite best_loop.
Qed.

End SummaryFacts.

Section PipelineFacts.
Import ReportsRanker SelectionSummary ReportProcessor Spec.

Lemma listed_counts (f : YearSelection → list ExtractedDocument)
    (g : YearData → list ReportRef) (items : Dict.dict Selection) :
  (∀ ys, g (year_data_of ys) = report_ref <$> f ys) →
  length (((λ item, (item.1, company_data_of item.1 item.2)) <$> items)
          ≫= λ item, cd_reports item.2 ≫= g)
  = length (items ≫= λ item, reports item.2 ≫= f).
Proof.
  intros Hfg.
  assert (Hone : ∀ ticker selection,
             length (cd_reports (company_data_of ticker selection) ≫= g)
             = length (reports selection ≫= f)).
  { intros ticker selection. rewrite company_data_of_eq. cbn [cd_reports].
    induction (reports selection) as [|ys l IH]; [done|].
    by rewrite fmap_cons, !bind_cons, !length_app, Hfg, length_fmap, IH. }
  induction items as [|[ticker selection] items IH]; [done|].
  rewrite fmap_cons, !bind_cons, !length_app, IH. cbn [fst snd].
  by rewrite Hone.
Qed.

Lemma length_bind_singletons {A B} (f : A → list B) (l : list A) :
  Forall (λ x, length (f x) = 1%nat) l → length (l ≫= f) = length l.
Proof.
  induction 1 as [|x l Hx Hl IH]; [done|].
  rewrite bind_cons, length_app, Hx, IH. done.
Qed.

Lemma omap_fmap_all {A B C} (h : A → B) (f : B → option C) (g : A → C)
    (l : list A) :
  (∀ x, x ∈ l → f (h x) = Some (g x)) → omap f (h <$> l) = g <$> l.
Proof.
  induction l as [|x l IH]; intros H; csimpl; [done|].
  rewrite (H x) by left. csimpl. f_equal. apply IH.
  intros z Hz. apply H. by right.
Qed.

(** The reference that the reader takes for a year: the head of the
    year's ranking. *)
Lemma best_of_year ticker reports y :
  y ∈ years_covered (process_company_reports ticker reports) →
  ∃ top rest,
    _rank_reports_for_year (candidates_of_year y reports) = top :: rest
    ∧ yd_best (year_data_of (entry_of reports y)) = [report_ref top.2].
Proof.
  intros Hy. apply process_covered in Hy.
  destruct (_rank_reports_for_year (candidates_of_year y reports))
    as [|top rest] eqn:E.
  - pose proof (rank_reports_for_year_length (candidates_of_year y reports)) as Hl.
    rewrite E in Hl. destruct (candidates_of_year y reports); done.
  - exists top, rest. split; [done|].
    unfold year_data_of, entry_of. cbn [yd_best best]. by rewrite E.
Qed.

(** What the reader makes of the entry of a selection. *)
Lemma find_best_of_selection ticker reports :
  find_best_reports_for_company ticker
    (company_data_of ticker (process_company_reports ticker reports))
  = (λ y, match _rank_reports_for_year (candidates_of_year y reports) with
          | top :: _ => mkBestReport y (models.url top.2) (models.title top.2)
          | [] => mkBestReport y EmptyString EmptyString
          end)
    <$> years_covered (process_company_reports ticker reports).
Proof.
  rewrite find_best_reports_eq, company_data_of_eq. cbn [cd_reports].
  rewrite process_reports_eq, <- list_fmap_compose.
  apply omap_fmap_all. intros y Hy. cbn [compose].
  destruct (best_of_year ticker reports y Hy) as (top & rest & Hr & Hb).
  by rewrite Hb, Hr.
Qed.

Lemma find_best_years ticker reports :
  br_year <$> find_best_reports_for_company ticker
                (company_data_of ticker (process_company_reports ticker reports))
  = years_covered (process_company_reports ticker reports).
Proof.
  rewrite find_best_of_selection, <- list_fmap_compose.
  induction (years_covered (process_company_reports ticker reports))
    as [|y l IH]; [done|].
  rewrite fmap_cons, IH. f_equal. cbn [compose]. by case_match.
Qed.

Lemma summary_lookup (all_selections : Dict.dict Selection) ticker selection :
  NoDup (Dict.keys all_selections) →
  Dict.get ticker all_selections = Some selection →
  Dict.get ticker (companies (create_selection_summary all_selections))
  = Some (company_data_of ticker selection).
Proof.
  intros Hnd Hget. unfold create_selection_summary.
  match goal with
  | |- context [foldl summary_step ?init all_selections] =>
      destruct (summary_loop all_selections init) as (_ & _ & _ & _ & H5)
  end.
  cbn in H5. rewrite (H5 Hnd).
  apply dict_get_elem.
  - unfold Dict.keys. rewrite <- list_fmap_compose.
    replace (fst ∘ (λ item : string * Selection,
                      (item.1, company_data_of item.1 item.2)) <$> all_selections)
      with (Dict.keys all_selections); [done|].
    unfold Dict.keys. by apply list_fmap_ext.
  - apply list_elem_of_fmap. exists (ticker, selection). split; [done|].
    by apply dict_get_Some.
Qed.

Lemma dict_get_key {V} (k : string) (d : Dict.dict V) :
  k ∈ Dict.keys d → ∃ v, Dict.get k d = Some v.
Proof.
  induction d as [|[k' v'] d IH]; cbn.
  - by intros ?%elem_of_nil.
  - intros [->|Hin]%elem_of_cons.
    + rewrite String.eqb_refl. by eexists.
    + destruct (String.eqb k' k); [by eexists|by apply IH].
Qed.

End PipelineFacts.

(** X16.  The summary counts what it lists.  For selections under
    pairwise distinct tickers it has the tickers of the selections, in
    their order; [total_companies] is the number of its company entries,
    [total_best_reports] and [total_secondary_reports] are the numbers of
    best and of secondary references in all its entries, and the two
    totals of each company are the numbers of references in that
    company's entry, which carries the company's ticker and the years
    and references of its selection. *)
Theorem summary_counts_what_it_lists :
  ∀ all_selections : Dict.dict ReportsRanker.Selection,
    NoDup (Dict.keys all_selections) →
    let summary := SelectionSummary.create_selection_summary all_selections in
    let info := SelectionSummary.discovery_info summary in
    let listed := SelectionSummary.companies summary in
    Dict.keys listed = Dict.keys all_selections
    ∧ SelectionSummary.total_companies info = Z.of_nat (length listed)
    ∧ SelectionSummary.total_best_reports info
      = Z.of_nat (length (listed ≫= λ item, SelectionSummary.cd_reports item.2
                                             ≫= SelectionSummary.yd_best))
    ∧ SelectionSummary.total_secondary_reports info
      = Z.of_nat (length (listed ≫= λ item, SelectionSummary.cd_reports item.2
                                             ≫= SelectionSummary.yd_secondary))
    ∧ (∀ ticker selection,
         Dict.get ticker all_selections = Some selection →
         ∃ company_data,
           Dict.get ticker listed = Some company_data
           ∧ SelectionSummary.cd_ticker company_data = ticker
           ∧ SelectionSummary.cd_years_covered company_data
             = ReportsRanker.years_covered selection
           ∧ SelectionSummary.cd_reports company_data
             = SelectionSummary.year_data_of <$> ReportsRanker.reports selection
           ∧ SelectionSummary.cd_total_best_reports company_data
             = Z.of_nat (length (SelectionSummary.cd_reports company_data
                                 ≫= SelectionSummary.yd_best))
           ∧ SelectionSummary.cd_total_secondary_reports company_data
             = Z.of_nat (length (SelectionSummary.cd_reports company_data
                                 ≫= SelectionSummary.yd_secondary))).
Proof.
  intros all_selections Hnd summary info listed.
  destruct (summary_loop all_selections
              (SelectionSummary.mkSummary
                 (SelectionSummary.mkDiscoveryInfo
                    (Z.of_nat (length all_selections)) 0 0
                    "Best and secondary annual report selection prioritizing FORM 20F, organized by year")
                 [])) as (H1 & _ & H3 & H4 & H5).
  fold (SelectionSummary.create_selection_summary all_selections) in H1, H3, H4, H5.
  fold summary in H1, H3, H4, H5. fold info in H1, H3, H4. fold listed in H5.
  cbn in H1, H3, H4, H5. specialize (H5 Hnd).
  assert (Hkeys : Dict.keys listed = Dict.keys all_selections).
  { rewrite H5. unfold Dict.keys. rewrite <- list_fmap_compose.
    by apply list_fmap_ext. }
  split; [done|]. split; [by rewrite H5, length_fmap|].
  split; [rewrite H3, H5; by rewrite (listed_counts ReportsRanker.best)|].
  split; [rewrite H4, H5; by rewrite (listed_counts ReportsRanker.secondary)|].
  intros ticker selection Hget.
  exists (SelectionSummary.company_data_of ticker selection).
  split.
  - apply dict_get_elem; [by rewrite Hkeys|].
    rewrite H5. apply list_elem_of_fmap.
    exists (ticker, selection). split; [done|]. by apply dict_get_Some.
  - destruct (company_data_counts ticker selection) as [Hb Hs].
    rewrite company_data_of_eq in *. done.
Qed.

Lemma summary_counts_what_it_lists_witness :
  let selection :=
    ReportsRanker.process_company_reports "ACME"
      [mkDoc "https://a.example.com/ir/annual-report-2022.pdf" "Annual Report 2022" ""
             (Some 2022)] in
  let summary := SelectionSummary.create_selection_summary [("ACME", selection)] in
  SelectionSummary.total_companies (SelectionSummary.discovery_info summary)
  = Z.of_nat (length (SelectionSummary.companies summary)).
Proof.
  intros selection summary.
  refine (proj1 (proj2 (summary_counts_what_it_lists [("ACME", selection)] _))).
  apply NoDup_singleton.
Defined.

(** X17.  From the ranker through the summary to the reader: for the
    entry that the summary makes of a company's selection,
    [find_best_reports_for_company] returns one report for each year
    covered, in ascending order of the years, and it is the head of that
    year's ranking, with its URL and title; the company's total of best
    reports is the number of years covered. *)
Theorem reader_gets_best_of_each_year :
  ∀ (ticker : string) (reports : list ExtractedDocument),
    let selection := ReportsRanker.process_company_reports ticker reports in
    let company_data := SelectionSummary.company_data_of ticker selection in
    let best_reports :=
      ReportProcessor.find_best_reports_for_company ticker company_data in
    ReportProcessor.br_year <$> best_reports = ReportsRanker.years_covered selection
    ∧ StronglySorted Z.lt (ReportProcessor.br_year <$> best_reports)
    ∧ Forall (λ report,
                ∃ top rest,
                  ReportsRanker._rank_reports_for_year
                    (Spec.candidates_of_year (ReportProcessor.br_year report) reports)
                  = top :: rest
                  ∧ ReportProcessor.br_url report = models.url top.2
                  ∧ ReportProcessor.br_title report = models.title top.2)
             best_reports
    ∧ SelectionSummary.cd_total_best_reports company_data
      = Z.of_nat (length (ReportsRanker.years_covered selection)).
Proof.
  intros ticker reports selection company_data best_reports.
  set (pick := λ y : Z,
         match ReportsRanker._rank_reports_for_year
                 (Spec.candidates_of_year y reports) with
         | top :: _ => ReportProcessor.mkBestReport y (models.url top.2)
                                                     (models.title top.2)
         | [] => ReportProcessor.mkBestReport y EmptyString EmptyString
         end).
  assert (Hbest : best_reports = pick <$> ReportsRanker.years_covered selection).
  { unfold best_reports, company_data.
    rewrite find_best_reports_eq, company_data_of_eq. cbn [SelectionSummary.cd_reports].
    unfold selection at 1. rewrite process_reports_eq.
    fold selection. rewrite <- list_fmap_compose.
    apply omap_fmap_all. intros y Hy. cbn [compose].
    destruct (best_of_year ticker reports y Hy) as (top & rest & Hr & Hb).
    rewrite Hb. unfold pick. by rewrite Hr. }
  assert (Hyears : ReportProcessor.br_year <$> best_reports
                   = ReportsRanker.years_covered selection).
  { rewrite Hbest, <- list_fmap_compose. clear Hbest.
    induction (ReportsRanker.years_covered selection) as [|y l IH]; [done|].
    rewrite fmap_cons, IH. f_equal. unfold pick. cbn [compose]. by case_match. }
  split; [done|]. split; [rewrite Hyears; apply sorted_keys_ascending|]. split.
  - rewrite Hbest. apply Forall_fmap, Forall_forall. intros y Hy.
    destruct (best_of_year ticker reports y Hy) as (top & rest & Hr & _).
    cbn [compose]. unfold pick. rewrite Hr. cbn. by exists top, rest.
  - unfold company_data. rewrite company_data_of_eq.
    cbn [SelectionSummary.cd_total_best_reports]. f_equal.
    unfold selection at 1. rewrite process_reports_eq. fold selection.
    rewrite length_bind_singletons; [by rewrite length_fmap|].
    apply Forall_fmap, Forall_forall. intros y Hy. cbn [compose].
    destruct (best_of_year ticker reports y Hy) as (top & rest & Hr & _).
    unfold Spec.entry_of. cbn [ReportsRanker.best]. by rewrite Hr.
Qed.

Lemma reader_gets_best_of_each_year_witness :
  let reports :=
    [mkDoc "https://a.example.com/ir/annual-report-2022.pdf" "Annual Report 2022" ""
           (Some 2022);
     mkDoc "https://a.example.com/ir/annual-report-2021.xlsx" "Annual Report 2021" ""
           (Some 2021)] in
  ReportProcessor.br_year
    <$> ReportProcessor.find_best_reports_for_company "ACME"
          (SelectionSummary.company_data_of "ACME"
             (ReportsRanker.process_company_reports "ACME" reports))
  = ReportsRanker.years_covered
      (ReportsRanker.process_company_reports "ACME" reports).
Proof.
  intros reports.
  exact (proj1 (reader_gets_best_of_each_year "ACME" reports)).
Defined.

(** ** All companies on one processor *)

Section SearchFacts.
Import HTTPClient HTMLPageProcessor AnnualReportSearcher SearchRun CrawlLogic.
Variable env : Environment.

Lemma crawl_loop_mono fuel fuel' p p' :
  (fuel ≤ fuel')%nat →
  crawl_loop env fuel p = Some p' → crawl_loop env fuel' p = Some p'.
Proof.
  revert fuel' p. induction fuel as [|fuel IH]; intros fuel' p Hle; simpl.
  - destruct (crawl_step env p) eqn:E; [done|]. intros [= <-].
    destruct fuel'; simpl; by rewrite E.
  - destruct (crawl_step env p) as [p1|] eqn:E.
    + intros H. destruct fuel' as [|fuel']; [lia|]. simpl. rewrite E.
      apply IH; [lia|done].
    + intros [= <-]. destruct fuel'; simpl; by rewrite E.
Qed.

Lemma process_url_problematic url depth p :
  problematic_urls (http_client p)
  ⊆ problematic_urls (http_client (_process_url_from_queue env url depth p)).
Proof.
  destruct (process_url_effect env url depth p) as [Hq|Hq];
    destruct Hq as (Hc & _); rewrite Hc; cbn.
  - apply make_request_problematic_mono.
  - etrans; apply make_request_problematic_mono.
Qed.

Lemma crawl_step_problematic p p' :
  crawl_step env p = Some p' →
  problematic_urls (http_client p) ⊆ problematic_urls (http_client p').
Proof.
  unfold crawl_step. destruct (url_queue p) as [|[u d] rest]; [done|].
  cbn [visited_urls]. case_decide.
  - by intros [= <-].
  - intros [= <-]. cbn.
    etrans; [|apply process_url_problematic]. done.
Qed.

Lemma crawl_loop_problematic fuel p p' :
  crawl_loop env fuel p = Some p' →
  problematic_urls (http_client p) ⊆ problematic_urls (http_client p').
Proof.
  revert p. induction fuel as [|fuel IH]; intros p; simpl.
  - destruct (crawl_step env p); [done|]. by intros [= <-].
  - destruct (crawl_step env p) as [p1|] eqn:E; [|by intros [= <-]].
    intros H. etrans; [by apply crawl_step_problematic|by apply IH].
Qed.

(** One company: with enough fuel the crawl returns. *)
Lemma find_annual_reports_run_returns reports_url p :
  ∃ fuel all_documents p',
    (∀ fuel', (fuel ≤ fuel')%nat →
              find_annual_reports_run env fuel' reports_url p
              = Some (all_documents, p'))
    ∧ (∀ fuel', (fuel ≤ fuel')%nat →
                find_annual_reports env fuel' reports_url p = Some all_documents)
    ∧ problematic_urls (http_client p) ⊆ problematic_urls (http_client p').
Proof.
  unfold find_annual_reports_run, find_annual_reports.
  destruct (start_crawl env reports_url p) as [p0|] eqn:Hstart.
  - destruct (crawl_finishes env p0) as [fuel [final Hloop]].
    exists fuel, (found_documents final), final. split; [|split].
    + intros fuel' Hle. by rewrite (crawl_loop_mono fuel fuel' p0 final Hle Hloop).
    + intros fuel' Hle. by rewrite (crawl_loop_mono fuel fuel' p0 final Hle Hloop).
    + apply crawl_loop_problematic in Hloop.
      unfold start_crawl in Hstart.
      destruct (_extract_base_domain env reports_url); [|done].
      injection Hstart as <-. done.
  - exists 0%nat, [], (cleared p). done.
Qed.

Lemma made_for_nil min_year current_year : SearchLogic.made_for min_year current_year [].
Proof. split; [constructor|done]. Qed.

Lemma made_for_set min_year current_year t all_documents selections :
  SearchLogic.made_for min_year current_year selections →
  SearchLogic.made_for min_year current_year
    (Dict.set t (company_selection t
                   (_filter_documents_by_year min_year current_year all_documents))
              selections).
Proof.
  intros [Hnd Hall]. split; [by apply dict_keys_set_NoDup|].
  intros t' selection. destruct (decide (t = t')) as [<-|Hne].
  - rewrite dict_get_set_eq. intros [= <-]. by exists all_documents.
  - rewrite dict_get_set_ne by done. apply Hall.
Qed.

(** The loop over the companies: with enough fuel it returns. *)
Lemma search_loop_returns min_year current_year companies selections p :
  SearchLogic.made_for min_year current_year selections →
  ∃ fuel selections' p',
    (∀ fuel', (fuel ≤ fuel')%nat →
              search_loop env fuel' min_year current_year companies selections p
              = Some (selections', p'))
    ∧ SearchLogic.made_for min_year current_year selections'
    ∧ (∀ t, t ∈ Dict.keys selections'
            ↔ t ∈ Dict.keys selections ∨ t ∈ ticker <$> companies)
    ∧ problematic_urls (http_client p) ⊆ problematic_urls (http_client p').
Proof.
  revert selections p.
  induction companies as [|company rest IH]; intros selections p Hmade.
  - exists 0%nat, selections, p. split; [done|]. split; [done|]. split; [|done].
    intros t. rewrite fmap_nil, elem_of_nil. tauto.
  - destruct (find_annual_reports_run_returns (reports_link company) p)
      as (fuel1 & all_documents & p1 & Hrun & _ & Hp1).
    destruct (IH (Dict.set (ticker company)
                    (company_selection (ticker company)
                       (_filter_documents_by_year min_year current_year
                          all_documents))
                    selections) p1
                 (made_for_set _ _ _ all_documents _ Hmade))
      as (fuel2 & selections' & p' & Hloop & Hmade' & Hkeys & Hp').
    exists (fuel1 `max` fuel2)%nat, selections', p'.
    split; [|split; [done|split]].
    + intros fuel' Hle. cbn [search_loop].
      unfold search_company_reports_run.
      rewrite (Hrun fuel') by lia. apply Hloop. lia.
    + intros t. rewrite Hkeys, dict_keys_set_elem, fmap_cons, elem_of_cons. tauto.
    + by etrans.
Qed.

End SearchFacts.

(** X18.  [search_all_companies] always returns: whatever the companies,
    the pages and the network, some number of rounds is enough for all
    the crawls, and more rounds change nothing.  The result has one
    selection for each ticker among the companies and for no other key;
    every selection covers only years from [min_year] up to, but without,
    the current year; and the URLs that the shared client had marked as
    problematic before are still marked after. *)
Theorem search_all_companies_returns :
  ∀ (env : HTMLPageProcessor.Environment) (min_year current_year : Z)
    (companies : list SearchRun.Company) (p : HTMLPageProcessor.Processor),
    ∃ fuel selections p',
      (∀ fuel', (fuel ≤ fuel')%nat →
                SearchRun.search_all_companies env fuel' min_year current_year
                  companies p
                = Some (selections, p'))
      ∧ NoDup (Dict.keys selections)
      ∧ (∀ t, t ∈ Dict.keys selections ↔ t ∈ SearchRun.ticker <$> companies)
      ∧ (∀ t selection,
           Dict.get t selections = Some selection →
           Forall (λ y, min_year ≤ y < current_year ∧ y ≠ 0)
                  (ReportsRanker.years_covered selection))
      ∧ HTTPClient.problematic_urls (HTMLPageProcessor.http_client p)
        ⊆ HTTPClient.problematic_urls (HTMLPageProcessor.http_client p').
Proof.
  intros env min_year current_year companies p.
  destruct (search_loop_returns env min_year current_year companies [] p
              (made_for_nil min_year current_year))
    as (fuel & selections & p' & Hloop & [Hnd Hmade] & Hkeys & Hp).
  exists fuel, selections, p'. split; [exact Hloop|]. split; [done|].
  split; [|split; [|done]].
  - intros t. rewrite Hkeys. cbn. rewrite elem_of_nil. tauto.
  - intros t selection Hget. destruct (Hmade t selection Hget) as [docs ->].
    apply Forall_forall. intros y Hy. by apply covered_in_window in Hy.
Qed.

(** ** A seed that cannot be read *)

Section SeedFacts.
Import HTTPClient HTMLPageProcessor.
Variable env : Environment.

Lemma process_url_no_response url depth p :
  (∀ response, (make_request (net env) url (http_client p)).1 ≠ Resp response) →
  _process_url_from_queue env url depth p
  = set_client (make_request (net env) url (http_client p)).2 p.
Proof.
  intros Hno. unfold _process_url_from_queue, request. crawl_unfold.
  destruct (make_request (net env) url (http_client p)) as [[response| |] c1];
    crawl_red; try done.
  by destruct (Hno response).
Qed.

Lemma crawl_loop_no_response fuel seed p :
  url_queue p = [(seed, 0%nat)] → visited_urls p = ∅ → found_documents p = [] →
  (∀ response, (make_request (net env) seed (http_client p)).1 ≠ Resp response) →
  ∃ p', crawl_loop env (S fuel) p = Some p'
        ∧ found_documents p' = []
        ∧ processed p' = processed p ++ [seed].
Proof.
  intros Hq Hv Hd Hno.
  assert (Hstep : ∃ p', crawl_step env p = Some p'
                        ∧ url_queue p' = [] ∧ found_documents p' = []
                        ∧ processed p' = processed p ++ [seed]).
  { unfold crawl_step. rewrite Hq. cbn [visited_urls]. rewrite Hv.
    rewrite decide_False by apply not_elem_of_empty.
    eexists. split; [reflexivity|].
    rewrite process_url_no_response by exact Hno. cbn. done. }
  destruct Hstep as (p' & Hstep & Hq' & Hd' & Hp').
  exists p'. split; [|done].
  assert (Hend : crawl_step env p' = None) by (unfold crawl_step; by rewrite Hq').
  simpl. rewrite Hstep. destruct fuel; simpl; by rewrite Hend.
Qed.

End SeedFacts.

(** X19.  [find_annual_reports] returns the empty list when the seed
    cannot be parsed, and when the request for the seed brings no
    response, by a failure or by an exception; in the second case one
    round of the loop, for the seed alone, ends the crawl. *)
Theorem unreadable_seed_gives_no_documents :
  (∀ (env : HTMLPageProcessor.Environment) (fuel : nat) (seed : string)
     (p : HTMLPageProcessor.Processor),
     HTMLPageProcessor._extract_base_domain env seed = None →
     HTMLPageProcessor.find_annual_reports env fuel seed p = Some [])
  ∧ (∀ (env : HTMLPageProcessor.Environment) (fuel : nat) (seed : string)
       (p : HTMLPageProcessor.Processor),
       (∀ response,
          (HTTPClient.make_request (HTMLPageProcessor.net env) seed
             (HTMLPageProcessor.http_client p)).1 ≠ HTTPClient.Resp response) →
       HTMLPageProcessor.find_annual_reports env (S fuel) seed p = Some []
       ∧ ∀ p0 final,
           HTMLPageProcessor.start_crawl env seed p = Some p0 →
           HTMLPageProcessor.crawl_loop env (S fuel) p0 = Some final →
           HTMLPageProcessor.processed final = [seed]).
Proof.
  split.
  - intros env fuel seed p Hnone.
    unfold HTMLPageProcessor.find_annual_reports, HTMLPageProcessor.start_crawl.
    by rewrite Hnone.
  - intros env fuel seed p Hno.
    unfold HTMLPageProcessor.find_annual_reports, HTMLPageProcessor.start_crawl.
    destruct (HTMLPageProcessor._extract_base_domain env seed) as [domain|];
      [|split; [done|by intros]].
    set (p0 := HTMLPageProcessor.mkProcessor _ _ _ _ _ _ _).
    destruct (crawl_loop_no_response env fuel seed p0 eq_refl eq_refl eq_refl Hno)
      as (p' & Hloop & Hd & Hp).
    split; [by rewrite Hloop, <- Hd|].
    intros p0' final [= <-]. fold p0. rewrite Hloop. by intros [= <-].
Qed.

Lemma unreadable_seed_gives_no_documents_witness :
  HTMLPageProcessor.find_annual_reports
    (urllib.environment (λ _ _, HTTPClient.RequestFailure)) 1
    "https://a.example.com/investors" Scenario.fresh
  = Some [].
Proof.
  refine (proj1 (proj2 unreadable_seed_gives_no_documents
                   (urllib.environment (λ _ _, HTTPClient.RequestFailure)) 0%nat
                   "https://a.example.com/investors" Scenario.fresh _)).
  intros response. vm_compute. discriminate.
Defined.

(** ** The file name of a URL *)

Section UrlFilenameFacts.
Import Str HTMLPageProcessor.

Lemma join_snoc sep (l : list string) (f : string) :
  l ≠ [] → join sep (l ++ [f]) = join sep l +:+ sep +:+ f.
Proof.
  induction l as [|p [|q l] IH]; [done|..]; intros _.
  - done.
  - change (join sep ((p :: q :: l) ++ [f]))
      with (p +:+ sep +:+ join sep ((q :: l) ++ [f])).
    rewrite IH by done.
    change (join sep (p :: q :: l)) with (p +:+ sep +:+ join sep (q :: l)).
    by rewrite !app_assoc_s.
Qed.

Lemma last_piece_split (sep : ascii) (s : string) :
  let f := last_piece (split sep s) in
  has_char sep f = false
  ∧ ∃ d, s = d +:+ f
         ∧ (d = EmptyString ∨ endswith (String sep EmptyString) d = true).
Proof.
  intros f. subst f. unfold last_piece.
  destruct (last (split sep s)) as [f|] eqn:E.
  - apply last_Some in E as [init E]. cbn [default]. split.
    + pose proof (split_pieces_no_sep sep s) as Hall. rewrite E in Hall.
      apply Forall_app in Hall as [_ Hf]. by apply Forall_cons in Hf as [Hf _].
    + pose proof (join_split sep s) as Hj. rewrite E in Hj.
      destruct init as [|p init].
      * exists EmptyString. split; [by rewrite <- Hj|by left].
      * rewrite join_snoc in Hj by done.
        exists (join (String sep EmptyString) (p :: init) +:+ String sep EmptyString).
        split; [by rewrite app_assoc_s|]. right.
        apply endswith_spec. by eexists.
  - apply last_None in E. by destruct (split_nonempty sep s).
Qed.

End UrlFilenameFacts.

(** X20.  A file name that [_extract_filename_from_url] returns is what
    follows the last slash of the unquoted path of the URL: it has no
    slash in it, it has a dot, and it is longer than three characters.  A
    last segment without a dot or of at most three characters gives no
    file name. *)
Theorem url_filename_shape :
  (∀ (env : HTMLPageProcessor.Environment) (url filename : string),
     HTMLPageProcessor._extract_filename_from_url env url = Some (Some filename) →
     Str.has_char "/" filename = false
     ∧ Str.has_char "." filename = true
     ∧ (3 < String.length filename)%nat
     ∧ ∃ parsed_path directory,
         HTMLPageProcessor.urlparse_path env url = Some parsed_path
         ∧ HTMLPageProcessor.unquote env parsed_path = directory +:+ filename
         ∧ (directory = EmptyString ∨ Str.endswith "/" directory = true))
  ∧ (∀ (env : HTMLPageProcessor.Environment) (url parsed_path segment : string),
       HTMLPageProcessor.urlparse_path env url = Some parsed_path →
       Str.has_char "/" segment = false →
       Str.has_char "." segment = false ∨ (String.length segment ≤ 3)%nat →
       (∃ directory, HTMLPageProcessor.unquote env parsed_path
                     = directory +:+ String "/" segment) →
       HTMLPageProcessor._extract_filename_from_url env url = Some None).
Proof.
  split.
  - intros env url filename. unfold HTMLPageProcessor._extract_filename_from_url.
    destruct (HTMLPageProcessor.urlparse_path env url) as [parsed_path|]; [|done].
    destruct (last_piece_split "/" (HTMLPageProcessor.unquote env parsed_path))
      as (Hslash & d & Hd & Hdir).
    set (f := HTMLPageProcessor.last_piece _) in *. clearbody f.
    destruct (Str.has_char "." f && (3 <? String.length f)%nat) eqn:E; [|done].
    intros [= <-]. apply andb_true_iff in E as [Hdot Hlen].
    apply Nat.ltb_lt in Hlen. split; [done|]. split; [done|]. split; [done|].
    by exists parsed_path, d.
  - intros env url parsed_path segment Hpath Hslash Hshort [directory Hd].
    unfold HTMLPageProcessor._extract_filename_from_url. rewrite Hpath, Hd.
    rewrite split_app_sep. unfold HTMLPageProcessor.last_piece.
    rewrite (split_no_sep "/" segment Hslash), last_snoc. cbn [default id].
    destruct Hshort as [Hdot|Hlen].
    + by rewrite Hdot.
    + assert ((3 <? String.length segment)%nat = false) as ->
        by by apply Nat.ltb_ge.
      by rewrite andb_false_r.
Qed.

Lemma url_filename_shape_witness :
  Str.has_char "/" "Annual_Report_2022.pdf" = false.
Proof.
  exact (proj1 (proj1 url_filename_shape
                  (urllib.environment Scenario.report_net) Scenario.report_url
                  "Annual_Report_2022.pdf" eq_refl)).
Defined.

(** ** What the header check records *)

Section HeaderFacts.
Import Str Classifier HTTPClient HTMLPageProcessor CrawlShape.
Variable env : Environment.

#[local] Existing Instance Crawl_ret.
#[local] Existing Instance Crawl_bind.

Lemma extension_not_slash (a b ext : string) :
  ext = ".pdf" ∨ ext = ".xlsx" →
  a +:+ ext = b +:+ "/" → False.
Proof.
  intros Hext E. apply app_snoc_last in E as [suf' Hs].
  - destruct Hext as [-> | ->];
      do 6 (destruct suf' as [|? suf']; simpl in Hs; [discriminate|]);
      discriminate.
  - by destruct Hext as [-> | ->].
Qed.

Lemma lower_endswith_slash u :
  endswith "/" u = true → endswith "/" (lower u) = true.
Proof.
  rewrite !endswith_spec. intros [a ->]. exists (lower a). by rewrite lower_app.
Qed.

(** The file name that the [Content-Type] branch takes is not empty when
    the check accepts it. *)
Lemma content_type_filename url filename :
  (_extract_filename_from_url env url = Some (Some filename)
   ∨ (_extract_filename_from_url env url = Some None
      ∧ filename = last_piece (split "/" url))) →
  _is_annual_report None (Some url) (Some filename) None = true →
  filename ≠ EmptyString.
Proof.
  intros Hfrom Ha ->.
  destruct (is_annual_report_true None (Some url) (Some EmptyString) None I Ha)
    as (_ & _ & Hu & (source & keyword & Hne & Hsrc & _)).
  assert (Hurl : url ≠ EmptyString).
  { destruct Hsrc as [?|[[= ->]|[= <-]]]; done. }
  specialize (Hu url eq_refl Hurl eq_refl).
  destruct Hfrom as [Hfrom|[_ Hlast]].
  - unfold _extract_filename_from_url in Hfrom.
    destruct (urlparse_path env url); [|done].
    destruct (has_char "." _ && (3 <? String.length _)%nat) eqn:E; [|done].
    injection Hfrom as Hf. rewrite Hf in E. done.
  - destruct (last_piece_split "/" url) as (_ & d & Hd & Hdir).
    rewrite <- Hlast, app_nil_r_s in Hd. subst d.
    destruct Hdir as [?|Hdir]; [done|].
    apply lower_endswith_slash, endswith_spec in Hdir as [b Hb].
    apply orb_true_iff in Hu as [Hu|Hu]; apply endswith_spec in Hu as [a Hu];
      rewrite Hu in Hb.
    + by apply (extension_not_slash a b ".pdf"); [left|].
    + by apply (extension_not_slash a b ".xlsx"); [right|].
Qed.

Lemma header_document_intro url filename year :
  filename ≠ EmptyString →
  (∃ text u, _is_annual_report text u (Some filename) None = true) →
  header_document url (mkDoc url filename EmptyString year).
Proof.
  intros Hne (text & u & Ha).
  destruct (is_annual_report_true text u (Some filename) None I Ha)
    as (_ & Hf & _).
  destruct (Hf filename eq_refl Hne) as [Hext Hq].
  split; [done|]. split; [done|]. done.
Qed.

Lemma check_header_documents url header_value p :
  check_header url header_value p = (p, Some tt)
  ∨ ∃ doc, header_document url doc
           ∧ check_header url header_value p = (append_document doc p, Some tt).
Proof.
  unfold check_header.
  destruct (truthy (Some header_value)); [|by left].
  destruct (_extract_filename_from_disposition header_value) as [filename|];
    [|by left].
  destruct (truthy (Some filename)) eqn:Et; [|by left]. cbn [andb].
  destruct (_is_annual_report None None (Some filename) None) eqn:Ha; [|by left].
  right. eexists. split; [|reflexivity].
  apply header_document_intro; [by apply truthy_Some|by eauto].
Qed.

Lemma content_type_documents url (content_type : string) q :
  let q' :=
    ((if contains "pdf" content_type || contains "excel" content_type
         || contains "spreadsheet" content_type
      then
        from_url ← lift (_extract_filename_from_url env url);
        let filename := match from_url with
                        | Some filename => filename
                        | None => last_piece (split "/" url)
                        end in
        if _is_annual_report None (Some url) (Some filename) None
        then
          let year := or_year (_extract_year_from_filename filename)
                              (_extract_year_from_text url) in
          modify (append_document (mkDoc url filename EmptyString year))
        else mret tt
      else mret tt) : Crawl unit) q in
  q'.1 = q ∨ ∃ doc, header_document url doc ∧ q'.1 = append_document doc q.
Proof.
  intros q'. subst q'. crawl_unfold.
  destruct (contains "pdf" _ || _ || _); crawl_red; [|by left].
  destruct (_extract_filename_from_url env url) as [from_url|] eqn:Ef; crawl_red;
    [|by left].
  set (filename := match from_url with
                   | Some filename => filename
                   | None => last_piece (split "/" url)
                   end).
  destruct (_is_annual_report None (Some url) (Some filename) None) eqn:Ha;
    crawl_red; [|by left].
  right. eexists. split; [|reflexivity].
  apply header_document_intro; [|by eauto].
  apply (content_type_filename url); [|done].
  unfold filename. destruct from_url; [by left|by right].
Qed.

Lemma check_headers_documents url p :
  let p' := _check_headers_for_documents env url p in
  url_queue p' = url_queue p
  ∧ visited_urls p' = visited_urls p
  ∧ ∃ docs, found_documents p' = found_documents p ++ docs
            ∧ (length docs ≤ 3)%nat
            ∧ Forall (header_document url) docs.
Proof.
  intros p'. subst p'.
  destruct (check_headers_effect env url p)
    as (_ & Hv & _ & _ & _ & (new & Hq & Hnew) & _).
  split; [|split; [done|]].
  { destruct new as [|item new]; [by rewrite Hq, app_nil_r|].
    apply Forall_cons in Hnew as [[_ []] _]. }
  clear Hv new Hq Hnew.
  unfold _check_headers_for_documents, check_headers_body, request.
  unfold try_except.
  unfold mbind at 1. unfold Crawl_bind at 1.
  destruct (make_request (net env) url (http_client p)) as [[response| |] c1];
    cbn [fst snd];
    try (exists []; rewrite app_nil_r; split; [done|];
         split; [simpl; lia|constructor]).
  set (p1 := set_client c1 p).
  change (found_documents p) with (found_documents p1).
  unfold mbind at 1. unfold Crawl_bind at 1.
  assert (Hloop : ∃ docs,
             for_each (check_header url)
                      [content_disposition response; content_description response] p1
             = (foldl (λ q doc, append_document doc q) p1 docs, Some tt)
             ∧ (length docs ≤ 2)%nat ∧ Forall (header_document url) docs).
  { cbn [for_each]. unfold mbind, mret, Crawl_bind, Crawl_ret.
    destruct (check_header_documents url (content_disposition response) p1)
      as [H1|(d1 & Hd1 & H1)]; rewrite H1.
    - destruct (check_header_documents url (content_description response) p1)
        as [H2|(d2 & Hd2 & H2)]; rewrite H2.
      + exists []. split; [done|]. split; [simpl; lia|constructor].
      + exists [d2]. split; [done|]. split; [simpl; lia|by constructor].
    - destruct (check_header_documents url (content_description response)
                  (append_document d1 p1))
        as [H2|(d2 & Hd2 & H2)]; rewrite H2.
      + exists [d1]. split; [done|]. split; [simpl; lia|by constructor].
      + exists [d1; d2]. split; [done|]. split; [simpl; lia|].
        constructor; [done|]. by constructor. }
  destruct Hloop as (docs & -> & Hlen & Hall).
  assert (Hfound : ∀ l q, found_documents (foldl (λ q doc, append_document doc q) q l)
                          = found_documents q ++ l).
  { induction l as [|d l IH]; intros q; simpl; [by rewrite app_nil_r|].
    rewrite IH. cbn. by rewrite <- app_assoc. }
  set (q := foldl (λ q doc, append_document doc q) p1 docs).
  pose proof (content_type_documents url (lower (content_type response)) q) as Hct.
  cbv zeta in Hct. destruct Hct as [Hq|(doc & Hdoc & Hq)]; rewrite Hq.
  - exists docs. split; [apply Hfound|]. split; [lia|done].
  - exists (docs ++ [doc]). cbn. unfold q. rewrite Hfound, <- app_assoc.
    split; [done|]. rewrite length_app. cbn. split; [lia|].
    apply Forall_app. split; [done|]. by constructor.
Qed.

End HeaderFacts.

(** X21.  The header check of a page records at most three documents,
    one for each of the two headers that carry a file name and one for
    the content type; each of them is recorded under the URL of the page
    itself, without content, with a non-empty title that ends in .pdf or
    .xlsx and has no quarterly keyword, in any case.  The check leaves
    the queue and the visited set as they are. *)
Theorem header_check_records_the_page_itself :
  ∀ (env : HTMLPageProcessor.Environment) (url : string)
    (p : HTMLPageProcessor.Processor),
    let p' := HTMLPageProcessor._check_headers_for_documents env url p in
    HTMLPageProcessor.url_queue p' = HTMLPageProcessor.url_queue p
    ∧ HTMLPageProcessor.visited_urls p' = HTMLPageProcessor.visited_urls p
    ∧ ∃ docs,
        HTMLPageProcessor.found_documents p'
        = HTMLPageProcessor.found_documents p ++ docs
        ∧ (length docs ≤ 3)%nat
        ∧ Forall (CrawlShape.header_document url) docs.
Proof. intros env url p. apply check_headers_documents. Qed.

(** ** The link loop *)

Section QueueLinkFacts.
Import Str Classifier HTTPClient HTMLPageProcessor CrawlShape.
Variable env : Environment.

Lemma queue_link_cases base_url next_depth link p :
  queue_link env base_url next_depth link p = (p, Some tt)
  ∨ (∃ href, link_href link = Some href
             ∧ urljoin env base_url href = None
             ∧ queue_link env base_url next_depth link p = (p, None))
  ∨ ∃ href link_url,
      link_href link = Some href
      ∧ href ≠ EmptyString
      ∧ link_text link ≠ EmptyString
      ∧ existsb (λ scheme, startswith scheme (lower href))
                ["mailto:"; "tel:"; "javascript:"; "#"] = false
      ∧ _is_social_media_link href (link_text link) = false
      ∧ urljoin env base_url href = Some link_url
      ∧ _is_same_domain env (base_domain p) link_url = true
      ∧ _should_skip_url link_url = false
      ∧ (link_url ∉ visited_urls p)
      ∧ (link_url ∉ (url_queue p).*1)
      ∧ queue_link env base_url next_depth link p
        = (enqueue (link_url, next_depth) p, Some tt).
Proof.
  unfold queue_link. crawl_unfold.
  destruct (negb (truthy (Some (default EmptyString (link_href link))))
            || negb (truthy (Some (link_text link)))) eqn:Et; [by left|].
  apply orb_false_iff in Et as [Eh Etext].
  apply negb_false_iff, truthy_Some in Eh. apply negb_false_iff, truthy_Some in Etext.
  destruct (link_href link) as [href|] eqn:Ehref;
    cbn [default from_option id] in *; [|done].
  destruct (existsb _ ["mailto:"; "tel:"; "javascript:"; "#"]) eqn:Es; [by left|].
  destruct (_is_social_media_link href (link_text link)) eqn:Esoc; [by left|].
  destruct (urljoin env base_url href) as [link_url|] eqn:Ej; crawl_red.
  - destruct (negb (_is_same_domain env (base_domain p) link_url)) eqn:Ed;
      [by left|].
    apply negb_false_iff in Ed.
    destruct (_should_skip_url link_url) eqn:Eskip; [by left|].
    destruct (bool_decide (link_url ∈ visited_urls p)) eqn:Ev; [by left|].
    apply bool_decide_eq_false in Ev.
    destruct (existsb _ (url_queue p)) eqn:Eq; [by left|].
    apply existsb_queue_false in Eq.
    right. right. exists href, link_url. done.
  - right. left. by exists href.
Qed.

End QueueLinkFacts.

(** X22.  The link loop queues a link only if it has a non-empty
    [href] and a non-empty text, its [href] does not begin with mailto:,
    tel:, javascript: or #, it is not a social-media link, and its joined
    URL is of the base domain, contains no ignored path, is not visited
    and is not waiting in the queue; such a link is put at the end of
    the queue, one level deeper.  Every other link leaves the processor
    as it is. *)
Theorem queued_link_postcondition :
  ∀ (env : HTMLPageProcessor.Environment) (base_url : string) (next_depth : nat)
    (link : Link) (p : HTMLPageProcessor.Processor),
    let p' := (HTMLPageProcessor.queue_link env base_url next_depth link p).1 in
    p' = p
    ∨ ∃ href link_url,
        link_href link = Some href
        ∧ href ≠ EmptyString
        ∧ link_text link ≠ EmptyString
        ∧ (∀ scheme, scheme ∈ ["mailto:"; "tel:"; "javascript:"; "#"] →
                     Str.startswith scheme (Str.lower href) = false)
        ∧ HTMLPageProcessor._is_social_media_link href (link_text link) = false
        ∧ HTMLPageProcessor.urljoin env base_url href = Some link_url
        ∧ HTMLPageProcessor._is_same_domain env
            (HTMLPageProcessor.base_domain p) link_url = true
        ∧ HTMLPageProcessor._should_skip_url link_url = false
        ∧ (link_url ∉ HTMLPageProcessor.visited_urls p)
        ∧ (link_url ∉ (HTMLPageProcessor.url_queue p).*1)
        ∧ p' = HTMLPageProcessor.enqueue (link_url, next_depth) p.
Proof.
  intros env base_url next_depth link p p'. subst p'.
  destruct (queue_link_cases env base_url next_depth link p)
    as [H|[(href & _ & _ & H)|(href & link_url & H1 & H2 & H3 & H4 & H5 & H6
                                & H7 & H8 & H9 & H10 & H)]];
    rewrite H; [by left|by left|].
  right. exists href, link_url. repeat (split; [done|]). split; [|done].
  intros scheme Hin.
  destruct (Str.startswith scheme (Str.lower href)) eqn:E; [|done].
  assert (existsb (λ scheme, Str.startswith scheme (Str.lower href))
                  ["mailto:"; "tel:"; "javascript:"; "#"] = true); [|congruence].
  apply existsb_elem_of. by exists scheme.
Qed.
